(** * Sauti-Mpya: the fallback risk classifier and the voice recorder

  A shallow embedding of
  - [analyzeRisk] and [generateFallbackResponse] (src/pages/Chat.tsx),
  - [getSupportedMimeType] and [requestMicrophonePermission]
    (utils/audioUtils),
  - the [VoiceRecorder] component (components/VoiceRecorder),
  - [formatDuration] and [blobToFile] (utils/audioUtils),
  - the configuration (config/env) and the service (services/groqService),
  - [getAIResponse], [handleSendText] and [handleSendVoice] of the page
    (src/pages/Chat.tsx),
  followed by the properties proved about them.

  The component is a set of event handlers over React state cells, refs and
  browser objects. Each handler is a function on one record that holds all
  three; [startRecording] is cut at its [await] into the part that runs on
  the click and the parts that run when the browser grants or rejects the
  request. What the model takes from the browser:
  - [new MediaRecorder] throws its [NotSupportedError] when the browser
    cannot record the type it is given, [start()] throws on a recorder
    that is not inactive, and the text of an exception is the browser's;
  - a recorder stops only when [stop()] is called on it, and then fires its
    [stop] event once; data may arrive any time before that event;
  - an interval fires once per second until it is cleared;
  - a state update of an unmounted component is dropped.
  The [disabled] prop is false while the recorder is shown ([Chat] shows it
  only when it is not loading).

  The configuration reads [import.meta.env] as a map from names to strings
  and returns the lines it writes to the console with its result. The
  service reads the SDK as two functions from a client and a request to the
  way the promise settles, and threads its module variable [groqClient]
  through every call. The handlers of the page are cut at each [await]; the
  readings of the clock and the object URL of a recording come with the
  events. Counts of seconds are natural numbers. *)

From Stdlib Require Import Ascii String Decimal DecimalString DecimalNat DecimalFacts.
From stdpp Require Import base decidable option list gmap strings.

Local Open Scope string_scope.

(** ** Strings as the code uses them *)

Module JsString.

(** Text is kept as a Rocq string: a character of ASCII text is one
    character, and text beyond ASCII is kept as the bytes of its UTF-8 form.
    The words the code looks for are all ASCII, and an ASCII word occurs
    among those bytes exactly where it occurs in the text. *)

(** [String.prototype.toLowerCase] belongs to the runtime and follows the
    case mappings of Unicode (the Kelvin sign becomes k, for one). The code
    is modelled over whatever function the runtime has. *)
Class StringRuntime := { toLowerCase : string -> string }.

(** What lower-casing does to ASCII text: the letters A..Z are mapped to
    a..z, every other character is kept. *)
Definition lowerChar (c : ascii) : ascii :=
  let n := nat_of_ascii c in
  if (65 <=? n)%nat && (n <=? 90)%nat then ascii_of_nat (n + 32) else c.

Fixpoint lowerAscii (s : string) : string :=
  match s with
  | EmptyString => EmptyString
  | String c s' => String (lowerChar c) (lowerAscii s')
  end.

(** The text is ASCII: every character is below 128. *)
Definition isAsciiText (s : string) : bool :=
  forallb (fun c => (nat_of_ascii c <? 128)%nat) (list_ascii_of_string s).

(** The runtime lower-cases ASCII text as every runtime does. *)
Definition lowersAscii {R : StringRuntime} : Prop :=
  forall s, isAsciiText s = true -> toLowerCase s = lowerAscii s.

(** A runtime as far as ASCII text can tell. *)
Definition asciiRuntime : StringRuntime := {| toLowerCase := lowerAscii |}.

(** [w] starts [s]. *)
Fixpoint startsWith (s w : string) {struct w} : bool :=
  match w, s with
  | EmptyString, _ => true
  | String _ _, EmptyString => false
  | String a w', String b s' => if Ascii.eqb a b then startsWith s' w' else false
  end.

(** [String.prototype.includes]: [w] occurs in [s] at some position. *)
Fixpoint includes (s w : string) : bool :=
  if startsWith s w then true
  else match s with
       | EmptyString => false
       | String _ s' => includes s' w
       end.

(** [Array.prototype.some] over a list of words. *)
Definition some {A} (p : A -> bool) (l : list A) : bool := existsb p l.

(** The mathematical reading of "is a substring of". *)
Definition substring_of (w s : string) : Prop :=
  exists pre post, s = pre ++ w ++ post.

End JsString.

(** ** pages/Chat.tsx: the keyword classifier and the canned responses *)

Module Chat.
Import JsString.

Definition highRiskWords : list string :=
  ["hit"; "hits"; "hitting"; "punch"; "kick"; "choke"; "strangle"; "weapon";
   "knife"; "gun"; "kill"; "murder"; "rape"; "force"].

Definition mediumRiskWords : list string :=
  ["hurt"; "afraid"; "scared"; "fear"; "threaten"; "control"; "isolate";
   "yell"; "scream"; "insult"; "slap"; "push"; "shove"].

Definition analyzeRisk {R : StringRuntime} (text : string) : string :=
  let lowerText := toLowerCase text in
  let hasHighRisk := some (fun word => includes lowerText word) highRiskWords in
  let hasMediumRisk := some (fun word => includes lowerText word) mediumRiskWords in
  if hasHighRisk then "high"
  else if hasMediumRisk then "medium"
  else "low".

Definition highRiskResponse : string :=
  "I'm very concerned about your safety. What you're describing sounds serious and dangerous. Please know that you don't deserve to be treated this way, and help is available. Would you like me to share emergency contact numbers for your country? If you're in immediate danger, please call emergency services or use the helpline numbers at the bottom of this page.".

Definition mediumRiskResponse : string :=
  "Thank you for sharing that with me. What you're experiencing sounds really difficult and you deserve to feel safe and respected. These behaviors can be warning signs of abuse. Would you be open to taking our safety assessment? It might help you understand your situation better. Remember, you have options and support is available.".

Definition helpResponse : string :=
  "I'm here to support you. Here are some steps you can take: 1) Take our safety assessment to better understand your situation, 2) Create a safety plan, 3) Reach out to local helplines (you'll find numbers at the bottom of this page), 4) Talk to someone you trust. Would you like me to guide you through any of these?".

Definition leavingResponse : string :=
  "Leaving an abusive situation is a brave step, and it's important to plan carefully for your safety. Our safety plan tool can help you prepare. Remember: leaving can be the most dangerous time, so having a plan is crucial. Would you like help creating a safety plan?".

Definition selfBlameResponse : string :=
  "Please hear this: abuse is NEVER your fault. No matter what you did or didn't do, no one deserves to be hurt, controlled, or frightened. The person choosing to be abusive is responsible for their behavior, not you. You deserve to be treated with respect and kindness.".

Definition childrenResponse : string :=
  "I understand you're concerned about children in this situation. Children who witness abuse are affected by it, even if they're not directly harmed. Their safety and wellbeing matter too. If you're worried about a child's safety, please reach out to child protection services or the helplines at the bottom of this page.".

Definition defaultResponse : string :=
  "Thank you for sharing that with me. Your feelings are valid, and it takes courage to talk about these things. I'm here to listen without judgment. Would you like to tell me more, or would you prefer to explore our safety assessment or resources?".

Definition generateFallbackResponse {R : StringRuntime} (userMessage : string)
  : string :=
  let riskLevel := analyzeRisk userMessage in
  let lowerMessage := toLowerCase userMessage in
  if String.eqb riskLevel "high" then highRiskResponse
  else if String.eqb riskLevel "medium" then mediumRiskResponse
  else if includes lowerMessage "help" || includes lowerMessage "what do i do"
          || includes lowerMessage "what should i" then helpResponse
  else if includes lowerMessage "leave" || includes lowerMessage "leaving" then
    leavingResponse
  else if includes lowerMessage "fault" || includes lowerMessage "blame"
          || includes lowerMessage "my fault" then selfBlameResponse
  else if includes lowerMessage "children" || includes lowerMessage "kids"
          || includes lowerMessage "child" then childrenResponse
  else defaultResponse.

(** *** The rule table the specification describes

    The specification reads [generateFallbackResponse] as a priority list
    of rules, each a set of trigger words with its canned message; the
    first rule with a trigger word in the lowercased text wins. *)

Record Rule := { triggers : list string; response : string }.

Definition priorityOrder : list Rule :=
  [ {| triggers := highRiskWords; response := highRiskResponse |};
    {| triggers := mediumRiskWords; response := mediumRiskResponse |};
    {| triggers := ["help"; "what do i do"; "what should i"]; response := helpResponse |};
    {| triggers := ["leave"; "leaving"]; response := leavingResponse |};
    {| triggers := ["fault"; "blame"; "my fault"]; response := selfBlameResponse |};
    {| triggers := ["children"; "kids"; "child"]; response := childrenResponse |} ].

(** A rule matches a text when one of its trigger words is a substring. *)
Definition matches (ws : list string) (t : string) : Prop :=
  exists w, In w ws /\ substring_of w t.

(** The response of the first rule of [rules] that matches [t]. *)
Fixpoint firstMatch (rules : list Rule) (t : string) : string :=
  match rules with
  | [] => defaultResponse
  | rule :: rest =>
      if some (fun word => includes t word) (triggers rule) then response rule
      else firstMatch rest t
  end.

Definition cannedResponses : list string :=
  [highRiskResponse; mediumRiskResponse; helpResponse; leavingResponse;
   selfBlameResponse; childrenResponse; defaultResponse].

(** The three risk levels in the order of their severity. *)
Definition severity (riskLevel : string) : nat :=
  if String.eqb riskLevel "high" then 2
  else if String.eqb riskLevel "medium" then 1 else 0.

End Chat.


(** ** utils/audioUtils *)

Module AudioUtils.

(** What the browser offers: the three objects [isAudioRecordingSupported]
    looks for, and [MediaRecorder.isTypeSupported]. *)
Record Runtime := {
  mediaDevices : bool;
  getUserMedia : bool;
  MediaRecorder_ctor : bool;
  isTypeSupported : string -> bool;
  exceptionMessage : string -> string   (* the text of a [DOMException], by its name *)
}.


Definition isAudioRecordingSupported (rt : Runtime) : bool :=
  mediaDevices rt && getUserMedia rt && MediaRecorder_ctor rt.

Definition types : list string :=
  ["audio/webm"; "audio/webm;codecs=opus"; "audio/ogg;codecs=opus"; "audio/mp4"].

(** The [for ... of] loop of [getSupportedMimeType], with its early return. *)
Fixpoint firstSupported (rt : Runtime) (ts : list string) : option string :=
  match ts with
  | [] => None
  | type :: rest => if isTypeSupported rt type then Some type else firstSupported rt rest
  end.

Definition getSupportedMimeType (rt : Runtime) : string :=
  match firstSupported rt types with
  | Some type => type
  | None => "audio/webm"
  end.

(** A value thrown or used to reject a promise. *)
Inductive Thrown :=
| ErrorObject (name message : string)   (* [instanceof Error] *)
| OtherValue.

(** The [DOMException] of a given name, as this browser words it; it is an
    [Error] object. *)
Definition domException (rt : Runtime) (name : string) : Thrown :=
  ErrorObject name (exceptionMessage rt name).

Definition permissionDeniedMessage : string :=
  "Microphone permission denied. Please allow microphone access to record voice messages.".
Definition noMicrophoneMessage : string :=
  "No microphone found. Please connect a microphone and try again.".
Definition accessFailedMessage : string :=
  "Failed to access microphone. Please check your browser settings.".

(** The [catch] block of [requestMicrophonePermission]: what it throws in
    place of the rejection of [navigator.mediaDevices.getUserMedia]. *)
Definition requestMicrophonePermission_catch (e : Thrown) : Thrown :=
  match e with
  | ErrorObject name _ =>
      if String.eqb name "NotAllowedError" then
        ErrorObject "Error" permissionDeniedMessage
      else if String.eqb name "NotFoundError" then
        ErrorObject "Error" noMicrophoneMessage
      else ErrorObject "Error" accessFailedMessage
  | OtherValue => ErrorObject "Error" accessFailedMessage
  end.

End AudioUtils.

(** ** components/VoiceRecorder *)

Module VoiceRecorder.
Import AudioUtils.

(** A [Blob]: its bytes and its media type. *)
Record Blob := { blobData : list Byte.byte; blobType : string }.

Definition blobSize (b : Blob) : nat := length (blobData b).

(** [new Blob(parts, { type })] *)
Definition newBlob (parts : list Blob) (type : string) : Blob :=
  {| blobData := concat (map blobData parts); blobType := type |}.

(** *** The browser objects the component holds

    Streams, recorders, interval timers and object URLs are named by
    positive numbers handed out from one counter ([setInterval] returns a
    number greater than zero, so a stored timer is always truthy). *)

Inductive RecordingState := inactive | recording | paused.

Record MediaRecorder := {
  recState : RecordingState;
  stopQueued : bool;        (* [stop()] was called, its [stop] event is still to fire *)
  mimeType : string;
  recStream : positive
}.

Record Browser := {
  pendingRequests : nat;                   (* [getUserMedia] calls not yet settled *)
  liveStreams : gset positive;             (* streams whose tracks are live *)
  recorders : gmap positive MediaRecorder;
  intervals : gset positive;               (* running [setInterval] timers *)
  objectUrls : gset positive;              (* URLs created and not revoked *)
  nextId : positive
}.

(** *** The component: [useState] cells, [useRef] cells, props *)

Record Component := {
  isRecording : bool;
  isPaused : bool;
  duration : nat;
  audioUrl : option positive;
  audioBlob : option Blob;
  error : option string;
  isPlaying : bool
}.

Record Refs := {
  mediaRecorderRef : option positive;
  audioChunksRef : list Blob;
  streamRef : option positive;
  timerRef : option positive
}.

(** Calls of the two callback props, as the host ([Chat]) receives them. *)
Inductive HostCall := onSendVoice (b : Blob) | onCancel.

Record State := {
  ui : Component;
  refs : Refs;
  browser : Browser;
  hostCalls : list HostCall;
  mounted : bool
}.

(** A state setter; React drops the update when the component is unmounted. *)
Definition with_ui (f : Component -> Component) (s : State) : State :=
  if mounted s then
    {| ui := f (ui s); refs := refs s; browser := browser s;
       hostCalls := hostCalls s; mounted := mounted s |}
  else s.

Definition with_refs (f : Refs -> Refs) (s : State) : State :=
  {| ui := ui s; refs := f (refs s); browser := browser s;
     hostCalls := hostCalls s; mounted := mounted s |}.

Definition with_browser (f : Browser -> Browser) (s : State) : State :=
  {| ui := ui s; refs := refs s; browser := f (browser s);
     hostCalls := hostCalls s; mounted := mounted s |}.

Definition call (c : HostCall) (s : State) : State :=
  {| ui := ui s; refs := refs s; browser := browser s;
     hostCalls := hostCalls s ++ [c]; mounted := mounted s |}.

Definition set_mounted (v : bool) (s : State) : State :=
  {| ui := ui s; refs := refs s; browser := browser s;
     hostCalls := hostCalls s; mounted := v |}.

Definition setIsRecording (v : bool) (s : State) : State :=
  with_ui (fun c =>
    {| isRecording := v; isPaused := isPaused c; duration := duration c;
       audioUrl := audioUrl c; audioBlob := audioBlob c; error := error c;
       isPlaying := isPlaying c |}) s.

Definition setIsPaused (v : bool) (s : State) : State :=
  with_ui (fun c =>
    {| isRecording := isRecording c; isPaused := v; duration := duration c;
       audioUrl := audioUrl c; audioBlob := audioBlob c; error := error c;
       isPlaying := isPlaying c |}) s.

Definition setDuration (v : nat) (s : State) : State :=
  with_ui (fun c =>
    {| isRecording := isRecording c; isPaused := isPaused c; duration := v;
       audioUrl := audioUrl c; audioBlob := audioBlob c; error := error c;
       isPlaying := isPlaying c |}) s.

Definition setAudioUrl (v : option positive) (s : State) : State :=
  with_ui (fun c =>
    {| isRecording := isRecording c; isPaused := isPaused c; duration := duration c;
       audioUrl := v; audioBlob := audioBlob c; error := error c;
       isPlaying := isPlaying c |}) s.

Definition setAudioBlob (v : option Blob) (s : State) : State :=
  with_ui (fun c =>
    {| isRecording := isRecording c; isPaused := isPaused c; duration := duration c;
       audioUrl := audioUrl c; audioBlob := v; error := error c;
       isPlaying := isPlaying c |}) s.

Definition setError (v : option string) (s : State) : State :=
  with_ui (fun c =>
    {| isRecording := isRecording c; isPaused := isPaused c; duration := duration c;
       audioUrl := audioUrl c; audioBlob := audioBlob c; error := v;
       isPlaying := isPlaying c |}) s.

Definition setIsPlaying (v : bool) (s : State) : State :=
  with_ui (fun c =>
    {| isRecording := isRecording c; isPaused := isPaused c; duration := duration c;
       audioUrl := audioUrl c; audioBlob := audioBlob c; error := error c;
       isPlaying := v |}) s.

Definition set_mediaRecorderRef (v : option positive) (s : State) : State :=
  with_refs (fun c =>
    {| mediaRecorderRef := v; audioChunksRef := audioChunksRef c;
       streamRef := streamRef c; timerRef := timerRef c |}) s.

Definition set_audioChunksRef (v : list Blob) (s : State) : State :=
  with_refs (fun c =>
    {| mediaRecorderRef := mediaRecorderRef c; audioChunksRef := v;
       streamRef := streamRef c; timerRef := timerRef c |}) s.

Definition set_streamRef (v : option positive) (s : State) : State :=
  with_refs (fun c =>
    {| mediaRecorderRef := mediaRecorderRef c; audioChunksRef := audioChunksRef c;
       streamRef := v; timerRef := timerRef c |}) s.

Definition set_timerRef (v : option positive) (s : State) : State :=
  with_refs (fun c =>
    {| mediaRecorderRef := mediaRecorderRef c; audioChunksRef := audioChunksRef c;
       streamRef := streamRef c; timerRef := v |}) s.

Definition set_pendingRequests (v : nat) (s : State) : State :=
  with_browser (fun c =>
    {| pendingRequests := v; liveStreams := liveStreams c; recorders := recorders c;
       intervals := intervals c; objectUrls := objectUrls c;
       nextId := nextId c |}) s.

Definition set_liveStreams (v : gset positive) (s : State) : State :=
  with_browser (fun c =>
    {| pendingRequests := pendingRequests c; liveStreams := v;
       recorders := recorders c; intervals := intervals c;
       objectUrls := objectUrls c; nextId := nextId c |}) s.

Definition set_recorders (v : gmap positive MediaRecorder) (s : State) : State :=
  with_browser (fun c =>
    {| pendingRequests := pendingRequests c; liveStreams := liveStreams c;
       recorders := v; intervals := intervals c; objectUrls := objectUrls c;
       nextId := nextId c |}) s.

Definition set_intervals (v : gset positive) (s : State) : State :=
  with_browser (fun c =>
    {| pendingRequests := pendingRequests c; liveStreams := liveStreams c;
       recorders := recorders c; intervals := v; objectUrls := objectUrls c;
       nextId := nextId c |}) s.

Definition set_objectUrls (v : gset positive) (s : State) : State :=
  with_browser (fun c =>
    {| pendingRequests := pendingRequests c; liveStreams := liveStreams c;
       recorders := recorders c; intervals := intervals c; objectUrls := v;
       nextId := nextId c |}) s.

Definition set_nextId (v : positive) (s : State) : State :=
  with_browser (fun c =>
    {| pendingRequests := pendingRequests c; liveStreams := liveStreams c;
       recorders := recorders c; intervals := intervals c;
       objectUrls := objectUrls c; nextId := v |}) s.

(** The state of the first render. *)
Definition initial : State :=
  {| ui := {| isRecording := false; isPaused := false; duration := 0;
              audioUrl := None; audioBlob := None; error := None;
              isPlaying := false |};
     refs := {| mediaRecorderRef := None; audioChunksRef := [];
                streamRef := None; timerRef := None |};
     browser := {| pendingRequests := 0; liveStreams := empty;
                   recorders := empty; intervals := empty;
                   objectUrls := empty; nextId := 1%positive |};
     hostCalls := [];
     mounted := true |}.

(** *** Browser operations *)

Definition allocate (s : State) : positive * State :=
  let id := nextId (browser s) in (id, set_nextId (Pos.succ id) s).

Definition setInterval (s : State) : positive * State :=
  let '(t, s) := allocate s in
  (t, set_intervals (intervals (browser s) ∪ {[t]}) s).

Definition clearInterval (t : positive) (s : State) : State :=
  set_intervals (intervals (browser s) ∖ {[t]}) s.

Definition createObjectURL (s : State) : positive * State :=
  let '(u, s) := allocate s in
  (u, set_objectUrls (objectUrls (browser s) ∪ {[u]}) s).

Definition revokeObjectURL (u : positive) (s : State) : State :=
  set_objectUrls (objectUrls (browser s) ∖ {[u]}) s.

(** A granted [getUserMedia] request hands over a stream with live tracks. *)
Definition openStream (s : State) : positive * State :=
  let '(st, s) := allocate s in
  (st, set_liveStreams (liveStreams (browser s) ∪ {[st]}) s).

(** [stream.getTracks().forEach(track => track.stop())] *)
Definition stopTracks (st : positive) (s : State) : State :=
  set_liveStreams (liveStreams (browser s) ∖ {[st]}) s.

(** [new MediaRecorder(stream, { mimeType })]. [None] stands for the
    [NotSupportedError] the constructor throws for a type the browser
    cannot record. *)
Definition newMediaRecorder (rt : Runtime) (st : positive) (type : string)
    (s : State) : option (positive * State) :=
  if isTypeSupported rt type then
    let '(r, s) := allocate s in
    Some (r, set_recorders
               (<[r := {| recState := inactive; stopQueued := false;
                          mimeType := type; recStream := st |}]>
                  (recorders (browser s))) s)
  else None.

Definition setRecState (r : positive) (v : RecordingState) (q : bool) (s : State)
  : State :=
  set_recorders
    (alter (fun m => {| recState := v; stopQueued := q;
                        mimeType := mimeType m; recStream := recStream m |})
           r (recorders (browser s))) s.

(** The methods of [MediaRecorder]. [None] stands for the
    [InvalidStateError] a method throws on an inactive recorder; for
    [stop()] this is the stricter of the behaviours browsers have had. *)
Definition MediaRecorder_start (r : positive) (s : State) : option State :=
  m ← recorders (browser s) !! r;
  match recState m with
  | inactive => Some (setRecState r recording (stopQueued m) s)
  | _ => None
  end.

Definition MediaRecorder_stop (r : positive) (s : State) : option State :=
  m ← recorders (browser s) !! r;
  match recState m with
  | inactive => None
  | _ => Some (setRecState r inactive true s)
  end.

Definition MediaRecorder_pause (r : positive) (s : State) : option State :=
  m ← recorders (browser s) !! r;
  match recState m with
  | inactive => None
  | _ => Some (setRecState r paused (stopQueued m) s)
  end.

Definition MediaRecorder_resume (r : positive) (s : State) : option State :=
  m ← recorders (browser s) !! r;
  match recState m with
  | inactive => None
  | _ => Some (setRecState r recording (stopQueued m) s)
  end.

(** *** The component's functions

    A function that calls a [MediaRecorder] method returns [None] when the
    method throws; the others return the next state. *)

Definition startTimer (s : State) : State :=
  let '(t, s) := setInterval s in
  set_timerRef (Some t) s.

(** The interval callback: [setDuration(prev => prev + 1)]. *)
Definition timerCallback (s : State) : State :=
  setDuration (duration (ui s) + 1) s.

Definition stopTimer (s : State) : State :=
  match timerRef (refs s) with
  | Some t => set_timerRef None (clearInterval t s)
  | None => s
  end.

Definition unsupportedMessage : string :=
  "Audio recording is not supported in your browser.".

(** [startRecording] up to its [await]: the capability check, then the
    request to the browser. *)
Definition startRecording (rt : Runtime) (s : State) : State :=
  if negb (isAudioRecordingSupported rt) then
    setError (Some unsupportedMessage) s
  else
    let s := setError None s in
    set_pendingRequests (pendingRequests (browser s) + 1) s.

(** [mediaRecorder.ondataavailable] *)
Definition ondataavailable (data : Blob) (s : State) : State :=
  if (0 <? blobSize data)%nat then
    set_audioChunksRef (audioChunksRef (refs s) ++ [data]) s
  else s.

(** [mediaRecorder.onstop], with the [mimeType] its closure captured. *)
Definition onstop (type : string) (s : State) : State :=
  let blob := newBlob (audioChunksRef (refs s)) type in
  let '(url, s) := createObjectURL s in
  let s := setAudioBlob (Some blob) s in
  let s := setAudioUrl (Some url) s in
  match streamRef (refs s) with
  | Some st => stopTracks st s
  | None => s
  end.

(** [startRecording] after the [await], in its [catch] block. *)
Definition startRecording_catch (err : Thrown) (s : State) : State :=
  setError (Some match err with
                 | ErrorObject _ message => message
                 | OtherValue => "Failed to start recording"
                 end) s.

(** [startRecording] after the [await], when the stream was granted: the
    rest of the [try] block, and the [catch] block where the constructor or
    [start()] throws. *)
Definition startRecording_granted (rt : Runtime) (s : State) : State :=
  let '(stream, s) := openStream s in
  let s := set_streamRef (Some stream) s in
  let type := getSupportedMimeType rt in
  match newMediaRecorder rt stream type s with
  | None => startRecording_catch (domException rt "NotSupportedError") s
  | Some (mediaRecorder, s) =>
      let s := set_mediaRecorderRef (Some mediaRecorder) s in
      let s := set_audioChunksRef [] s in
      match MediaRecorder_start mediaRecorder s with
      | None => startRecording_catch (domException rt "InvalidStateError") s
      | Some s =>
          let s := setIsRecording true s in
          startTimer s
      end
  end.

(** [stopRecording] as a closure that captured [isRecording] from the
    render it was created in. *)
Definition stopRecording_closure (isRecording : bool) (s : State) : option State :=
  match mediaRecorderRef (refs s) with
  | Some r =>
      if isRecording then
        s ← MediaRecorder_stop r s;
        let s := setIsRecording false s in
        let s := setIsPaused false s in
        Some (stopTimer s)
      else Some s
  | None => Some s
  end.

(** An event handler runs the closure of the latest render. *)
Definition stopRecording (s : State) : option State :=
  stopRecording_closure (isRecording (ui s)) s.

Definition pauseRecording (s : State) : option State :=
  match mediaRecorderRef (refs s) with
  | Some r =>
      if isRecording (ui s) then
        if isPaused (ui s) then
          s ← MediaRecorder_resume r s;
          let s := startTimer s in
          Some (setIsPaused false s)
        else
          s ← MediaRecorder_pause r s;
          let s := stopTimer s in
          Some (setIsPaused true s)
      else Some s
  | None => Some s
  end.

(** Which of the three panels the component renders. *)
Inductive View := StartView | RecordingView | ReadyView.

(** A string-or-null cell holding an object URL is truthy when it is set. *)
Definition truthy {A} (v : option A) : bool :=
  match v with Some _ => true | None => false end.

Definition view (s : State) : View :=
  if negb (isRecording (ui s)) && negb (truthy (audioUrl (ui s)))
  then StartView
  else if isRecording (ui s) then RecordingView
  else ReadyView.

(** [audioRef.current] is the [<audio>] element of the third panel. *)
Definition audioRef_attached (s : State) : bool :=
  match view s with ReadyView => true | _ => false end.

Definition playAudio (s : State) : State :=
  match audioUrl (ui s) with
  | Some _ =>
      if audioRef_attached s then
        if isPlaying (ui s) then setIsPlaying false s else setIsPlaying true s
      else s
  | None => s
  end.

Definition handleSend (s : State) : State :=
  match audioBlob (ui s) with
  | Some blob =>
      let s := call (onSendVoice blob) s in
      match audioUrl (ui s) with
      | Some url => revokeObjectURL url s
      | None => s
      end
  | None => s
  end.

Definition handleCancel (s : State) : option State :=
  s ← stopRecording s;
  let s := match audioUrl (ui s) with
           | Some url => revokeObjectURL url s
           | None => s
           end in
  Some (call onCancel s).

(** The cleanup of the [useEffect(..., [])]: it runs at unmount with the
    closures of the first render, in which [isRecording] is [false] and
    [audioUrl] is [null]; the refs are read when it runs. *)
Definition cleanup (s : State) : option State :=
  s ← stopRecording_closure (isRecording (ui initial)) s;
  let s := match audioUrl (ui initial) with
           | Some url => revokeObjectURL url s
           | None => s
           end in
  let s := match streamRef (refs s) with
           | Some st => stopTracks st s
           | None => s
           end in
  Some match timerRef (refs s) with
       | Some t => clearInterval t s
       | None => s
       end.

Definition unmount (s : State) : option State :=
  s ← cleanup s; Some (set_mounted false s).

(** *** The session as the specification names it *)

Inductive Phase := Idle | Recording | Paused | Ready.

(** Between [stop()] and the [stop] event the component shows its first
    panel and has no artifact yet: this reading calls it Idle. *)
Definition phase (s : State) : Phase :=
  if isRecording (ui s) then
    if isPaused (ui s) then Paused else Recording
  else
    match audioUrl (ui s) with Some _ => Ready | None => Idle end.

(** [cancel()] and [send()]: the handler, then the host's reaction. [Chat]
    answers both [onCancel] and [onSendVoice] with
    [setShowVoiceRecorder(false)], which unmounts the recorder. *)
Definition cancel (s : State) : option State :=
  s ← handleCancel s; unmount s.

Definition send (s : State) : option State :=
  match audioBlob (ui s) with
  | Some _ => unmount (handleSend s)
  | None => Some (handleSend s)
  end.

(** *** Events

    One event is processed at a time. The user's clicks reach the handlers
    of the panel that is rendered, while the component is mounted; the
    browser settles a pending [getUserMedia] request, lets a second pass,
    delivers recorded data and fires the [stop] event a call of [stop()] has
    queued, whether the component is still mounted or not: the callbacks it
    registered keep running on its refs. *)

Inductive Event :=
| ClickStart
| UserMediaGranted
| UserMediaRejected (e : Thrown)
| Tick                                  (* one second passes *)
| ClickPause                            (* the Pause / Resume button *)
| ClickStop
| DataAvailable (r : positive) (data : Blob)
| StopEvent (r : positive)
| ClickPlay
| AudioEnded
| ClickSend
| ClickCancel
| Unmount.

(** The user's events need the component on screen. *)
Definition byUser (e : Event) : bool :=
  match e with
  | ClickStart | ClickPause | ClickStop | ClickPlay | AudioEnded | ClickSend
  | ClickCancel | Unmount => true
  | _ => false
  end.

(** A recorder delivers data while it captures and until its [stop] event. *)
Definition busy (m : MediaRecorder) : bool :=
  match recState m with inactive => stopQueued m | _ => true end.

(** The panel on screen, while the component is mounted. *)
Definition panel (s : State) : option View :=
  if mounted s then Some (view s) else None.

Definition step (rt : Runtime) (s : State) (e : Event) : option State :=
  match e with
  | ClickStart =>
      match panel s with
      | Some StartView => Some (startRecording rt s)
      | _ => None
      end
  | UserMediaGranted =>
      match pendingRequests (browser s) with
      | S n => Some (startRecording_granted rt (set_pendingRequests n s))
      | O => None
      end
  | UserMediaRejected e =>
      match pendingRequests (browser s) with
      | S n => Some (startRecording_catch (requestMicrophonePermission_catch e)
                       (set_pendingRequests n s))
      | O => None
      end
  | Tick =>
      (* every running interval fires once *)
      Some (Nat.iter (size (intervals (browser s))) timerCallback s)
  | ClickPause =>
      match panel s with Some RecordingView => pauseRecording s | _ => None end
  | ClickStop =>
      match panel s with Some RecordingView => stopRecording s | _ => None end
  | DataAvailable r data =>
      m ← recorders (browser s) !! r;
      if busy m then Some (ondataavailable data s) else None
  | StopEvent r =>
      m ← recorders (browser s) !! r;
      if stopQueued m then
        Some (onstop (mimeType m) (setRecState r inactive false s))
      else None
  | ClickPlay =>
      match panel s with Some ReadyView => Some (playAudio s) | _ => None end
  | AudioEnded =>
      match panel s with
      | Some ReadyView => Some (setIsPlaying false s)
      | _ => None
      end
  | ClickSend =>
      match panel s with Some ReadyView => send s | _ => None end
  | ClickCancel => if mounted s then cancel s else None
  | Unmount => if mounted s then unmount s else None
  end.

Fixpoint run (rt : Runtime) (s : State) (evs : list Event) : option State :=
  match evs with
  | [] => Some s
  | e :: evs => s ← step rt s e; run rt s evs
  end.

(** The browser is quiet: no [getUserMedia] request is pending and no
    recorder is capturing or about to fire its [stop] event. *)
Definition quiet (s : State) : bool :=
  bool_decide (pendingRequests (browser s) = 0)
  && bool_decide (map_Forall (fun _ m => busy m = false) (recorders (browser s))).

(** A session in the sense of the specification (one recording session per
    widget, no concurrent [start()]): Start is pressed only while the browser
    is quiet. The component itself does not enforce this: its first panel,
    with the Start button, is on screen while a request is pending and again
    between [stop()] and the [stop] event. [step] and [run] are the
    component as it is, [sessionStep] and [session] the component used this
    way. *)
Definition sessionStep (rt : Runtime) (s : State) (e : Event) : option State :=
  match e with
  | ClickStart => if quiet s then step rt s e else None
  | _ => step rt s e
  end.

Fixpoint session (rt : Runtime) (s : State) (evs : list Event) : option State :=
  match evs with
  | [] => Some s
  | e :: evs => s ← sessionStep rt s e; session rt s evs
  end.

(** The fragments the browser delivered in a run, in delivery order. *)
Definition delivered (evs : list Event) : list Blob :=
  flat_map (fun e => match e with DataAvailable _ d => [d] | _ => [] end) evs.

Definition nonEmpty (b : Blob) : bool := (0 <? blobSize b)%nat.

(** No stream, timer or object URL is held. *)
Definition released (s : State) : Prop :=
  liveStreams (browser s) = ∅ /\ intervals (browser s) = ∅
  /\ objectUrls (browser s) = ∅.

(** A browser that can record and produces [audio/webm]. *)
Definition chromium : Runtime :=
  {| mediaDevices := true; getUserMedia := true; MediaRecorder_ctor := true;
     isTypeSupported := fun t => String.eqb t "audio/webm";
     exceptionMessage := fun name => name |}.

(** A browser that records, but in none of the four types the code asks
    for. *)
Definition wavOnly : Runtime :=
  {| mediaDevices := true; getUserMedia := true; MediaRecorder_ctor := true;
     isTypeSupported := fun t => String.eqb t "audio/wav";
     exceptionMessage := fun name => name ++ ": the type is not supported" |}.

Definition fragment1 : Blob :=
  {| blobData := [Byte.x52; Byte.x49]; blobType := "audio/webm" |}.
Definition fragment2 : Blob :=
  {| blobData := [Byte.x46]; blobType := "audio/webm" |}.
Definition emptyFragment : Blob :=
  {| blobData := []; blobType := "audio/webm" |}.

(** start, 3 ticks, pause, 2 ticks, resume, 2 ticks, stop. *)
Definition scenario : list Event :=
  [ClickStart; UserMediaGranted; Tick; Tick; Tick; ClickPause; Tick; Tick;
   ClickPause; Tick; Tick; ClickStop;
   DataAvailable 2 fragment1; DataAvailable 2 emptyFragment;
   DataAvailable 2 fragment2; StopEvent 2].

(** The same run with Start pressed twice before the browser answers the
    first request. The second grant hands over stream 4, and its recorder 5
    is the one the buttons reach. *)
Definition hastyScenario : list Event :=
  [ClickStart; ClickStart; UserMediaGranted; UserMediaGranted;
   Tick; Tick; Tick; ClickPause; Tick; Tick;
   ClickPause; Tick; Tick; ClickStop;
   DataAvailable 5 fragment1; DataAvailable 5 emptyFragment;
   DataAvailable 5 fragment2; StopEvent 5].

(** A take is stopped, and Start is pressed on the first panel before the
    [stop] event of the recorder has run; the take is finalized, then the
    new request is granted. *)
Definition restartScenario : list Event :=
  [ClickStart; UserMediaGranted; DataAvailable 2 fragment1; ClickStop;
   ClickStart; StopEvent 2; UserMediaGranted].

(** The take so far: the elapsed seconds and the finalized artifact. *)
Definition sameTake (s s' : State) : Prop :=
  duration (ui s') = duration (ui s) /\ audioBlob (ui s') = audioBlob (ui s).

(** The rejection is an [Error] object with this [name]. *)
Definition isNamed (name : string) (e : Thrown) : Prop :=
  exists message, e = ErrorObject name message.

(** *** The shapes a session goes through

    [fs] are the fragments delivered so far. Between [stop()] and the
    [stop] event the component shows the first panel again while the
    recorder still holds the stream ([stoppingState]). *)

Definition uiOf (rec pau : bool) (d : nat) (url : option positive)
    (blob : option Blob) (err : option string) (play : bool) : Component :=
  {| isRecording := rec; isPaused := pau; duration := d; audioUrl := url;
     audioBlob := blob; error := err; isPlaying := play |}.

Definition recorderOf (rt : Runtime) (v : RecordingState) (q : bool)
    (st : positive) : MediaRecorder :=
  {| recState := v; stopQueued := q; mimeType := getSupportedMimeType rt;
     recStream := st |}.

Definition idleState (err : option string) (p : nat) (n : positive) : State :=
  {| ui := uiOf false false 0 None None err false;
     refs := {| mediaRecorderRef := None; audioChunksRef := [];
                streamRef := None; timerRef := None |};
     browser := {| pendingRequests := p; liveStreams := ∅; recorders := ∅;
                   intervals := ∅; objectUrls := ∅; nextId := n |};
     hostCalls := []; mounted := true |}.

Definition recordingState (rt : Runtime) (fs : list Blob) (d : nat)
    (err : option string) (r st t n : positive) : State :=
  {| ui := uiOf true false d None None err false;
     refs := {| mediaRecorderRef := Some r; audioChunksRef := filter nonEmpty fs;
                streamRef := Some st; timerRef := Some t |};
     browser := {| pendingRequests := 0; liveStreams := {[st]};
                   recorders := {[r := recorderOf rt recording false st]};
                   intervals := {[t]}; objectUrls := ∅; nextId := n |};
     hostCalls := []; mounted := true |}.

Definition pausedState (rt : Runtime) (fs : list Blob) (d : nat)
    (err : option string) (r st n : positive) : State :=
  {| ui := uiOf true true d None None err false;
     refs := {| mediaRecorderRef := Some r; audioChunksRef := filter nonEmpty fs;
                streamRef := Some st; timerRef := None |};
     browser := {| pendingRequests := 0; liveStreams := {[st]};
                   recorders := {[r := recorderOf rt paused false st]};
                   intervals := ∅; objectUrls := ∅; nextId := n |};
     hostCalls := []; mounted := true |}.

Definition stoppingState (rt : Runtime) (fs : list Blob) (d : nat)
    (err : option string) (r st n : positive) : State :=
  {| ui := uiOf false false d None None err false;
     refs := {| mediaRecorderRef := Some r; audioChunksRef := filter nonEmpty fs;
                streamRef := Some st; timerRef := None |};
     browser := {| pendingRequests := 0; liveStreams := {[st]};
                   recorders := {[r := recorderOf rt inactive true st]};
                   intervals := ∅; objectUrls := ∅; nextId := n |};
     hostCalls := []; mounted := true |}.

Definition readyState (rt : Runtime) (fs : list Blob) (d : nat)
    (err : option string) (play : bool) (r st u n : positive) : State :=
  {| ui := uiOf false false d (Some u)
             (Some (newBlob (filter nonEmpty fs) (getSupportedMimeType rt)))
             err play;
     refs := {| mediaRecorderRef := Some r; audioChunksRef := filter nonEmpty fs;
                streamRef := Some st; timerRef := None |};
     browser := {| pendingRequests := 0; liveStreams := ∅;
                   recorders := {[r := recorderOf rt inactive false st]};
                   intervals := ∅; objectUrls := {[u]}; nextId := n |};
     hostCalls := []; mounted := true |}.

(** Where the browser records none of the listed types, the constructor
    throws after the stream was granted: the component is back at its first
    panel with the message of the exception, [streamRef] holds the last
    stream, and every stream granted so far is still live. *)
Definition leakingState (err : option string) (p : nat) (streams : gset positive)
    (st n : positive) : State :=
  {| ui := uiOf false false 0 None None err false;
     refs := {| mediaRecorderRef := None; audioChunksRef := [];
                streamRef := Some st; timerRef := None |};
     browser := {| pendingRequests := p; liveStreams := streams; recorders := ∅;
                   intervals := ∅; objectUrls := ∅; nextId := n |};
     hostCalls := []; mounted := true |}.

(** The browser can record in the type [getSupportedMimeType] settles on. *)
Definition recordsNegotiatedType (rt : Runtime) : bool :=
  isTypeSupported rt (getSupportedMimeType rt).

Inductive Shape (rt : Runtime) (fs : list Blob) : State -> Prop :=
| Shape_idle err p n :
    p <= 1 -> fs = [] -> Shape rt fs (idleState err p n)
| Shape_recording d err r st t n :
    Shape rt fs (recordingState rt fs d err r st t n)
| Shape_paused d err r st n :
    Shape rt fs (pausedState rt fs d err r st n)
| Shape_stopping d err r st n :
    Shape rt fs (stoppingState rt fs d err r st n)
| Shape_ready d err play r st u n :
    Shape rt fs (readyState rt fs d err play r st u n)
| Shape_closed s :
    mounted s = false -> Shape rt fs s
| Shape_leaking err p streams st n :
    recordsNegotiatedType rt = false -> p <= 1 -> fs = [] ->
    Shape rt fs (leakingState err p streams st n).


(** The calls of the host's callbacks an event makes. *)
Definition callsOf (s : State) (e : Event) : list HostCall :=
  match e with
  | ClickSend =>
      match audioBlob (ui s) with Some blob => [onSendVoice blob] | None => [] end
  | ClickCancel => [onCancel]
  | _ => []
  end.

End VoiceRecorder.

(** ** utils/audioUtils: the duration display *)

Module AudioFormat.

(** [Number.prototype.toString] on a natural number: its decimal digits. *)
Definition toString (n : nat) : string :=
  NilEmpty.string_of_uint (Nat.to_uint n).

Fixpoint repeatChar (c : ascii) (n : nat) : string :=
  match n with
  | O => EmptyString
  | S n => String c (repeatChar c n)
  end.

(** [String.prototype.padStart] with a one-character filler. *)
Definition padStart (targetLength : nat) (c : ascii) (s : string) : string :=
  repeatChar c (targetLength - String.length s) ++ s.

(** [formatDuration], on a whole number of seconds (the recorder passes its
    tick count, on which [Math.floor] changes nothing). *)
Definition formatDuration (seconds : nat) : string :=
  let mins := seconds / 60 in
  let secs := seconds mod 60 in
  padStart 2 "0" (toString mins) ++ ":" ++ padStart 2 "0" (toString secs).

(** The character of a decimal digit, and a number below 100 written with
    two of them. *)
Definition digit (n : nat) : ascii := ascii_of_nat (48 + n).

Definition twoDigits (n : nat) : string :=
  String (digit (n / 10)) (String (digit (n mod 10)) EmptyString).

End AudioFormat.

(** ** config/env *)

Module Env.
Import JsString.

(** A line written to the console. *)
Inductive Console :=
| consoleError (line : string)
| consoleWarn (line : string).

Definition placeholders : list string :=
  ["your_"; "placeholder"; "example"; "test_key"].

(** [getEnvVar], over [import.meta.env] as a map from names to strings; it
    returns the value and the lines it logs. *)
Definition getEnvVar {R : StringRuntime} (metaEnv : gmap string string)
    (key : string) (required : bool) : string * list Console :=
  match metaEnv !! key with
  | Some (String c rest as value) =>
      if some (fun placeholder => includes (toLowerCase value) placeholder)
              placeholders
      then
        (EmptyString,
         [consoleWarn ("⚠️ " ++ key ++ " appears to contain a placeholder value. Please update with actual value.")])
      else (value, [])
  | _ =>
      (EmptyString,
       if required then
         [consoleError ("❌ Required environment variable missing: " ++ key);
          consoleError ("Please add " ++ key ++ " to your .env file")]
       else
         [consoleWarn ("⚠️ Optional environment variable not set: " ++ key)])
  end.

Record EnvConfig := {
  groqApiKey : string;
  debugMode : bool
}.

(** The [env] object, built when the module loads. *)
Definition env {R : StringRuntime} (metaEnv : gmap string string) : EnvConfig :=
  {| groqApiKey := fst (getEnvVar metaEnv "VITE_GROQ_API_KEY" false);
     debugMode := bool_decide (metaEnv !! "VITE_DEBUG_MODE" = Some "true") |}.

(** The double quote character. *)
Definition doubleQuote : string := String (ascii_of_nat 34) EmptyString.

(** A string is truthy when it is not empty. *)
Definition nonEmptyString (s : string) : bool :=
  match s with EmptyString => false | String _ _ => true end.

Definition isGroqConfigured (cfg : EnvConfig) : bool :=
  nonEmptyString (groqApiKey cfg) && (0 <? String.length (groqApiKey cfg))%nat.

Definition validateGroqApiKey (cfg : EnvConfig) : bool * list Console :=
  if negb (nonEmptyString (groqApiKey cfg)) then (false, [])
  else if negb (startsWith (groqApiKey cfg) "gsk_") then
    (false,
     [consoleError ("❌ Invalid Groq API key format. Key should start with "
                    ++ doubleQuote ++ "gsk_" ++ doubleQuote)])
  else (true, []).

Definition getEnvironment (metaEnv : gmap string string) : string :=
  match metaEnv !! "MODE" with
  | Some (String c rest as mode) => mode
  | _ => "development"
  end.

Definition isDevelopment (metaEnv : gmap string string) : bool :=
  String.eqb (getEnvironment metaEnv) "development".

Definition isProduction (metaEnv : gmap string string) : bool :=
  String.eqb (getEnvironment metaEnv) "production".

End Env.

(** ** services/groqService *)

Module GroqService.
Import JsString AudioUtils VoiceRecorder Env.

(** What a [try] block ends with: a value, or the value thrown. *)
Inductive Outcome (A : Type) :=
| Returned (a : A)
| Threw (e : Thrown).
Arguments Returned {A} a.
Arguments Threw {A} e.

(** [throw new Error(message)] *)
Definition newError (message : string) : Thrown := ErrorObject "Error" message.

(** The client of the SDK. *)
Record Groq := { apiKey : string; dangerouslyAllowBrowser : bool }.

Definition invalidKeyMessage : string :=
  "Invalid Groq API key format. Please check your .env file.".
Definition notConfiguredMessage : string :=
  "Groq API is not configured. Please add VITE_GROQ_API_KEY to your .env file.".

(** [getGroqClient], over the module variable [groqClient]: the outcome and
    the variable afterwards. *)
Definition getGroqClient (cfg : EnvConfig) (groqClient : option Groq)
  : Outcome Groq * option Groq :=
  let created :=
    if negb (truthy groqClient) && isGroqConfigured cfg then
      if negb (fst (validateGroqApiKey cfg)) then Threw (newError invalidKeyMessage)
      else Returned (Some {| apiKey := groqApiKey cfg;
                             dangerouslyAllowBrowser := true |})
    else Returned groqClient in
  match created with
  | Threw e => (Threw e, groqClient)
  | Returned groqClient =>
      match groqClient with
      | None => (Threw (newError notConfiguredMessage), groqClient)
      | Some client => (Returned client, groqClient)
      end
  end.

Inductive Role := system | user | assistant.

Record Message := { role : Role; content : string }.

Definition SYSTEM_PROMPT : string :=
"You are a compassionate AI assistant for Sauti Mpya, a confidential support platform for people experiencing relationship abuse and gender-based violence in Africa.

Your role:
- Provide empathetic, non-judgmental support
- Prioritize user safety above all else
- Use trauma-informed language
- Never blame the victim
- Recognize cultural context across African communities
- Suggest appropriate resources when needed

Guidelines:
- Listen actively and validate feelings
- Recognize signs of danger and escalate appropriately
- Encourage professional help and safety planning
- Respect user autonomy and choices
- Maintain confidentiality (remind users this is anonymous)
- Be culturally sensitive to African contexts

When detecting high-risk situations (physical violence, threats, weapons):
- Express immediate concern
- Emphasize that abuse is never the user's fault
- Strongly encourage contacting emergency services or helplines
- Suggest creating a safety plan

For moderate-risk situations (controlling behavior, emotional abuse):
- Acknowledge concerning patterns
- Explain that emotional abuse is serious
- Suggest the safety assessment tool
- Recommend talking to trusted people

Always:
- Be warm, supportive, and hopeful
- Empower the user
- Provide specific, actionable guidance
- Remember: you're a support tool, not a replacement for professional help".

(** The request of [client.chat.completions.create]; the two sampling
    numbers are kept in hundredths. *)
Record ChatRequest := {
  chatModel : string;
  chatMessages : list Message;
  temperature100 : nat;
  max_tokens : nat;
  top_p100 : option nat
}.

(** The answer: [choices[0]?.message?.content] may be missing at each step. *)
Record ChoiceMessage := { messageContent : option string }.
Record Choice := { choiceMessage : option ChoiceMessage }.
Record Completion := { choices : list Choice }.

(** How an awaited promise settles. *)
Inductive Settled (A : Type) :=
| Fulfilled (a : A)
| Rejected (e : Thrown).
Arguments Fulfilled {A} a.
Arguments Rejected {A} e.

(** [blobToFile] (utils/audioUtils): [new File([blob], fileName, { type })]. *)
Record File := { fileName : string; fileData : list Byte.byte; fileType : string }.

Definition blobToFile (blob : Blob) (fileName : string) : File :=
  {| fileName := fileName; fileData := blobData blob; fileType := blobType blob |}.

(** The request and the answer of [client.audio.transcriptions.create]; the
    duration, a number of seconds, is kept in milliseconds. *)
Record TranscriptionRequest := {
  file : File;
  transcriptionModel : string;
  response_format : string;
  language : string
}.

Record Transcription := {
  transcriptionText : string;
  transcriptionLanguage : option string;
  transcriptionDuration : option nat
}.

(** The SDK, as far as the service uses it. *)
Record Api := {
  createChatCompletion : Groq -> ChatRequest -> Settled Completion;
  createTranscription : Groq -> TranscriptionRequest -> Settled Transcription
}.

(** [completion.choices[0]?.message?.content] *)
Definition firstContent (completion : Completion) : option string :=
  c ← head (choices completion); m ← choiceMessage c; messageContent m.

(** The [try] block of [getChatResponse]. *)
Definition getChatResponse_try (cfg : EnvConfig) (api : Api)
    (messages : list Message) (userContext : option string)
    (groqClient : option Groq) : Outcome string * option Groq :=
  match getGroqClient cfg groqClient with
  | (Threw e, groqClient) => (Threw e, groqClient)
  | (Returned client, groqClient) =>
      let fullMessages :=
        {| role := system; content := SYSTEM_PROMPT |}
        :: map (fun msg => {| role := role msg; content := content msg |}) messages in
      let fullMessages :=
        match userContext with
        | Some (String c rest as context) =>
            (fullMessages
             ++ [{| role := system; content := "Additional context: " ++ context |}])%list
        | _ => fullMessages
        end in
      match createChatCompletion api client
              {| chatModel := "llama-3.3-70b-versatile";
                 chatMessages := fullMessages;
                 temperature100 := 70; max_tokens := 1024; top_p100 := Some 90 |} with
      | Rejected e => (Threw e, groqClient)
      | Fulfilled completion =>
          match firstContent completion with
          | Some (String c rest as response) => (Returned response, groqClient)
          | _ => (Threw (newError "No response from AI"), groqClient)
          end
      end
  end.

Definition chatNotConfiguredMessage : string :=
  "AI service not configured. Please contact support.".
Definition chatFailedMessage : string :=
  "Failed to get AI response. Please try again.".

(** The [catch] block of [getChatResponse]. *)
Definition getChatResponse_catch (error : Thrown) : Thrown :=
  match error with
  | ErrorObject _ message =>
      if includes message "API key" then newError chatNotConfiguredMessage
      else newError ("AI service error: " ++ message)
  | OtherValue => newError chatFailedMessage
  end.

Definition getChatResponse (cfg : EnvConfig) (api : Api)
    (messages : list Message) (userContext : option string)
    (groqClient : option Groq) : Outcome string * option Groq :=
  match getChatResponse_try cfg api messages userContext groqClient with
  | (Returned response, groqClient) => (Returned response, groqClient)
  | (Threw error, groqClient) => (Threw (getChatResponse_catch error), groqClient)
  end.

Definition isGroqAvailable (cfg : EnvConfig) : bool := isGroqConfigured cfg.

(** [TranscriptionResponse] (types/voice) *)
Record TranscriptionResponse := {
  text : string;
  responseLanguage : option string;
  responseDuration : option nat
}.

Definition transcribeAudio_try (cfg : EnvConfig) (api : Api) (audioBlob : Blob)
    (groqClient : option Groq) : Outcome TranscriptionResponse * option Groq :=
  match getGroqClient cfg groqClient with
  | (Threw e, groqClient) => (Threw e, groqClient)
  | (Returned client, groqClient) =>
      let audioFile := blobToFile audioBlob "audio.webm" in
      match createTranscription api client
              {| file := audioFile;
                 transcriptionModel := "whisper-large-v3-turbo";
                 response_format := "verbose_json";
                 language := "en" |} with
      | Rejected e => (Threw e, groqClient)
      | Fulfilled transcription =>
          (Returned {| text := transcriptionText transcription;
                       responseLanguage := transcriptionLanguage transcription;
                       responseDuration := transcriptionDuration transcription |},
           groqClient)
      end
  end.

Definition transcriptionNotConfiguredMessage : string :=
  "Transcription service not configured. Please contact support.".
Definition fileTooLargeMessage : string :=
  "Audio file is too large. Please record a shorter message.".
Definition transcriptionFailedMessage : string :=
  "Failed to transcribe audio. Please try again.".

(** The [catch] block of [transcribeAudio]. *)
Definition transcribeAudio_catch (error : Thrown) : Thrown :=
  match error with
  | ErrorObject _ message =>
      if includes message "API key" then newError transcriptionNotConfiguredMessage
      else if includes message "file size" then newError fileTooLargeMessage
      else newError ("Transcription error: " ++ message)
  | OtherValue => newError transcriptionFailedMessage
  end.

Definition transcribeAudio (cfg : EnvConfig) (api : Api) (audioBlob : Blob)
    (groqClient : option Groq) : Outcome TranscriptionResponse * option Groq :=
  match transcribeAudio_try cfg api audioBlob groqClient with
  | (Returned response, groqClient) => (Returned response, groqClient)
  | (Threw error, groqClient) => (Threw (transcribeAudio_catch error), groqClient)
  end.

(** *** [analyzeAssessment] *)

Record Question := { id : nat; questionText : string; weight : nat }.

Definition newline : string := String (ascii_of_nat 10) EmptyString.

(** [Array.prototype.join] *)
Fixpoint join (sep : string) (l : list string) : string :=
  match l with
  | [] => EmptyString
  | [x] => x
  | x :: rest => x ++ sep ++ join sep rest
  end.

(** The questions answered with [true], in the order of the questionnaire. *)
Definition answeredYes (answers : gmap nat bool) (questions : list Question)
  : list string :=
  map questionText
    (List.filter (fun q => bool_decide (answers !! id q = Some true)) questions).

Definition numbered (answeredYes : list string) : string :=
  match answeredYes with
  | [] => "None - all answers were " ++ doubleQuote ++ "No" ++ doubleQuote
  | _ => join newline
           (imap (fun i q => AudioFormat.toString (i + 1) ++ ". " ++ q) answeredYes)
  end.

Definition assessmentPrompt (answers : gmap nat bool) (questions : list Question)
  : string :=
  "Based on a safety assessment, the user answered " ++ doubleQuote ++ "Yes"
  ++ doubleQuote ++ " to the following questions about their relationship:"
  ++ newline ++ newline
  ++ numbered (answeredYes answers questions)
  ++ newline ++ newline
  ++ "Provide personalized, compassionate recommendations (3-5 specific action steps) for this person. Be supportive, non-judgmental, and culturally sensitive to African contexts. Focus on practical safety steps they can take.".

Definition analyzeAssessment_try (cfg : EnvConfig) (api : Api)
    (answers : gmap nat bool) (questions : list Question)
    (groqClient : option Groq) : Outcome string * option Groq :=
  match getGroqClient cfg groqClient with
  | (Threw e, groqClient) => (Threw e, groqClient)
  | (Returned client, groqClient) =>
      match createChatCompletion api client
              {| chatModel := "llama-3.3-70b-versatile";
                 chatMessages :=
                   [{| role := system; content := SYSTEM_PROMPT |};
                    {| role := user; content := assessmentPrompt answers questions |}];
                 temperature100 := 80; max_tokens := 512; top_p100 := None |} with
      | Rejected e => (Threw e, groqClient)
      | Fulfilled completion =>
          match firstContent completion with
          | Some (String c rest as response) => (Returned response, groqClient)
          | _ => (Threw (newError "No recommendations generated"), groqClient)
          end
      end
  end.

(** The [catch] block returns the empty string. *)
Definition analyzeAssessment (cfg : EnvConfig) (api : Api)
    (answers : gmap nat bool) (questions : list Question)
    (groqClient : option Groq) : Outcome string * option Groq :=
  match analyzeAssessment_try cfg api answers questions groqClient with
  | (Returned response, groqClient) => (Returned response, groqClient)
  | (Threw _, groqClient) => (Returned EmptyString, groqClient)
  end.

End GroqService.

(** ** pages/Chat.tsx: the page around the classifier *)

Module ChatPage.
Import JsString Chat AudioUtils VoiceRecorder Env GroqService.

Record VoiceMessage := {
  voiceId : string;
  voiceBlob : Blob;
  voiceUrl : positive;
  voiceDuration : nat;
  transcription : option string;
  voiceTimestamp : nat
}.

Record ChatMessage := {
  chatRole : Role;
  chatContent : string;
  voiceMessage : option VoiceMessage;
  timestamp : option nat
}.

(** The state cells of [Chat]. *)
Record Page := {
  messages : list ChatMessage;
  input : string;
  isLoading : bool;
  showVoiceRecorder : bool;
  pageError : option string
}.

(** White space, on ASCII text: tab, line feed, vertical tab, form feed,
    carriage return and space. *)
Definition isWhiteSpace (c : ascii) : bool :=
  let n := nat_of_ascii c in
  ((9 <=? n)%nat && (n <=? 13)%nat) || (n =? 32)%nat.

Fixpoint trimStart (s : string) : string :=
  match s with
  | EmptyString => EmptyString
  | String c rest => if isWhiteSpace c then trimStart rest else s
  end.

(** The string without the white space at its end. *)
Fixpoint trimEnd (s : string) : string :=
  match s with
  | EmptyString => EmptyString
  | String c rest =>
      match trimEnd rest with
      | EmptyString => if isWhiteSpace c then EmptyString else String c EmptyString
      | rest' => String c rest'
      end
  end.

(** [String.prototype.trim], on ASCII text. *)
Definition trim (s : string) : string := trimEnd (trimStart s).

(** [getAIResponse], a closure over the [messages] of its render. *)
Definition getAIResponse {R : StringRuntime} (cfg : EnvConfig) (api : Api)
    (messages : list ChatMessage)
    (userMessage : string) (groqClient : option Groq)
  : Outcome string * option Groq :=
  if negb (isGroqAvailable cfg) then
    (Returned (generateFallbackResponse userMessage), groqClient)
  else
    let conversationHistory :=
      (map (fun msg => {| role := chatRole msg; content := chatContent msg |}) messages
       ++ [{| role := user; content := userMessage |}])%list in
    match getChatResponse cfg api conversationHistory None groqClient with
    | (Returned response, groqClient) => (Returned response, groqClient)
    | (Threw _, groqClient) =>
        (Returned (generateFallbackResponse userMessage), groqClient)
    end.

Definition setMessages (f : list ChatMessage -> list ChatMessage) (p : Page) : Page :=
  {| messages := f (messages p); input := input p; isLoading := isLoading p;
     showVoiceRecorder := showVoiceRecorder p; pageError := pageError p |}.

Definition setInput (v : string) (p : Page) : Page :=
  {| messages := messages p; input := v; isLoading := isLoading p;
     showVoiceRecorder := showVoiceRecorder p; pageError := pageError p |}.

Definition setIsLoading (v : bool) (p : Page) : Page :=
  {| messages := messages p; input := input p; isLoading := v;
     showVoiceRecorder := showVoiceRecorder p; pageError := pageError p |}.

Definition setShowVoiceRecorder (v : bool) (p : Page) : Page :=
  {| messages := messages p; input := input p; isLoading := isLoading p;
     showVoiceRecorder := v; pageError := pageError p |}.

Definition setPageError (v : option string) (p : Page) : Page :=
  {| messages := messages p; input := input p; isLoading := isLoading p;
     showVoiceRecorder := showVoiceRecorder p; pageError := v |}.

Definition textMessage (r : Role) (content : string) (now : nat) : ChatMessage :=
  {| chatRole := r; chatContent := content; voiceMessage := None;
     timestamp := Some now |}.

Definition greeting : string :=
  "Hello, I'm here to listen and support you. This is a safe, confidential space. You can share whatever you're comfortable with. How are you feeling today?".

(** The first render. *)
Definition initialPage (now : nat) : Page :=
  {| messages := [textMessage assistant greeting now]; input := EmptyString;
     isLoading := false; showVoiceRecorder := false; pageError := None |}.

(** [handleSendText] up to its [await]: the message to answer, if any. *)
Definition handleSendText_start (now : nat) (p : Page) : Page * option string :=
  match trim (input p) with
  | EmptyString => (p, None)
  | userMessage =>
      let p1 := setInput EmptyString p in
      let p1 := setPageError None p1 in
      let p1 := setMessages
                  (fun prev => (prev ++ [textMessage user userMessage now])%list) p1 in
      let p1 := setIsLoading true p1 in
      (p1, Some userMessage)
  end.

Definition chatErrorMessage : string :=
  "Sorry, I encountered an error. Please try again.".

(** [handleSendText] after the [await]: [try], [catch], [finally]. *)
Definition handleSendText_settle (now : nat) (response : Outcome string) (p : Page)
  : Page :=
  let p :=
    match response with
    | Returned response =>
        setMessages (fun prev => (prev ++ [textMessage assistant response now])%list) p
    | Threw _ => setPageError (Some chatErrorMessage) p
    end in
  setIsLoading false p.

(** [handleSendVoice] up to its first [await]. *)
Definition handleSendVoice_start (p : Page) : Page :=
  setIsLoading true (setPageError None (setShowVoiceRecorder false p)).

(** The user's message of [handleSendVoice]; [now] is the reading of the
    clock and [transcription.duration || 0] the duration. *)
Definition voiceChatMessage (audioBlob : Blob) (audioUrl : positive)
    (t : TranscriptionResponse) (now : nat) : ChatMessage :=
  {| chatRole := user;
     chatContent := text t;
     voiceMessage :=
       Some {| voiceId := AudioFormat.toString now;
               voiceBlob := audioBlob;
               voiceUrl := audioUrl;
               voiceDuration := match responseDuration t with
                                | Some (S d) => S d
                                | _ => 0
                                end;
               transcription := Some (text t);
               voiceTimestamp := now |};
     timestamp := Some now |}.

Definition voiceErrorMessage : string :=
  "Failed to process voice message. Please try again.".

(** The [catch] block of [handleSendVoice]. *)
Definition handleSendVoice_catch (error : Thrown) (p : Page) : Page :=
  setPageError
    (Some match error with
          | ErrorObject _ message => message
          | OtherValue => voiceErrorMessage
          end) p.

(** *** The page as a machine

    A handler that awaits a service call stops there and goes on when the
    call has ended. What it still holds then is the [messages] of the
    render it was created in ([history]) and its own variables. *)
Inductive Pending :=
| AwaitReply (history : list ChatMessage) (userMessage : string)
| AwaitTranscription (history : list ChatMessage) (audioBlob : Blob)
| AwaitVoiceReply (history : list ChatMessage) (userMessage : string).

(** The page, the module variable of the service and the calls awaited. *)
Record Session := {
  page : Page;
  groqClient : option Groq;
  pending : list Pending
}.

Definition initialSession (now : nat) : Session :=
  {| page := initialPage now; groqClient := None; pending := [] |}.

Inductive PageEvent :=
| TypeInput (value : string)           (* [onChange] of the text input *)
| SubmitText (now : nat)               (* Enter in the input, or the Send button *)
| OpenRecorder                         (* the microphone button *)
| RecorderCancel                       (* the recorder calls [onCancel] *)
| RecorderSend (audioBlob : Blob)      (* the recorder calls [onSendVoice] *)
| Settle (k : nat) (now : nat) (audioUrl : positive).
                                       (* the [k]-th awaited call has ended *)

(** The input row is rendered in place of the recorder, and its controls
    are disabled while a reply is loading. *)
Definition inputEnabled (p : Page) : bool :=
  negb (showVoiceRecorder p) && negb (isLoading p).

(** The handler goes on after its [await]: the page, the module variable
    and what the handler awaits next. [now] is the reading of the clock and
    [audioUrl] what [URL.createObjectURL] returns. *)
Definition settle {R : StringRuntime} (cfg : EnvConfig) (api : Api) (now : nat)
    (audioUrl : positive)
    (call : Pending) (p : Page) (client : option Groq)
  : Page * option Groq * list Pending :=
  match call with
  | AwaitReply history userMessage =>
      let '(response, client) := getAIResponse cfg api history userMessage client in
      (handleSendText_settle now response p, client, [])
  | AwaitTranscription history audioBlob =>
      match transcribeAudio cfg api audioBlob client with
      | (Returned t, client) =>
          (setMessages
             (fun prev => (prev ++ [voiceChatMessage audioBlob audioUrl t now])%list) p,
           client, [AwaitVoiceReply history (text t)])
      | (Threw error, client) =>
          (setIsLoading false (handleSendVoice_catch error p), client, [])
      end
  | AwaitVoiceReply history userMessage =>
      let '(response, client) := getAIResponse cfg api history userMessage client in
      let p := match response with
               | Returned response =>
                   setMessages
                     (fun prev => (prev ++ [textMessage assistant response now])%list) p
               | Threw error => handleSendVoice_catch error p
               end in
      (setIsLoading false p, client, [])
  end.

Definition pageStep {R : StringRuntime} (cfg : EnvConfig) (api : Api) (s : Session)
    (e : PageEvent)
  : option Session :=
  match e with
  | TypeInput value =>
      if inputEnabled (page s) then
        Some {| page := setInput value (page s); groqClient := groqClient s;
                pending := pending s |}
      else None
  | SubmitText now =>
      if inputEnabled (page s) then
        match handleSendText_start now (page s) with
        | (p, Some userMessage) =>
            Some {| page := p; groqClient := groqClient s;
                    pending := (pending s
                                ++ [AwaitReply (messages (page s)) userMessage])%list |}
        | (p, None) =>
            Some {| page := p; groqClient := groqClient s; pending := pending s |}
        end
      else None
  | OpenRecorder =>
      if inputEnabled (page s) then
        Some {| page := setShowVoiceRecorder true (page s);
                groqClient := groqClient s; pending := pending s |}
      else None
  | RecorderCancel =>
      if showVoiceRecorder (page s) then
        Some {| page := setShowVoiceRecorder false (page s);
                groqClient := groqClient s; pending := pending s |}
      else None
  | RecorderSend audioBlob =>
      (* the recorder's Send button has [disabled={isLoading}] *)
      if showVoiceRecorder (page s) && negb (isLoading (page s)) then
        Some {| page := handleSendVoice_start (page s); groqClient := groqClient s;
                pending := (pending s
                            ++ [AwaitTranscription (messages (page s)) audioBlob])%list |}
      else None
  | Settle k now audioUrl =>
      call ← pending s !! k;
      let '(p, client, next) :=
        settle cfg api now audioUrl call (page s) (groqClient s) in
      Some {| page := p; groqClient := client;
              pending := (take k (pending s) ++ next ++ drop (S k) (pending s))%list |}
  end.

Fixpoint pageRun {R : StringRuntime} (cfg : EnvConfig) (api : Api) (s : Session)
    (evs : list PageEvent)
  : option Session :=
  match evs with
  | [] => Some s
  | e :: evs => s ← pageStep cfg api s e; pageRun cfg api s evs
  end.

(** What a message says to the model. *)
Definition said (m : ChatMessage) : Message :=
  {| role := chatRole m; content := chatContent m |}.

(** The conversation a waiting handler will send is the one on screen. *)
Definition upToDate (p : Page) (call : Pending) : Prop :=
  match call with
  | AwaitReply history userMessage | AwaitVoiceReply history userMessage =>
      map said (messages p)
      = (map said history ++ [{| role := user; content := userMessage |}])%list
  | AwaitTranscription history _ => messages p = history
  end.

(** At most one call is awaited; the page shows the loading dots exactly
    then, and never together with the recorder. *)
Definition oneAtATime (s : Session) : Prop :=
  match pending s with
  | [] => isLoading (page s) = false
  | [call] =>
      isLoading (page s) = true /\ showVoiceRecorder (page s) = false
      /\ upToDate (page s) call
  | _ => False
  end.

End ChatPage.

Module ChatFacts.
Import JsString Chat.

Lemma append_cons a (s t : string) : String a s ++ t = String a (s ++ t).
Proof. reflexivity. Qed.

Lemma append_nil (t : string) : EmptyString ++ t = t.
Proof. reflexivity. Qed.

Lemma startsWith_spec s w :
  startsWith s w = true <-> exists post, s = w ++ post.
Proof.
  revert s; induction w as [|a w IH]; intros s; simpl.
  - split; [intros _; now exists s | reflexivity].
  - destruct s as [|b s]; simpl.
    + split; [discriminate | intros [post H]; discriminate].
    + destruct (Ascii.eqb_spec a b) as [->|Hne].
      * rewrite IH. split; intros [post H]; exists post.
        -- now rewrite append_cons, H.
        -- rewrite append_cons in H. congruence.
      * split; [discriminate | intros [post H]].
        rewrite append_cons in H. congruence.
Qed.

Lemma includes_spec s w : includes s w = true <-> substring_of w s.
Proof.
  unfold substring_of. induction s as [|c s IH]; simpl.
  - destruct (startsWith EmptyString w) eqn:E.
    + apply startsWith_spec in E as [post E].
      split; [intros _; exists EmptyString, post; exact E | reflexivity].
    + split; [discriminate|]. intros (pre & post & H).
      destruct pre; [rewrite append_nil in H | rewrite append_cons in H].
      * assert (startsWith EmptyString w = true) by (apply startsWith_spec; eauto).
        congruence.
      * discriminate.
  - destruct (startsWith (String c s) w) eqn:E.
    + apply startsWith_spec in E as [post E].
      split; [intros _; exists EmptyString, post; exact E | reflexivity].
    + rewrite IH. split.
      * intros (pre & post & ->). now exists (String c pre), post.
      * intros (pre & post & H).
        destruct pre as [|c' pre]; [rewrite append_nil in H | rewrite append_cons in H].
        -- assert (startsWith (String c s) w = true) by (apply startsWith_spec; eauto).
           congruence.
        -- injection H as _ ->. eauto.
Qed.

Lemma some_includes_spec ws t :
  some (fun word => includes t word) ws = true <-> matches ws t.
Proof.
  unfold some, matches. rewrite existsb_exists.
  split; intros (w & Hin & H); exists w; split; auto; now apply includes_spec.
Qed.


Lemma some_includes_false ws t :
  some (fun word => includes t word) ws = false <-> ~ matches ws t.
Proof.
  rewrite <- some_includes_spec. destruct (some _ ws); split; congruence.
Qed.

(** The mapping of A..Z to a..z is such a runtime. *)
Lemma asciiRuntime_lowersAscii : lowersAscii (R := asciiRuntime).
Proof. intros s _. reflexivity. Qed.

(** On ASCII text the runtime's lower-casing is the mapping of A..Z to
    a..z, so the classifier can be run. *)
Lemma analyzeRisk_ascii {R : StringRuntime} (text : string) :
  lowersAscii -> isAsciiText text = true ->
  analyzeRisk text = analyzeRisk (R := asciiRuntime) text.
Proof. intros L Ha. unfold analyzeRisk. now rewrite (L _ Ha). Qed.

Lemma generateFallbackResponse_ascii {R : StringRuntime} (userMessage : string) :
  lowersAscii -> isAsciiText userMessage = true ->
  generateFallbackResponse userMessage
  = generateFallbackResponse (R := asciiRuntime) userMessage.
Proof.
  intros L Ha. unfold generateFallbackResponse.
  now rewrite (analyzeRisk_ascii _ L Ha), (L _ Ha).
Qed.

(** What the specification gives as examples of the classifier. *)
Example classify_priority {R : StringRuntime} :
  lowersAscii -> analyzeRisk "he hit me and also scared me" = "high".
Proof. intros L. now rewrite (analyzeRisk_ascii _ L). Qed.

Example classify_default {R : StringRuntime} :
  lowersAscii -> analyzeRisk "I had a good day" = "low".
Proof. intros L. now rewrite (analyzeRisk_ascii _ L). Qed.

Example classify_medium {R : StringRuntime} :
  lowersAscii -> analyzeRisk "He isolated me and controls my money" = "medium".
Proof. intros L. now rewrite (analyzeRisk_ascii _ L). Qed.

Example classify_uppercase {R : StringRuntime} :
  lowersAscii -> analyzeRisk "HE HAS A KNIFE" = "high".
Proof. intros L. now rewrite (analyzeRisk_ascii _ L). Qed.

(** The match is on substrings, not on words. *)
Example classify_substring {R : StringRuntime} :
  lowersAscii -> analyzeRisk "We painted the kitchen WHITE" = "high".
Proof. intros L. now rewrite (analyzeRisk_ascii _ L). Qed.

(** C1. Whatever [toLowerCase] the runtime has and whatever the text,
    [analyzeRisk] is a total function of the text: on the text as the
    runtime lower-cases it, it answers high exactly when a high-risk word
    is a substring, medium exactly when no high-risk word but a medium-risk
    word is, and low exactly when neither is. So a text with words of both
    lists is high. On ASCII text, which every runtime lower-cases by
    mapping A..Z to a..z, the answer is the one computed with that mapping:
    a text with HIT in capitals and a medium-risk word is high. *)
Theorem analyzeRisk_classifies {R : StringRuntime} (text : string) :
  let t := toLowerCase text in
  (analyzeRisk text = "high" <-> matches highRiskWords t)
  /\ (analyzeRisk text = "medium"
      <-> ~ matches highRiskWords t /\ matches mediumRiskWords t)
  /\ (analyzeRisk text = "low"
      <-> ~ matches highRiskWords t /\ ~ matches mediumRiskWords t)
  /\ (matches highRiskWords t -> matches mediumRiskWords t ->
      analyzeRisk text = "high")
  /\ In (analyzeRisk text) ["high"; "medium"; "low"]
  /\ (lowersAscii -> isAsciiText text = true ->
      analyzeRisk text = analyzeRisk (R := asciiRuntime) text)
  /\ (lowersAscii -> analyzeRisk "He HIT me and I am scared" = "high").
Proof.
  intros t.
  assert (Hmain :
    (analyzeRisk text = "high" <-> matches highRiskWords t)
    /\ (analyzeRisk text = "medium"
        <-> ~ matches highRiskWords t /\ matches mediumRiskWords t)
    /\ (analyzeRisk text = "low"
        <-> ~ matches highRiskWords t /\ ~ matches mediumRiskWords t)
    /\ (matches highRiskWords t -> matches mediumRiskWords t ->
        analyzeRisk text = "high")
    /\ In (analyzeRisk text) ["high"; "medium"; "low"]).
  { unfold analyzeRisk. fold t.
    destruct (some (fun word => includes t word) highRiskWords) eqn:Eh;
      destruct (some (fun word => includes t word) mediumRiskWords) eqn:Em;
      repeat match goal with
             | H : some _ _ = true |- _ => apply some_includes_spec in H
             | H : some _ _ = false |- _ => apply some_includes_false in H
             end;
      repeat split; intros; simpl; try tauto; try discriminate. }
  destruct Hmain as (H1 & H2 & H3 & H4 & H5).
  split; [exact H1|]. split; [exact H2|]. split; [exact H3|].
  split; [exact H4|]. split; [exact H5|]. split.
  - intros L Ha. now apply analyzeRisk_ascii.
  - intros L. now rewrite (analyzeRisk_ascii _ L).
Qed.

Lemma analyzeRisk_high {R : StringRuntime} text :
  String.eqb (analyzeRisk text) "high"
  = some (fun word => includes (toLowerCase text) word) highRiskWords.
Proof.
  unfold analyzeRisk.
  destruct (some _ highRiskWords); [reflexivity|].
  destruct (some _ mediumRiskWords); reflexivity.
Qed.

Lemma analyzeRisk_medium {R : StringRuntime} text :
  some (fun word => includes (toLowerCase text) word) highRiskWords = false ->
  String.eqb (analyzeRisk text) "medium"
  = some (fun word => includes (toLowerCase text) word) mediumRiskWords.
Proof.
  unfold analyzeRisk. intros ->.
  destruct (some _ mediumRiskWords); reflexivity.
Qed.

(** The chain of [if]s is the rule table read from the top. *)
Lemma generateFallbackResponse_firstMatch {R : StringRuntime} userMessage :
  generateFallbackResponse userMessage
  = firstMatch priorityOrder (toLowerCase userMessage).
Proof.
  unfold generateFallbackResponse. rewrite analyzeRisk_high.
  cbn [firstMatch priorityOrder triggers response].
  destruct (some _ highRiskWords) eqn:Eh; [reflexivity|].
  rewrite (analyzeRisk_medium _ Eh).
  destruct (some _ mediumRiskWords); [reflexivity|].
  cbn [some existsb]. rewrite !orb_false_r, ?orb_assoc. reflexivity.
Qed.

Lemma firstMatch_spec rules t :
  (exists before rule after,
      rules = (before ++ rule :: after)%list
      /\ Forall (fun r => ~ matches (triggers r) t) before
      /\ matches (triggers rule) t
      /\ firstMatch rules t = response rule)
  \/ (Forall (fun r => ~ matches (triggers r) t) rules
      /\ firstMatch rules t = defaultResponse).
Proof.
  induction rules as [|rule rules IH]; simpl.
  - right. split; [constructor | reflexivity].
  - destruct (some (fun word => includes t word) (triggers rule)) eqn:E.
    + left. exists [], rule, rules. apply some_includes_spec in E.
      repeat split; auto.
    + apply some_includes_false in E.
      destruct IH as [(before & r & after & -> & Hb & Hm & Hr) | [Hall Hd]].
      * left. exists (rule :: before), r, after. repeat split; auto.
      * right. split; auto.
Qed.

(** C2. Whatever [toLowerCase] the runtime has and whatever the message,
    [generateFallbackResponse] answers with the message of the first rule,
    in the order high risk, medium risk, help seeking, leaving, self blame,
    children, that has a trigger word in the message as the runtime
    lower-cases it, and with the generic message when no rule has one; the
    answer is always one of the seven canned messages. A text that matches
    the leaving rule and no rule before it gets the leaving message even
    when it matches the children rule too. On ASCII text, which every
    runtime lower-cases by mapping A..Z to a..z, the answer is the one
    computed with that mapping: the example of the specification gets the
    leaving message. *)
Theorem generateFallbackResponse_first_rule_wins {R : StringRuntime}
    (userMessage : string) :
  let t := toLowerCase userMessage in
  ((exists before rule after,
       priorityOrder = (before ++ rule :: after)%list
       /\ Forall (fun r => ~ matches (triggers r) t) before
       /\ matches (triggers rule) t
       /\ generateFallbackResponse userMessage = response rule)
   \/ (Forall (fun r => ~ matches (triggers r) t) priorityOrder
       /\ generateFallbackResponse userMessage = defaultResponse))
  /\ In (generateFallbackResponse userMessage) cannedResponses
  /\ (~ matches highRiskWords t -> ~ matches mediumRiskWords t ->
      ~ matches ["help"; "what do i do"; "what should i"] t ->
      matches ["leave"; "leaving"] t -> matches ["children"; "kids"; "child"] t ->
      generateFallbackResponse userMessage = leavingResponse)
  /\ (lowersAscii -> isAsciiText userMessage = true ->
      generateFallbackResponse userMessage
      = generateFallbackResponse (R := asciiRuntime) userMessage)
  /\ (lowersAscii ->
      generateFallbackResponse "I am LEAVING and taking the children with me"
      = leavingResponse).
Proof.
  intros t.
  assert (Hascii : (lowersAscii -> isAsciiText userMessage = true ->
                    generateFallbackResponse userMessage
                    = generateFallbackResponse (R := asciiRuntime) userMessage)
                   /\ (lowersAscii ->
                       generateFallbackResponse
                         "I am LEAVING and taking the children with me"
                       = leavingResponse)).
  { split; [intros L Ha; now apply generateFallbackResponse_ascii|].
    intros L. now rewrite (generateFallbackResponse_ascii _ L). }
  destruct Hascii as [Ha Hb].
  split; [|split; [|split; [|split; [exact Ha|exact Hb]]]];
    rewrite generateFallbackResponse_firstMatch; fold t.
  - apply firstMatch_spec.
  - cbn [firstMatch priorityOrder triggers response cannedResponses].
    repeat match goal with
           | |- context [if ?b then _ else _] => destruct b
           end; simpl; tauto.
  - intros Hh Hm Hp Hl _.
    apply some_includes_false in Hh, Hm, Hp. apply some_includes_spec in Hl.
    cbn [firstMatch priorityOrder triggers response].
    now rewrite Hh, Hm, Hp, Hl.
Qed.

End ChatFacts.

Module AudioUtilsFacts.
Import AudioUtils.
Local Open Scope list_scope.

Lemma firstSupported_spec rt ts :
  match firstSupported rt ts with
  | Some type =>
      exists before after,
        ts = before ++ type :: after
        /\ Forall (fun t => isTypeSupported rt t = false) before
        /\ isTypeSupported rt type = true
  | None => Forall (fun t => isTypeSupported rt t = false) ts
  end.
Proof.
  induction ts as [|t ts IH]; simpl.
  - constructor.
  - destruct (isTypeSupported rt t) eqn:E.
    + exists [], ts. auto.
    + destruct (firstSupported rt ts) as [type|].
      * destruct IH as (before & after & -> & Hb & Ht).
        exists (t :: before), after. auto.
      * auto.
Qed.

Lemma first_unique {A} (P : A -> Prop) (l1 l2 l1' l2' : list A) x y :
  l1 ++ x :: l2 = l1' ++ y :: l2' ->
  Forall (fun a => ~ P a) l1 -> P x -> Forall (fun a => ~ P a) l1' -> P y ->
  x = y.
Proof.
  revert l1'. induction l1 as [|a l1 IH]; intros [|a' l1'] E H1 Hx H1' Hy;
    simpl in E; injection E as -> E.
  - reflexivity.
  - apply Forall_cons in H1' as [Hn _]. contradiction.
  - apply Forall_cons in H1 as [Hn _]. contradiction.
  - apply Forall_cons in H1 as [_ H1]. apply Forall_cons in H1' as [_ H1'].
    eapply IH; eauto.
Qed.

(** C9. Whatever [MediaRecorder.isTypeSupported] answers, the negotiated
    type is the first entry of the preference list the runtime supports,
    and [audio/webm] when it supports none of them: the function never
    fails. *)
Theorem getSupportedMimeType_negotiates (rt : Runtime) :
  (forall before type after,
      types = before ++ type :: after ->
      Forall (fun t => isTypeSupported rt t = false) before ->
      isTypeSupported rt type = true ->
      getSupportedMimeType rt = type)
  /\ (Forall (fun t => isTypeSupported rt t = false) types ->
      getSupportedMimeType rt = "audio/webm")
  /\ (getSupportedMimeType rt = "audio/webm"
      \/ (In (getSupportedMimeType rt) types
          /\ isTypeSupported rt (getSupportedMimeType rt) = true)).
Proof.
  unfold getSupportedMimeType.
  pose proof (firstSupported_spec rt types) as H.
  destruct (firstSupported rt types) as [found|].
  - destruct H as (b & a & E & Hb & Hf). repeat split.
    + intros before type after E' Hb' Ht. rewrite E in E'.
      eapply (first_unique (fun t => isTypeSupported rt t = true)); eauto.
      * eapply Forall_impl; [exact Hb|]. simpl. intros x ->. discriminate.
      * eapply Forall_impl; [exact Hb'|]. simpl. intros x ->. discriminate.
    + intros Hall. rewrite E in Hall. apply Forall_app in Hall as [_ Hall].
      apply Forall_cons in Hall as [Hx _]. congruence.
    + right. split; [|exact Hf]. rewrite E. apply in_or_app. right. now left.
  - repeat split.
    + intros before type after E' _ Ht. rewrite E' in H.
      apply Forall_app in H as [_ H]. apply Forall_cons in H as [Hx _]. congruence.
    + now left.
Qed.

End AudioUtilsFacts.

Module VoiceRecorderFacts.
Import AudioUtils VoiceRecorder.
Local Open Scope list_scope.

Local Arguments isAudioRecordingSupported : simpl never.
Local Arguments getSupportedMimeType : simpl never.

Lemma delivered_app evs1 evs2 :
  delivered (evs1 ++ evs2) = delivered evs1 ++ delivered evs2.
Proof. unfold delivered. now rewrite flat_map_app. Qed.

Lemma filter_snoc (d : Blob) fs :
  filter nonEmpty (fs ++ [d])
  = filter nonEmpty fs ++ (if nonEmpty d then [d] else []).
Proof.
  rewrite filter_app. f_equal. unfold filter; simpl.
  destruct (decide (nonEmpty d)) as [H|H]; destruct (nonEmpty d); simpl in *; try done.
Qed.

Lemma stopRecording_closure_false s : stopRecording_closure false s = Some s.
Proof. unfold stopRecording_closure. now destruct (mediaRecorderRef (refs s)). Qed.

(** What the cleanup releases: the tracks of the stream in [streamRef] and
    the timer in [timerRef]. *)
Lemma cleanup_eq s :
  cleanup s
  = Some (let s1 := match streamRef (refs s) with
                    | Some st => stopTracks st s
                    | None => s
                    end in
          match timerRef (refs s) with
          | Some t => clearInterval t s1
          | None => s1
          end).
Proof.
  unfold cleanup. simpl. rewrite stopRecording_closure_false. simpl.
  now destruct (streamRef (refs s)).
Qed.

Lemma unmount_closed s s' : unmount s = Some s' -> mounted s' = false.
Proof.
  unfold unmount. rewrite cleanup_eq. simpl. intros [= <-].
  now destruct (streamRef (refs s)), (timerRef (refs s)).
Qed.

Lemma cancel_closed s s' : cancel s = Some s' -> mounted s' = false.
Proof.
  unfold cancel. destruct (handleCancel s) as [s1|]; simpl; [|discriminate].
  apply unmount_closed.
Qed.

Lemma user_step_mounted rt s e s' :
  step rt s e = Some s' -> byUser e = true -> mounted s = true.
Proof.
  unfold step, panel. destruct e; try discriminate;
    destruct (mounted s); try reflexivity; discriminate.
Qed.

Lemma with_ui_unmounted f s : mounted s = false -> with_ui f s = s.
Proof. unfold with_ui. now intros ->. Qed.

Lemma with_ui_mounted f s : mounted (with_ui f s) = mounted s.
Proof. unfold with_ui. now destruct (mounted s) eqn:E. Qed.

Lemma sessionStep_step rt s e s' :
  sessionStep rt s e = Some s' -> step rt s e = Some s'.
Proof.
  unfold sessionStep. destruct e; auto. destruct (quiet s); [auto | discriminate].
Qed.

Lemma quiet_idle err p n : quiet (idleState err p n) = bool_decide (p = 0).
Proof.
  unfold quiet; simpl. rewrite (bool_decide_eq_true_2 (map_Forall _ _)).
  - apply andb_true_r.
  - apply map_Forall_empty.
Qed.

Lemma quiet_leaking err p streams st n :
  quiet (leakingState err p streams st n) = bool_decide (p = 0).
Proof.
  unfold quiet; simpl. rewrite (bool_decide_eq_true_2 (map_Forall _ _)).
  - apply andb_true_r.
  - apply map_Forall_empty.
Qed.

(** *** The handlers on the shapes of a session *)

Ltac reduce :=
  cbv [startTimer stopTimer timerCallback setInterval clearInterval allocate
       createObjectURL revokeObjectURL openStream stopTracks newMediaRecorder
       setRecState ondataavailable onstop startRecording startRecording_catch
       playAudio handleSend audioRef_attached view panel call set_mounted
       setIsRecording setIsPaused setDuration setAudioUrl setAudioBlob setError
       setIsPlaying set_mediaRecorderRef set_audioChunksRef set_streamRef
       set_timerRef set_pendingRequests set_liveStreams set_recorders
       set_intervals set_objectUrls set_nextId with_ui with_refs with_browser
       idleState recordingState pausedState stoppingState readyState leakingState
       uiOf domException
       ui refs browser hostCalls mounted
       isRecording isPaused duration audioUrl audioBlob error isPlaying
       mediaRecorderRef audioChunksRef streamRef timerRef
       pendingRequests liveStreams recorders intervals objectUrls nextId
       recState stopQueued mimeType recStream recorderOf
       negb andb orb fst snd mbind option_bind truthy] in *.

Ltac records :=
  repeat lazymatch goal with
         | |- @eq ?T _ _ =>
             lazymatch T with
             | option State => f_equal
             | State => f_equal
             | Browser => f_equal
             | Refs => f_equal
             | Component => f_equal
             end
         end.

Ltac same_state :=
  reduce; records; try reflexivity;
  lazymatch goal with
  | |- @eq (gmap _ _) _ _ => rewrite ?insert_empty, ?alter_singleton_eq; reflexivity
  | |- @eq (gset _) _ _ => set_solver
  | |- _ => idtac
  end.

Lemma granted_idle rt err n :
  recordsNegotiatedType rt = true ->
  startRecording_granted rt (set_pendingRequests 0 (idleState err 1 n))
  = recordingState rt [] 0 err (Pos.succ n) n (Pos.succ (Pos.succ n))
      (Pos.succ (Pos.succ (Pos.succ n))).
Proof.
  unfold recordsNegotiatedType. intros Hsup.
  unfold startRecording_granted, MediaRecorder_start. reduce. rewrite Hsup.
  rewrite lookup_insert_eq. reduce. same_state.
Qed.

(** Where the browser records none of the listed types, the granted stream
    stays live and [streamRef] holds it. *)
Lemma granted_idle_leaks rt err n :
  recordsNegotiatedType rt = false ->
  startRecording_granted rt (set_pendingRequests 0 (idleState err 1 n))
  = leakingState (Some (exceptionMessage rt "NotSupportedError")) 0 {[n]} n
      (Pos.succ n).
Proof.
  unfold recordsNegotiatedType. intros Hsup.
  unfold startRecording_granted, domException. reduce. rewrite Hsup.
  unfold leakingState. reduce. records; try reflexivity. set_solver.
Qed.

Lemma granted_leaking rt err streams st n :
  recordsNegotiatedType rt = false ->
  startRecording_granted rt (set_pendingRequests 0 (leakingState err 1 streams st n))
  = leakingState (Some (exceptionMessage rt "NotSupportedError")) 0
      (streams ∪ {[n]}) n (Pos.succ n).
Proof.
  unfold recordsNegotiatedType. intros Hsup.
  unfold startRecording_granted, domException, leakingState. reduce. rewrite Hsup.
  reflexivity.
Qed.

Lemma tick_recording rt fs d err r st t n :
  Nat.iter (size (intervals (browser (recordingState rt fs d err r st t n))))
    timerCallback (recordingState rt fs d err r st t n)
  = recordingState rt fs (d + 1) err r st t n.
Proof. reduce. rewrite size_singleton. reflexivity. Qed.

Lemma pause_recording rt fs d err r st t n :
  pauseRecording (recordingState rt fs d err r st t n)
  = Some (pausedState rt fs d err r st n).
Proof.
  unfold pauseRecording, MediaRecorder_pause. reduce.
  rewrite lookup_singleton_eq. reduce. same_state.
Qed.

Lemma resume_paused rt fs d err r st n :
  pauseRecording (pausedState rt fs d err r st n)
  = Some (recordingState rt fs d err r st n (Pos.succ n)).
Proof.
  unfold pauseRecording, MediaRecorder_resume. reduce.
  rewrite lookup_singleton_eq. reduce. same_state.
Qed.

Lemma stop_recording rt fs d err r st t n :
  stopRecording (recordingState rt fs d err r st t n)
  = Some (stoppingState rt fs d err r st n).
Proof.
  unfold stopRecording, stopRecording_closure, MediaRecorder_stop. reduce.
  rewrite lookup_singleton_eq. reduce. same_state.
Qed.

Lemma stop_paused rt fs d err r st n :
  stopRecording (pausedState rt fs d err r st n)
  = Some (stoppingState rt fs d err r st n).
Proof.
  unfold stopRecording, stopRecording_closure, MediaRecorder_stop. reduce.
  rewrite lookup_singleton_eq. reduce. same_state.
Qed.

Lemma stopEvent_stopping rt fs d err r st n :
  onstop (getSupportedMimeType rt)
    (setRecState r inactive false (stoppingState rt fs d err r st n))
  = readyState rt fs d err false r st n (Pos.succ n).
Proof. same_state. Qed.

Lemma data_recording rt fs d err r st t n data :
  ondataavailable data (recordingState rt fs d err r st t n)
  = recordingState rt (fs ++ [data]) d err r st t n.
Proof.
  reduce. rewrite filter_snoc. unfold nonEmpty.
  destruct (0 <? blobSize data)%nat; rewrite ?app_nil_r; reflexivity.
Qed.

Lemma data_paused rt fs d err r st n data :
  ondataavailable data (pausedState rt fs d err r st n)
  = pausedState rt (fs ++ [data]) d err r st n.
Proof.
  reduce. rewrite filter_snoc. unfold nonEmpty.
  destruct (0 <? blobSize data)%nat; rewrite ?app_nil_r; reflexivity.
Qed.

Lemma data_stopping rt fs d err r st n data :
  ondataavailable data (stoppingState rt fs d err r st n)
  = stoppingState rt (fs ++ [data]) d err r st n.
Proof.
  reduce. rewrite filter_snoc. unfold nonEmpty.
  destruct (0 <? blobSize data)%nat; rewrite ?app_nil_r; reflexivity.
Qed.

Lemma step_cancel_closed rt s s' :
  sessionStep rt s ClickCancel = Some s' -> mounted s' = false.
Proof.
  unfold sessionStep, step.
  destruct (mounted s); [apply cancel_closed | discriminate].
Qed.

Lemma step_unmount_closed rt s s' :
  sessionStep rt s Unmount = Some s' -> mounted s' = false.
Proof.
  unfold sessionStep, step.
  destruct (mounted s); [apply unmount_closed | discriminate].
Qed.

Ltac closes :=
  apply Shape_closed; eauto using step_cancel_closed, step_unmount_closed.

Lemma quiet_stopping rt fs d err r st n :
  quiet (stoppingState rt fs d err r st n) = false.
Proof.
  unfold quiet. reduce. rewrite (bool_decide_eq_false_2 (map_Forall _ _)).
  - apply andb_false_r.
  - rewrite map_Forall_singleton. discriminate.
Qed.

Lemma step_send_closed rt s s' :
  sessionStep rt s ClickSend = Some s' -> audioBlob (ui s) <> None ->
  mounted s' = false.
Proof.
  unfold sessionStep, step, send, panel.
  destruct (mounted s); [|discriminate].
  destruct (view s); try discriminate.
  destruct (audioBlob (ui s)); [|congruence].
  intros H _. eapply unmount_closed, H.
Qed.

(** The event is not enabled in this shape. *)
Ltac disabled H :=
  unfold sessionStep, step, quiet in H; reduce;
  rewrite ?lookup_empty in H;
  first [discriminate H | case_match; discriminate H].

Ltac enabled H := unfold sessionStep, step in H; reduce.

Lemma lookup_recorder (r r' : positive) (m : MediaRecorder) (k : MediaRecorder -> option State) s' :
  ({[r := m]} : gmap positive MediaRecorder) !! r' ≫= k = Some s' ->
  r' = r /\ k m = Some s'.
Proof.
  destruct (decide (r' = r)) as [->|Hne].
  - rewrite lookup_singleton_eq. auto.
  - rewrite lookup_singleton_ne by congruence. discriminate.
Qed.

Lemma ticks_unmounted n s :
  mounted s = false -> Nat.iter n timerCallback s = s.
Proof.
  intros Hm. induction n as [|n IH]; [reflexivity|].
  change (Nat.iter (S n) timerCallback s)
    with (timerCallback (Nat.iter n timerCallback s)).
  rewrite IH. unfold timerCallback, setDuration. now apply with_ui_unmounted.
Qed.

(** Once unmounted the component stays unmounted, and its state cells keep
    their values whatever the browser still calls. *)
Lemma step_closed rt s e s' :
  mounted s = false -> step rt s e = Some s' ->
  mounted s' = false /\ ui s' = ui s.
Proof.
  intros Hm Hstep. destruct e;
    try (pose proof (user_step_mounted _ _ _ _ Hstep eq_refl); congruence).
  - (* granted *)
    destruct s as [c r [p ls rs iv us nx] hc m]. cbn in Hm. subst m.
    unfold step, startRecording_granted, MediaRecorder_start in Hstep. reduce.
    destruct p; [discriminate|]. reduce.
    destruct (isTypeSupported rt (getSupportedMimeType rt)).
    + rewrite lookup_insert_eq in Hstep. reduce.
      injection Hstep as <-. split; reflexivity.
    + injection Hstep as <-. split; reflexivity.
  - (* rejected *)
    destruct s as [c r [p ls rs iv us nx] hc m]. cbn in Hm. subst m.
    unfold step in Hstep. reduce.
    destruct p; [discriminate|].
    injection Hstep as <-. split; reflexivity.
  - (* tick *)
    unfold step in Hstep. injection Hstep as <-.
    rewrite ticks_unmounted by exact Hm. auto.
  - (* data *)
    destruct s as [c r0 [p ls rs iv us nx] hc m]. cbn in Hm. subst m.
    unfold step in Hstep. reduce.
    destruct (rs !! r); [|discriminate]. reduce.
    destruct (busy _); [|discriminate].
    destruct (0 <? blobSize data)%nat; injection Hstep as <-; split; reflexivity.
  - (* stop event *)
    destruct s as [c [mr ch sr tr] [p ls rs iv us nx] hc m]. cbn in Hm. subst m.
    unfold step in Hstep. reduce.
    destruct (rs !! r) as [x|]; [|discriminate]. reduce.
    destruct x as [? [] ? ?]; [|discriminate]. reduce.
    destruct sr; injection Hstep as <-; split; reflexivity.
Qed.

Lemma shape_step rt fs s e s' :
  Shape rt fs s -> sessionStep rt s e = Some s' ->
  Shape rt (fs ++ delivered [e]) s'.
Proof.
  intros HS Hstep.
  destruct HS.
  - (* idle *)
    subst fs.
    destruct e; try (closes; fail); simpl delivered; simpl app; try (disabled Hstep; fail).
    + (* ClickStart *)
      unfold sessionStep in Hstep. rewrite quiet_idle in Hstep.
      case_bool_decide; [subst p | discriminate].
      unfold step in Hstep. reduce.
      destruct (isAudioRecordingSupported rt); injection Hstep as <-.
      * apply (Shape_idle rt [] None 1 n); auto.
      * apply (Shape_idle rt [] (Some unsupportedMessage) 0 n); auto.
    + (* granted *)
      unfold sessionStep, step in Hstep.
      destruct p as [|[|p]]; [discriminate| |lia].
      change (Some (startRecording_granted rt
                      (set_pendingRequests 0 (idleState err 1 n)))
              = Some s') in Hstep.
      injection Hstep as <-.
      destruct (recordsNegotiatedType rt) eqn:Hsup.
      * rewrite granted_idle by exact Hsup. constructor.
      * rewrite granted_idle_leaks by exact Hsup. apply Shape_leaking; auto.
    + (* rejected *)
      enabled Hstep.
      destruct p as [|[|p]]; [discriminate| |lia].
      injection Hstep as <-.
      apply (Shape_idle rt [] _ 0 n); auto.
    + (* tick *)
      enabled Hstep. rewrite size_empty in Hstep.
      injection Hstep as <-. apply (Shape_idle rt [] err p n); auto.
  - (* recording *)
    destruct e; try (closes; fail); simpl delivered; rewrite ?app_nil_r;
      try (disabled Hstep; fail).
    + (* tick *)
      unfold sessionStep, step in Hstep. rewrite tick_recording in Hstep.
      injection Hstep as <-. constructor.
    + (* pause *)
      unfold sessionStep, step in Hstep.
      change (panel (recordingState rt fs d err r st t n)) with (Some RecordingView) in Hstep.
      cbv beta iota in Hstep. rewrite pause_recording in Hstep.
      injection Hstep as <-. constructor.
    + (* stop *)
      unfold sessionStep, step in Hstep.
      change (panel (recordingState rt fs d err r st t n)) with (Some RecordingView) in Hstep.
      cbv beta iota in Hstep. rewrite stop_recording in Hstep.
      injection Hstep as <-. constructor.
    + (* data *)
      unfold sessionStep, step in Hstep.
      apply lookup_recorder in Hstep as [-> Hstep].
      cbv [busy recorderOf recState] in Hstep.
      rewrite data_recording in Hstep. injection Hstep as <-. constructor.
    + (* stop event *)
      unfold sessionStep, step in Hstep.
      apply lookup_recorder in Hstep as [-> Hstep]. discriminate.
  - (* paused *)
    destruct e; try (closes; fail); simpl delivered; rewrite ?app_nil_r;
      try (disabled Hstep; fail).
    + (* tick *)
      enabled Hstep. rewrite size_empty in Hstep. injection Hstep as <-.
      apply (Shape_paused rt fs d err r st n).
    + (* resume *)
      unfold sessionStep, step in Hstep.
      change (panel (pausedState rt fs d err r st n)) with (Some RecordingView) in Hstep.
      cbv beta iota in Hstep. rewrite resume_paused in Hstep.
      injection Hstep as <-. constructor.
    + (* stop *)
      unfold sessionStep, step in Hstep.
      change (panel (pausedState rt fs d err r st n)) with (Some RecordingView) in Hstep.
      cbv beta iota in Hstep. rewrite stop_paused in Hstep.
      injection Hstep as <-. constructor.
    + (* data *)
      unfold sessionStep, step in Hstep.
      apply lookup_recorder in Hstep as [-> Hstep].
      cbv [busy recorderOf recState] in Hstep.
      rewrite data_paused in Hstep. injection Hstep as <-. constructor.
    + (* stop event *)
      unfold sessionStep, step in Hstep.
      apply lookup_recorder in Hstep as [-> Hstep]. discriminate.
  - (* stopping *)
    destruct e; try (closes; fail); simpl delivered; rewrite ?app_nil_r;
      try (disabled Hstep; fail).
    + (* start: the browser is not quiet *)
      unfold sessionStep in Hstep. rewrite quiet_stopping in Hstep. discriminate.
    + (* tick *)
      enabled Hstep. rewrite size_empty in Hstep. injection Hstep as <-.
      apply (Shape_stopping rt fs d err r st n).
    + (* data *)
      unfold sessionStep, step in Hstep.
      apply lookup_recorder in Hstep as [-> Hstep].
      cbv [busy recorderOf recState stopQueued] in Hstep.
      rewrite data_stopping in Hstep. injection Hstep as <-. constructor.
    + (* stop event *)
      unfold sessionStep, step in Hstep.
      apply lookup_recorder in Hstep as [-> Hstep].
      cbv [recorderOf stopQueued mimeType] in Hstep.
      rewrite stopEvent_stopping in Hstep. injection Hstep as <-. constructor.
  - (* ready *)
    destruct e; try (closes; fail); simpl delivered; rewrite ?app_nil_r;
      try (disabled Hstep; fail).
    + (* tick *)
      enabled Hstep. rewrite size_empty in Hstep. injection Hstep as <-.
      apply (Shape_ready rt fs d err play r st u n).
    + (* data *)
      unfold sessionStep, step in Hstep.
      apply lookup_recorder in Hstep as [-> Hstep]. discriminate.
    + (* stop event *)
      unfold sessionStep, step in Hstep.
      apply lookup_recorder in Hstep as [-> Hstep]. discriminate.
    + (* play *)
      enabled Hstep. injection Hstep as <-.
      destruct play.
      * apply (Shape_ready rt fs d err false r st u n).
      * apply (Shape_ready rt fs d err true r st u n).
    + (* ended *)
      enabled Hstep. injection Hstep as <-.
      apply (Shape_ready rt fs d err false r st u n).
    + (* send *)
      apply Shape_closed. eapply step_send_closed; [exact Hstep | discriminate].
  - (* closed *)
    apply Shape_closed. eapply step_closed; [eassumption|].
    eapply sessionStep_step, Hstep.
  - (* leaking *)
    subst fs.
    destruct e; try (closes; fail); simpl delivered; simpl app;
      try (disabled Hstep; fail).
    + (* ClickStart *)
      unfold sessionStep in Hstep. rewrite quiet_leaking in Hstep.
      case_bool_decide; [subst p | discriminate].
      unfold step in Hstep. reduce.
      destruct (isAudioRecordingSupported rt); injection Hstep as <-.
      * apply (Shape_leaking rt [] None 1 streams st n); auto.
      * apply (Shape_leaking rt [] (Some unsupportedMessage) 0 streams st n); auto.
    + (* granted *)
      unfold sessionStep, step in Hstep.
      destruct p as [|[|p]]; [discriminate| |lia].
      change (Some (startRecording_granted rt
                      (set_pendingRequests 0 (leakingState err 1 streams st n)))
              = Some s') in Hstep.
      injection Hstep as <-.
      rewrite granted_leaking by assumption. apply Shape_leaking; auto.
    + (* rejected *)
      enabled Hstep.
      destruct p as [|[|p]]; [discriminate| |lia].
      injection Hstep as <-.
      apply (Shape_leaking rt [] _ 0 streams st n); auto.
    + (* tick *)
      enabled Hstep. rewrite size_empty in Hstep.
      injection Hstep as <-. apply (Shape_leaking rt [] err p streams st n); auto.
Qed.

Lemma session_shape rt evs : forall fs s s',
  Shape rt fs s -> session rt s evs = Some s' ->
  Shape rt (fs ++ delivered evs) s'.
Proof.
  induction evs as [|e evs IH]; intros fs s s' HS Hrun; simpl in Hrun.
  - injection Hrun as <-. now rewrite app_nil_r.
  - destruct (sessionStep rt s e) as [s1|] eqn:E; [|discriminate].
    change (e :: evs) with ([e] ++ evs). rewrite delivered_app, app_assoc.
    eapply IH; [|exact Hrun]. eapply shape_step; eauto.
Qed.

Lemma shape_initial rt : Shape rt [] initial.
Proof. apply (Shape_idle rt [] None 0 1); auto. Qed.

(** Every state of a session has one of the six shapes. *)
Lemma session_invariant rt evs s :
  session rt initial evs = Some s -> Shape rt (delivered evs) s.
Proof.
  intros H. apply (session_shape rt evs [] initial s (shape_initial rt) H).
Qed.


(** *** The steps of a session, shape by shape *)

Lemma step_start_idle rt err n :
  sessionStep rt (idleState err 0 n) ClickStart
  = Some (if isAudioRecordingSupported rt then idleState None 1 n
          else idleState (Some unsupportedMessage) 0 n).
Proof.
  unfold sessionStep. rewrite quiet_idle. unfold step. reduce.
  now destruct (isAudioRecordingSupported rt).
Qed.

Lemma step_rejected_idle rt err n e :
  sessionStep rt (idleState err 1 n) (UserMediaRejected e)
  = Some (idleState
            (Some match requestMicrophonePermission_catch e with
                  | ErrorObject _ message => message
                  | OtherValue => "Failed to start recording"%string
                  end) 0 n).
Proof. reflexivity. Qed.

Lemma step_granted_idle rt err n :
  recordsNegotiatedType rt = true ->
  sessionStep rt (idleState err 1 n) UserMediaGranted
  = Some (recordingState rt [] 0 err (Pos.succ n) n (Pos.succ (Pos.succ n))
            (Pos.succ (Pos.succ (Pos.succ n)))).
Proof.
  intros Hsup. unfold sessionStep, step.
  change (Some (startRecording_granted rt (set_pendingRequests 0 (idleState err 1 n)))
          = Some (recordingState rt [] 0 err (Pos.succ n) n (Pos.succ (Pos.succ n))
                    (Pos.succ (Pos.succ (Pos.succ n))))).
  now rewrite granted_idle.
Qed.

Lemma step_tick_recording rt fs d err r st t n :
  sessionStep rt (recordingState rt fs d err r st t n) Tick
  = Some (recordingState rt fs (d + 1) err r st t n).
Proof.
  unfold sessionStep, step. now rewrite tick_recording.
Qed.

Lemma step_tick_paused rt fs d err r st n :
  sessionStep rt (pausedState rt fs d err r st n) Tick
  = Some (pausedState rt fs d err r st n).
Proof. unfold sessionStep, step. reduce. now rewrite size_empty. Qed.

Lemma step_pause_recording rt fs d err r st t n :
  sessionStep rt (recordingState rt fs d err r st t n) ClickPause
  = Some (pausedState rt fs d err r st n).
Proof. apply pause_recording. Qed.

Lemma step_resume_paused rt fs d err r st n :
  sessionStep rt (pausedState rt fs d err r st n) ClickPause
  = Some (recordingState rt fs d err r st n (Pos.succ n)).
Proof. apply resume_paused. Qed.

Lemma step_stop_recording rt fs d err r st t n :
  sessionStep rt (recordingState rt fs d err r st t n) ClickStop
  = Some (stoppingState rt fs d err r st n).
Proof. apply stop_recording. Qed.

Lemma step_stop_paused rt fs d err r st n :
  sessionStep rt (pausedState rt fs d err r st n) ClickStop
  = Some (stoppingState rt fs d err r st n).
Proof. apply stop_paused. Qed.

Lemma step_data_stopping rt fs d err r st n data :
  sessionStep rt (stoppingState rt fs d err r st n) (DataAvailable r data)
  = Some (stoppingState rt (fs ++ [data]) d err r st n).
Proof.
  unfold sessionStep, step.
  change (recorders (browser (stoppingState rt fs d err r st n)))
    with ({[r := recorderOf rt inactive true st]} : gmap positive MediaRecorder).
  rewrite lookup_singleton_eq.
  cbv [mbind option_bind busy recorderOf recState stopQueued].
  now rewrite data_stopping.
Qed.

Lemma step_stopEvent_stopping rt fs d err r st n :
  sessionStep rt (stoppingState rt fs d err r st n) (StopEvent r)
  = Some (readyState rt fs d err false r st n (Pos.succ n)).
Proof.
  unfold sessionStep, step.
  change (recorders (browser (stoppingState rt fs d err r st n)))
    with ({[r := recorderOf rt inactive true st]} : gmap positive MediaRecorder).
  rewrite lookup_singleton_eq.
  cbv [mbind option_bind busy recorderOf recState stopQueued mimeType].
  now rewrite stopEvent_stopping.
Qed.

Lemma session_app rt evs1 : forall s evs2,
  session rt s (evs1 ++ evs2) = session rt s evs1 ≫= fun s1 => session rt s1 evs2.
Proof.
  induction evs1 as [|e evs1 IH]; intros s evs2; simpl; [reflexivity|].
  destruct (sessionStep rt s e); simpl; auto.
Qed.

Lemma session_run rt evs : forall s s',
  session rt s evs = Some s' -> run rt s evs = Some s'.
Proof.
  induction evs as [|e evs IH]; intros s s'; simpl; [auto|].
  destruct (sessionStep rt s e) as [s1|] eqn:E; simpl; [|discriminate].
  rewrite (sessionStep_step _ _ _ _ E). simpl. apply IH.
Qed.

(** The browser delivers the fragments [final] after [stop()]. *)
Lemma deliver_stopping rt d err r st n final : forall fs,
  session rt (stoppingState rt fs d err r st n) (map (DataAvailable r) final)
  = Some (stoppingState rt (fs ++ final) d err r st n).
Proof.
  induction final as [|data final IH]; intros fs.
  - now rewrite app_nil_r.
  - cbn [map session]. rewrite step_data_stopping. cbn [mbind option_bind].
    rewrite IH. now rewrite <- app_assoc.
Qed.


(** *** What a step can change, in any state *)

Lemma sameTake_refl s : sameTake s s.
Proof. split; reflexivity. Qed.

Lemma sameTake_trans s1 s2 s3 : sameTake s1 s2 -> sameTake s2 s3 -> sameTake s1 s3.
Proof. intros [H1 H2] [H3 H4]. split; congruence. Qed.

Lemma sameTake_ui s s' : ui s' = ui s -> sameTake s s'.
Proof. intros E. split; now rewrite E. Qed.

Lemma MediaRecorder_start_ui r s s' : MediaRecorder_start r s = Some s' -> ui s' = ui s.
Proof.
  unfold MediaRecorder_start. destruct (recorders (browser s) !! r) as [m|]; [|discriminate].
  cbn [mbind option_bind]. destruct (recState m); intros [= <-]; reflexivity.
Qed.

Lemma MediaRecorder_stop_ui r s s' : MediaRecorder_stop r s = Some s' -> ui s' = ui s.
Proof.
  unfold MediaRecorder_stop. destruct (recorders (browser s) !! r) as [m|]; [|discriminate].
  cbn [mbind option_bind]. destruct (recState m); intros [= <-]; reflexivity.
Qed.

Lemma MediaRecorder_pause_ui r s s' : MediaRecorder_pause r s = Some s' -> ui s' = ui s.
Proof.
  unfold MediaRecorder_pause. destruct (recorders (browser s) !! r) as [m|]; [|discriminate].
  cbn [mbind option_bind]. destruct (recState m); intros [= <-]; reflexivity.
Qed.

Lemma MediaRecorder_resume_ui r s s' : MediaRecorder_resume r s = Some s' -> ui s' = ui s.
Proof.
  unfold MediaRecorder_resume. destruct (recorders (browser s) !! r) as [m|]; [|discriminate].
  cbn [mbind option_bind]. destruct (recState m); intros [= <-]; reflexivity.
Qed.

Lemma stopTimer_ui s : ui (stopTimer s) = ui s.
Proof. unfold stopTimer. now destruct (timerRef (refs s)). Qed.

Lemma with_ui_take f s :
  (forall c, duration (f c) = duration c /\ audioBlob (f c) = audioBlob c) ->
  sameTake s (with_ui f s).
Proof.
  intros Hf. unfold with_ui. destruct (mounted s); [|apply sameTake_refl].
  split; apply Hf.
Qed.

Lemma setIsRecording_take v s : sameTake s (setIsRecording v s).
Proof. apply with_ui_take. now split. Qed.

Lemma setIsPaused_take v s : sameTake s (setIsPaused v s).
Proof. apply with_ui_take. now split. Qed.

Lemma setError_take v s : sameTake s (setError v s).
Proof. apply with_ui_take. now split. Qed.

Lemma setIsPlaying_take v s : sameTake s (setIsPlaying v s).
Proof. apply with_ui_take. now split. Qed.

Lemma stopRecording_closure_take b s s' :
  stopRecording_closure b s = Some s' -> sameTake s s'.
Proof.
  unfold stopRecording_closure.
  destruct (mediaRecorderRef (refs s)) as [r|]; [|intros [= <-]; apply sameTake_refl].
  destruct b; [|intros [= <-]; apply sameTake_refl].
  destruct (MediaRecorder_stop r s) as [s1|] eqn:E; [|discriminate].
  cbn [mbind option_bind]. intros [= <-]. apply MediaRecorder_stop_ui in E.
  eapply sameTake_trans; [apply sameTake_ui, E|].
  eapply sameTake_trans; [apply setIsRecording_take|].
  eapply sameTake_trans; [apply setIsPaused_take|].
  apply sameTake_ui, stopTimer_ui.
Qed.

Lemma pauseRecording_take s s' : pauseRecording s = Some s' -> sameTake s s'.
Proof.
  unfold pauseRecording.
  destruct (mediaRecorderRef (refs s)) as [r|]; [|intros [= <-]; apply sameTake_refl].
  destruct (isRecording (ui s)); [|intros [= <-]; apply sameTake_refl].
  destruct (isPaused (ui s)).
  - destruct (MediaRecorder_resume r s) as [s1|] eqn:E; [|discriminate].
    cbn [mbind option_bind]. intros [= <-]. apply MediaRecorder_resume_ui in E.
    eapply sameTake_trans; [apply sameTake_ui, E|].
    eapply sameTake_trans; [|apply setIsPaused_take].
    apply sameTake_ui. reflexivity.
  - destruct (MediaRecorder_pause r s) as [s1|] eqn:E; [|discriminate].
    cbn [mbind option_bind]. intros [= <-]. apply MediaRecorder_pause_ui in E.
    eapply sameTake_trans; [apply sameTake_ui, E|].
    eapply sameTake_trans; [|apply setIsPaused_take].
    apply sameTake_ui, stopTimer_ui.
Qed.

Lemma startRecording_take rt s : sameTake s (startRecording rt s).
Proof.
  unfold startRecording. destruct (negb (isAudioRecordingSupported rt)).
  - apply setError_take.
  - eapply sameTake_trans; [apply setError_take|]. apply sameTake_ui. reflexivity.
Qed.

Lemma startRecording_granted_take rt s : sameTake s (startRecording_granted rt s).
Proof.
  unfold startRecording_granted, newMediaRecorder, startRecording_catch.
  cbn [openStream allocate].
  destruct (isTypeSupported rt (getSupportedMimeType rt)).
  - match goal with
    | |- context [MediaRecorder_start ?r ?x] =>
        destruct (MediaRecorder_start r x) as [s1|] eqn:E
    end.
    + apply MediaRecorder_start_ui in E.
      eapply sameTake_trans; [apply sameTake_ui, E|].
      eapply sameTake_trans; [apply setIsRecording_take|].
      apply sameTake_ui. reflexivity.
    + eapply sameTake_trans; [|apply setError_take]. apply sameTake_ui. reflexivity.
  - eapply sameTake_trans; [|apply setError_take]. apply sameTake_ui. reflexivity.
Qed.

Lemma cleanup_ui s s' : cleanup s = Some s' -> ui s' = ui s.
Proof.
  rewrite cleanup_eq. intros [= <-]. cbn.
  now destruct (streamRef (refs s)), (timerRef (refs s)).
Qed.

Lemma unmount_take s s' : unmount s = Some s' -> sameTake s s'.
Proof.
  unfold unmount. destruct (cleanup s) as [s1|] eqn:E; [|discriminate].
  cbn [mbind option_bind]. intros [= <-]. apply cleanup_ui in E.
  apply sameTake_ui. cbn. exact E.
Qed.

Lemma handleSend_ui s : ui (handleSend s) = ui s.
Proof.
  unfold handleSend. destruct (audioBlob (ui s)); [|reflexivity].
  cbn. now destruct (audioUrl (ui s)).
Qed.

Lemma handleCancel_take s s' : handleCancel s = Some s' -> sameTake s s'.
Proof.
  unfold handleCancel, stopRecording.
  destruct (stopRecording_closure _ s) as [s1|] eqn:E; [|discriminate].
  cbn [mbind option_bind]. intros [= <-]. apply stopRecording_closure_take in E.
  eapply sameTake_trans; [exact E|]. apply sameTake_ui. cbn.
  now destruct (audioUrl (ui s1)).
Qed.

Lemma cancel_take s s' : cancel s = Some s' -> sameTake s s'.
Proof.
  unfold cancel. destruct (handleCancel s) as [s1|] eqn:E; [|discriminate].
  cbn [mbind option_bind]. intros H.
  eapply sameTake_trans; [eapply handleCancel_take, E | eapply unmount_take, H].
Qed.

Lemma send_take s s' : send s = Some s' -> sameTake s s'.
Proof.
  unfold send. destruct (audioBlob (ui s)).
  - intros H. eapply sameTake_trans; [|eapply unmount_take, H].
    apply sameTake_ui, handleSend_ui.
  - intros [= <-]. apply sameTake_ui, handleSend_ui.
Qed.

Lemma ondataavailable_ui data s : ui (ondataavailable data s) = ui s.
Proof. unfold ondataavailable. now destruct (0 <? blobSize data)%nat. Qed.

Lemma playAudio_take s : sameTake s (playAudio s).
Proof.
  unfold playAudio. destruct (audioUrl (ui s)); [|apply sameTake_refl].
  destruct (audioRef_attached s); [|apply sameTake_refl].
  destruct (isPlaying (ui s)); apply setIsPlaying_take.
Qed.

Lemma timerCallback_duration s :
  mounted s = true -> duration (ui (timerCallback s)) = duration (ui s) + 1.
Proof. unfold timerCallback, setDuration, with_ui. now intros ->. Qed.

Lemma timerCallback_mounted s : mounted (timerCallback s) = mounted s.
Proof. apply with_ui_mounted. Qed.

Lemma ticks_mounted n s : mounted (Nat.iter n timerCallback s) = mounted s.
Proof.
  induction n as [|n IH]; [reflexivity|].
  change (Nat.iter (S n) timerCallback s)
    with (timerCallback (Nat.iter n timerCallback s)).
  now rewrite timerCallback_mounted.
Qed.

Lemma ticks_duration n s :
  mounted s = true ->
  duration (ui (Nat.iter n timerCallback s)) = duration (ui s) + n.
Proof.
  intros Hm. induction n as [|n IH]; [simpl; lia|].
  change (Nat.iter (S n) timerCallback s)
    with (timerCallback (Nat.iter n timerCallback s)).
  rewrite timerCallback_duration by (now rewrite ticks_mounted). lia.
Qed.

Lemma ticks_artifact n s :
  audioBlob (ui (Nat.iter n timerCallback s)) = audioBlob (ui s).
Proof.
  induction n as [|n IH]; [reflexivity|].
  change (Nat.iter (S n) timerCallback s)
    with (timerCallback (Nat.iter n timerCallback s)).
  rewrite <- IH. unfold timerCallback, setDuration, with_ui.
  now destruct (mounted _).
Qed.

Lemma onstop_duration type s : duration (ui (onstop type s)) = duration (ui s).
Proof. destruct s as [c [mr ch sr tr] b hc []]; destruct sr; reflexivity. Qed.

(** Only a tick changes the elapsed seconds, only a [stop] event the
    artifact. *)
Lemma step_take rt s e s' :
  step rt s e = Some s' ->
  (e <> Tick -> duration (ui s') = duration (ui s))
  /\ ((forall r, e <> StopEvent r) -> audioBlob (ui s') = audioBlob (ui s)).
Proof.
  unfold step, panel.
  assert (K : forall s1 s2, sameTake s1 s2 ->
    (e <> Tick -> duration (ui s2) = duration (ui s1))
    /\ ((forall r, e <> StopEvent r) -> audioBlob (ui s2) = audioBlob (ui s1)))
    by (intros s1 s2 [H1 H2]; auto).
  destruct e.
  - destruct (mounted s); [|discriminate].
    destruct (view s); intros [= <-]; apply K, startRecording_take.
  - destruct (pendingRequests (browser s)) as [|p]; [discriminate|]. intros [= <-].
    apply K. eapply sameTake_trans; [|apply startRecording_granted_take].
    apply sameTake_ui. reflexivity.
  - destruct (pendingRequests (browser s)); intros [= <-]. apply K.
    eapply sameTake_trans; [|apply setError_take]. apply sameTake_ui. reflexivity.
  - intros [= <-]. split; [congruence|]. intros _. apply ticks_artifact.
  - destruct (mounted s); [|discriminate].
    destruct (view s); try discriminate. intros H. apply K, pauseRecording_take, H.
  - destruct (mounted s); [|discriminate].
    destruct (view s); try discriminate. intros H.
    apply K, (stopRecording_closure_take _ _ _ H).
  - destruct (recorders (browser s) !! r) as [m|]; [|discriminate].
    cbn [mbind option_bind]. destruct (busy m); intros [= <-].
    apply K, sameTake_ui, ondataavailable_ui.
  - destruct (recorders (browser s) !! r) as [m|]; [|discriminate].
    cbn [mbind option_bind]. destruct (stopQueued m); intros [= <-].
    split; [|intros Hne; now elim (Hne r)]. intros _.
    now rewrite onstop_duration.
  - destruct (mounted s); [|discriminate].
    destruct (view s); try discriminate. intros [= <-]. apply K, playAudio_take.
  - destruct (mounted s); [|discriminate].
    destruct (view s); try discriminate. intros [= <-]. apply K, setIsPlaying_take.
  - destruct (mounted s); [|discriminate].
    destruct (view s); try discriminate. intros H. apply K, send_take, H.
  - destruct (mounted s); [|discriminate]. intros H. apply K, cancel_take, H.
  - destruct (mounted s); [|discriminate]. intros H. apply K, unmount_take, H.
Qed.


(** *** Ticks *)

Lemma paused_step_duration rt s e s' :
  phase s = Paused -> intervals (browser s) = ∅ ->
  step rt s e = Some s' -> duration (ui s') = duration (ui s).
Proof.
  intros _ Hi Hstep. destruct (step_take _ _ _ _ Hstep) as [Hd _].
  destruct e; try (apply Hd; discriminate).
  unfold step in Hstep. injection Hstep as <-.
  rewrite Hi, size_empty. reflexivity.
Qed.

(** Within sessions, where Start is pressed only while nothing is in
    flight: a second that passes while the recorder is in Recording adds
    exactly 1 to the elapsed seconds and leaves it in Recording; while it
    is Paused a second that passes changes nothing, and no event at all
    changes the elapsed seconds. The run start, 3 ticks, pause, 2 ticks,
    resume, 2 ticks, stop shows 3 elapsed seconds when pausing, still 3
    when resuming, and ends in Ready with 5 elapsed seconds, the artifact
    present and no live stream. *)
Lemma session_seconds_count_ticks :
  (forall rt evs s,
      session rt initial evs = Some s -> mounted s = true ->
      (phase s = Recording ->
       exists s', sessionStep rt s Tick = Some s'
                  /\ duration (ui s') = duration (ui s) + 1
                  /\ phase s' = Recording)
      /\ (phase s = Paused ->
          sessionStep rt s Tick = Some s
          /\ forall e s', sessionStep rt s e = Some s' ->
                          duration (ui s') = duration (ui s)))
  /\ (exists s3 s3' s5,
         session chromium initial (take 5 scenario) = Some s3
         /\ duration (ui s3) = 3 /\ phase s3 = Recording
         /\ session chromium initial (take 8 scenario) = Some s3'
         /\ duration (ui s3') = 3 /\ phase s3' = Paused
         /\ session chromium initial scenario = Some s5
         /\ duration (ui s5) = 5
         /\ audioBlob (ui s5)
            = Some {| blobData := [Byte.x52; Byte.x49; Byte.x46];
                      blobType := "audio/webm" |}
         /\ liveStreams (browser s5) = ∅
         /\ phase s5 = Ready).
Proof.
  split.
  - intros rt evs s Hrun Hm. apply session_invariant in Hrun.
    destruct Hrun; try discriminate; split; try discriminate; intros _.
    + eexists. split; [apply step_tick_recording|]. split; reflexivity.
    + split; [apply step_tick_paused|]. intros e s' H.
      eapply paused_step_duration; [reflexivity | reflexivity |].
      eapply sessionStep_step, H.
    + cbn in Hm. congruence.
    + cbn in Hm. congruence.
  - eexists _, _, _.
    split; [vm_compute; reflexivity|]. split; [reflexivity|]. split; [reflexivity|].
    split; [vm_compute; reflexivity|]. split; [reflexivity|]. split; [reflexivity|].
    split; [vm_compute; reflexivity|]. repeat split; reflexivity.
Qed.

(** C3, at the failing input. The component as it is accepts Start a second
    time while the first request is pending, and then the elapsed seconds
    do not count the seconds of Recording: with both requests granted the
    session is in Recording and one second adds 2; after pause() it is
    Paused and one second still adds 1. The run of the scenario with Start
    pressed twice ends in Ready with the artifact present, but with 12
    elapsed seconds where 7 seconds passed, 5 of them in Recording. *)
Theorem overlapping_starts_miscount_seconds :
  exists s s1 s2 s3 s4,
    run chromium initial [ClickStart; ClickStart; UserMediaGranted; UserMediaGranted]
    = Some s
    /\ phase s = Recording /\ duration (ui s) = 0
    /\ run chromium s [Tick] = Some s1
    /\ phase s1 = Recording /\ duration (ui s1) = 2
    /\ run chromium s1 [ClickPause] = Some s2
    /\ phase s2 = Paused /\ duration (ui s2) = 2
    /\ run chromium s2 [Tick] = Some s3
    /\ phase s3 = Paused /\ duration (ui s3) = 3
    /\ run chromium initial hastyScenario = Some s4
    /\ phase s4 = Ready /\ duration (ui s4) = 12
    /\ length (List.filter (fun e => match e with Tick => true | _ => false end)
                       hastyScenario) = 7
    /\ audioBlob (ui s4)
       = Some {| blobData := [Byte.x52; Byte.x49; Byte.x46];
                 blobType := "audio/webm" |}.
Proof.
  eexists _, _, _, _, _.
  split; [vm_compute; reflexivity|]. split; [reflexivity|]. split; [reflexivity|].
  split; [vm_compute; reflexivity|]. split; [reflexivity|]. split; [reflexivity|].
  split; [vm_compute; reflexivity|]. split; [reflexivity|]. split; [reflexivity|].
  split; [vm_compute; reflexivity|]. split; [reflexivity|]. split; [reflexivity|].
  split; [vm_compute; reflexivity|]. split; [reflexivity|]. split; [reflexivity|].
  split; reflexivity.
Qed.


(** *** Finalization *)

Lemma stop_from_stopping rt fs d err r st n final :
  session rt (stoppingState rt fs d err r st n)
    (map (DataAvailable r) final ++ [StopEvent r])
  = Some (readyState rt (fs ++ final) d err false r st n (Pos.succ n)).
Proof.
  rewrite session_app, deliver_stopping. cbn [mbind option_bind session].
  now rewrite step_stopEvent_stopping.
Qed.

(** In every state only the [stop] event that answers [stop()] changes the
    artifact. Within sessions, [stop()] pressed in Recording or in Paused,
    followed by the fragments the browser still delivers and by its [stop]
    event, leaves in Ready an artifact whose bytes are the non-empty
    fragments delivered since the start, concatenated in delivery order,
    and whose type is the negotiated one; no stream is live afterwards. *)
Lemma session_stop_finalizes :
  (forall rt s e s',
      step rt s e = Some s' -> audioBlob (ui s') <> audioBlob (ui s) ->
      exists r m, e = StopEvent r /\ recorders (browser s) !! r = Some m
                  /\ stopQueued m = true)
  /\ (forall rt evs s,
         session rt initial evs = Some s -> mounted s = true ->
         phase s = Recording \/ phase s = Paused ->
         audioBlob (ui s) = None
         /\ exists r,
             mediaRecorderRef (refs s) = Some r
             /\ forall final, exists s',
                 session rt s (ClickStop :: map (DataAvailable r) final ++ [StopEvent r])
                 = Some s'
                 /\ audioBlob (ui s')
                    = Some {| blobData :=
                                concat (map blobData
                                          (filter nonEmpty (delivered evs ++ final)));
                              blobType := getSupportedMimeType rt |}
                 /\ phase s' = Ready
                 /\ liveStreams (browser s') = ∅).
Proof.
  split.
  - intros rt s e s' Hstep Hne.
    destruct (step_take _ _ _ _ Hstep) as [_ Ha].
    destruct e; try (elim Hne; apply Ha; discriminate).
    exists r. unfold step in Hstep.
    destruct (recorders (browser s) !! r) as [m|] eqn:E; [|discriminate].
    cbn [mbind option_bind] in Hstep. exists m.
    destruct (stopQueued m) eqn:Q; [|discriminate]. auto.
  - intros rt evs s Hrun Hm Hph. apply session_invariant in Hrun.
    destruct Hrun; try (destruct Hph; discriminate); [| |cbn in Hm; congruence].
    + split; [reflexivity|]. exists r. split; [reflexivity|]. intros final.
      eexists. split.
      { cbn [session]. rewrite step_stop_recording. cbn [mbind option_bind].
        apply stop_from_stopping. }
      repeat split; reflexivity.
    + split; [reflexivity|]. exists r. split; [reflexivity|]. intros final.
      eexists. split.
      { cbn [session]. rewrite step_stop_paused. cbn [mbind option_bind].
        apply stop_from_stopping. }
      repeat split; reflexivity.
Qed.

(** C4, at the failing input. Start is pressed twice before the browser
    answers, both requests are granted, and the take is stopped: [stop()]
    reaches the recorder of [mediaRecorderRef] only, and its [stop] event
    stops the tracks of the stream of [streamRef] only. The session is in
    Ready with the artifact made of the non-empty fragments in delivery
    order and tagged with the negotiated type, while the stream of the
    first grant is live, its recorder is recording and its ticker runs. *)
Theorem overlapping_starts_keep_the_device :
  exists s,
    run chromium initial hastyScenario = Some s
    /\ phase s = Ready
    /\ audioBlob (ui s)
       = Some {| blobData := blobData fragment1 ++ blobData fragment2;
                 blobType := getSupportedMimeType chromium |}
    /\ liveStreams (browser s) = {[1%positive]}
    /\ recorders (browser s) !! 2%positive
       = Some {| recState := recording; stopQueued := false;
                 mimeType := "audio/webm"; recStream := 1%positive |}
    /\ intervals (browser s) = {[3%positive]}
    /\ mediaRecorderRef (refs s) = Some 5%positive
    /\ streamRef (refs s) = Some 4%positive.
Proof.
  eexists. split; [vm_compute; reflexivity|].
  repeat split; vm_compute; reflexivity.
Qed.

Lemma MediaRecorder_stop_mounted r s s' :
  MediaRecorder_stop r s = Some s' -> mounted s' = mounted s.
Proof.
  unfold MediaRecorder_stop. destruct (recorders (browser s) !! r) as [m|]; [|discriminate].
  cbn [mbind option_bind]. destruct (recState m); intros [= <-]; reflexivity.
Qed.

Lemma stopRecording_twice s s' :
  mounted s = true -> stopRecording s = Some s' -> stopRecording s' = Some s'.
Proof.
  intros Hm. unfold stopRecording, stopRecording_closure.
  destruct (mediaRecorderRef (refs s)) as [r|] eqn:Er.
  - destruct (isRecording (ui s)) eqn:Ei.
    + destruct (MediaRecorder_stop r s) as [s1|] eqn:E; [|discriminate].
      cbn [mbind option_bind]. intros [= <-].
      apply MediaRecorder_stop_mounted in E. rewrite Hm in E.
      destruct s1 as [c [mr ch sr tr] b hc m]. cbn in E. subst m.
      destruct tr; destruct mr; reflexivity.
    + intros [= <-]. rewrite Er, Ei. reflexivity.
  - intros [= <-]. rewrite Er. reflexivity.
Qed.

Lemma stopEvent_mounted rt s r s' :
  step rt s (StopEvent r) = Some s' -> mounted s' = mounted s.
Proof.
  unfold step.
  destruct (recorders (browser s) !! r) as [m|]; [|discriminate].
  cbn [mbind option_bind]. destruct (stopQueued m); intros [= <-].
  destruct s as [c [mr ch sr tr] b hc []]; destruct sr; reflexivity.
Qed.

(** Once the artifact is there, no step of the session replaces it. *)
Lemma artifact_kept_step rt fs s e s' b :
  Shape rt fs s -> audioBlob (ui s) = Some b ->
  sessionStep rt s e = Some s' -> audioBlob (ui s') = Some b.
Proof.
  intros HS Hb Hstep.
  pose proof (sessionStep_step _ _ _ _ Hstep) as Hstep'.
  destruct (step_take _ _ _ _ Hstep') as [_ Ha].
  destruct e; try (rewrite Ha; [exact Hb | discriminate]).
  destruct HS; try discriminate.
  - exfalso. unfold sessionStep, step in Hstep.
    apply lookup_recorder in Hstep as [-> Hstep]. discriminate.
  - destruct (step_closed _ _ _ _ H Hstep') as [_ ->]. exact Hb.
Qed.

Lemma artifact_kept rt evs : forall fs s s' b,
  Shape rt fs s -> audioBlob (ui s) = Some b ->
  session rt s evs = Some s' -> audioBlob (ui s') = Some b.
Proof.
  induction evs as [|e evs IH]; intros fs s s' b HS Hb Hrun; simpl in Hrun.
  - now injection Hrun as <-.
  - destruct (sessionStep rt s e) as [s1|] eqn:E; [|discriminate].
    eapply IH; [eapply shape_step; eauto | eapply artifact_kept_step; eauto | exact Hrun].
Qed.

(** The artifact appears at the [stop] event of a stopping session. *)
Lemma artifact_appears rt fs s e s' :
  Shape rt fs s -> sessionStep rt s e = Some s' ->
  audioBlob (ui s) = None -> audioBlob (ui s') <> None ->
  (exists r, e = StopEvent r) /\ phase s' = Ready.
Proof.
  intros HS Hstep Hnone Hsome.
  pose proof (sessionStep_step _ _ _ _ Hstep) as Hstep'.
  destruct (step_take _ _ _ _ Hstep') as [_ Ha].
  assert (He : exists r, e = StopEvent r).
  { destruct e; try (elim Hsome; rewrite Ha; [exact Hnone | discriminate]). eauto. }
  split; [exact He|]. destruct He as [r ->].
  destruct HS.
  - disabled Hstep.
  - unfold sessionStep, step in Hstep.
    apply lookup_recorder in Hstep as [-> Hstep]. discriminate.
  - unfold sessionStep, step in Hstep.
    apply lookup_recorder in Hstep as [-> Hstep]. discriminate.
  - unfold sessionStep, step in Hstep.
    apply lookup_recorder in Hstep as [-> Hstep].
    cbv [recorderOf stopQueued mimeType] in Hstep.
    rewrite stopEvent_stopping in Hstep. now injection Hstep as <-.
  - discriminate.
  - destruct (step_closed _ _ _ _ H Hstep') as [_ E]. rewrite E in Hsome. contradiction.
  - disabled Hstep.
Qed.

(** In a mounted component a second [stop()] changes nothing. Within
    sessions the artifact goes from absent to present only at the [stop]
    event that completes a stop, which leaves the session in Ready; once
    present it is the same artifact in every later state. *)
Lemma session_artifact_set_once :
  (forall s s',
      mounted s = true -> stopRecording s = Some s' -> stopRecording s' = Some s')
  /\ (forall rt evs s,
         session rt initial evs = Some s ->
         (forall e s',
             sessionStep rt s e = Some s' ->
             audioBlob (ui s) = None -> audioBlob (ui s') <> None ->
             (exists r, e = StopEvent r) /\ phase s' = Ready)
         /\ (forall b evs' s',
                audioBlob (ui s) = Some b -> session rt s evs' = Some s' ->
                audioBlob (ui s') = Some b)).
Proof.
  split; [exact stopRecording_twice|].
  intros rt evs s Hrun. apply session_invariant in Hrun. split.
  - intros e s'. now apply artifact_appears with (fs := delivered evs).
  - intros b evs' s' Hb Hrun'. eapply artifact_kept; eauto.
Qed.

Example second_stop_changes_nothing :
  stopRecording (stoppingState chromium [] 0 None 2 1 4)
  = Some (stoppingState chromium [] 0 None 2 1 4).
Proof.
  destruct session_artifact_set_once as [H _].
  apply (H (recordingState chromium [] 0 None 2 1 3 4)).
  - reflexivity.
  - apply stop_recording.
Qed.

(** C5, at the failing input. A take is stopped and Start is pressed on the
    first panel before the [stop] event of the recorder has run. That
    event sets the artifact; the new request is then granted and the
    session records again with the artifact of the first take still set.
    Stopping the second take sets the artifact a second time, to another
    value, and the object URL of the first one is never revoked. *)
Theorem restart_overwrites_the_artifact :
  exists s1 s2,
    run chromium initial restartScenario = Some s1
    /\ mounted s1 = true
    /\ phase s1 = Recording
    /\ audioBlob (ui s1)
       = Some {| blobData := [Byte.x52; Byte.x49]; blobType := "audio/webm" |}
    /\ audioUrl (ui s1) = Some 4%positive
    /\ run chromium s1 [DataAvailable 6 fragment2; ClickStop; StopEvent 6] = Some s2
    /\ mounted s2 = true
    /\ phase s2 = Ready
    /\ audioBlob (ui s2)
       = Some {| blobData := [Byte.x46]; blobType := "audio/webm" |}
    /\ audioUrl (ui s2) = Some 8%positive
    /\ objectUrls (browser s2) = {[4%positive; 8%positive]}.
Proof.
  eexists _, _.
  split; [vm_compute; reflexivity|]. split; [reflexivity|]. split; [reflexivity|].
  split; [reflexivity|]. split; [reflexivity|].
  split; [vm_compute; reflexivity|]. split; [reflexivity|]. split; [reflexivity|].
  split; [reflexivity|]. split; [reflexivity|]. vm_compute; reflexivity.
Qed.

(** *** Cancel *)








(** *** What the browser still does after a cancel *)

(** No callback that runs after unmount revokes an object URL. *)
Lemma closed_step_keeps_urls rt s e s' :
  mounted s = false -> step rt s e = Some s' ->
  objectUrls (browser s) ⊆ objectUrls (browser s').
Proof.
  intros Hm Hstep. destruct e;
    try (pose proof (user_step_mounted _ _ _ _ Hstep eq_refl); congruence).
  - destruct s as [c r [p ls rs iv us nx] hc m]. cbn in Hm. subst m.
    unfold step, startRecording_granted, MediaRecorder_start in Hstep. reduce.
    destruct p; [discriminate|]. reduce.
    destruct (isTypeSupported rt (getSupportedMimeType rt)).
    + rewrite lookup_insert_eq in Hstep. reduce.
      injection Hstep as <-. reflexivity.
    + injection Hstep as <-. reflexivity.
  - destruct s as [c r [p ls rs iv us nx] hc m]. cbn in Hm. subst m.
    unfold step in Hstep. reduce.
    destruct p; [discriminate|].
    injection Hstep as <-. reflexivity.
  - unfold step in Hstep. injection Hstep as <-.
    rewrite ticks_unmounted by exact Hm. reflexivity.
  - destruct s as [c r0 [p ls rs iv us nx] hc m]. cbn in Hm. subst m.
    unfold step in Hstep. reduce.
    destruct (rs !! r); [|discriminate]. reduce.
    destruct (busy _); [|discriminate].
    destruct (0 <? blobSize data)%nat; injection Hstep as <-; reflexivity.
  - destruct s as [c [mr ch sr tr] [p ls rs iv us nx] hc m]. cbn in Hm. subst m.
    unfold step in Hstep. reduce.
    destruct (rs !! r) as [x|]; [|discriminate]. reduce.
    destruct x as [? [] ? ?]; [|discriminate]. reduce.
    destruct sr; injection Hstep as <-; reduce; set_solver.
Qed.

Lemma closed_run_keeps_urls rt evs : forall s s',
  mounted s = false -> run rt s evs = Some s' ->
  objectUrls (browser s) ⊆ objectUrls (browser s').
Proof.
  induction evs as [|e evs IH]; intros s s' Hm Hrun; simpl in Hrun.
  - now injection Hrun as <-.
  - destruct (step rt s e) as [s1|] eqn:E; [|discriminate].
    cbn [mbind option_bind] in Hrun.
    destruct (step_closed _ _ _ _ Hm E) as [Hm1 _].
    etransitivity; [eapply closed_step_keeps_urls; eauto | eapply IH; eauto].
Qed.

(** C6, at the failing input. A recording is cancelled: [handleCancel] calls
    [stop()] on the recorder, the host unmounts the component, and nothing is
    held at that moment. The recorder then delivers its data and fires the
    [stop] event queued by that [stop()]; [onstop] creates an object URL.
    The component is gone, no state cell records the URL, and no later event
    revokes it. *)
Theorem cancel_while_recording_leaves_object_url :
  exists s s',
    session chromium initial [ClickStart; UserMediaGranted; Tick; ClickCancel] = Some s
    /\ mounted s = false
    /\ hostCalls s = [onCancel]
    /\ released s
    /\ run chromium s [DataAvailable 2 fragment1; StopEvent 2] = Some s'
    /\ audioUrl (ui s') = None
    /\ objectUrls (browser s') = {[4%positive]}
    /\ forall evs s'',
        run chromium s' evs = Some s'' -> 4%positive ∈ objectUrls (browser s'').
Proof.
  eexists _, _.
  split; [vm_compute; reflexivity|]. split; [reflexivity|]. split; [reflexivity|].
  split; [repeat split|].
  split; [vm_compute; reflexivity|]. split; [reflexivity|].
  split; [reflexivity|].
  intros evs s'' Hrun.
  eapply closed_run_keeps_urls in Hrun; [|reflexivity].
  apply Hrun. cbn. set_solver.
Qed.

(** Cancelled while the browser still asks for the microphone: the request
    is granted afterwards, and the stream and the ticker it starts belong to
    a component that is no longer there to release them. *)
Lemma cancel_before_grant_leaves_stream :
  exists s s',
    session chromium initial [ClickStart; ClickCancel] = Some s
    /\ released s
    /\ step chromium s UserMediaGranted = Some s'
    /\ liveStreams (browser s') = {[1%positive]}
    /\ intervals (browser s') = {[3%positive]}.
Proof.
  eexists _, _.
  split; [vm_compute; reflexivity|]. split; [repeat split|].
  split; [vm_compute; reflexivity|]. split; reflexivity.
Qed.

(** *** Failing starts *)

(** Where the browser records the negotiated type, Start is accepted only
    in the idle shape with nothing pending. *)
Lemma start_accepted rt fs s s1 :
  recordsNegotiatedType rt = true ->
  Shape rt fs s -> sessionStep rt s ClickStart = Some s1 ->
  exists err n, s = idleState err 0 n.
Proof.
  intros Hsup HS Hstep. destruct HS; try (disabled Hstep; fail).
  - unfold sessionStep in Hstep. rewrite quiet_idle in Hstep.
    case_bool_decide; [subst p; eauto | discriminate].
  - unfold sessionStep in Hstep. rewrite quiet_stopping in Hstep. discriminate.
  - apply sessionStep_step in Hstep.
    pose proof (user_step_mounted _ _ _ _ Hstep eq_refl). congruence.
  - congruence.
Qed.

Lemma rejection_message e :
  exists msg,
    requestMicrophonePermission_catch e = ErrorObject "Error" msg
    /\ In msg [permissionDeniedMessage; noMicrophoneMessage; accessFailedMessage]
    /\ (msg = permissionDeniedMessage <-> isNamed "NotAllowedError" e)
    /\ (msg = noMicrophoneMessage <-> isNamed "NotFoundError" e).
Proof.
  unfold isNamed. destruct e as [name message|]; cbn [requestMicrophonePermission_catch].
  - destruct (String.eqb_spec name "NotAllowedError") as [->|Hna].
    { eexists. split; [reflexivity|]. split; [cbn; auto|].
      split; split; eauto; try discriminate. intros [m [=]]. }
    destruct (String.eqb_spec name "NotFoundError") as [->|Hnf].
    { eexists. split; [reflexivity|]. split; [cbn; auto|].
      split; split; eauto; try discriminate. intros [m [=]]. }
    eexists. split; [reflexivity|]. split; [cbn; auto|].
    split; split; try discriminate; intros [m [= -> _]]; congruence.
  - eexists. split; [reflexivity|]. split; [cbn; auto|].
    split; split; try discriminate; intros [m [=]].
Qed.

(** What holds of a failing start in a session, where the browser records
    the negotiated type: if the browser lacks one of the three objects, the
    capability check answers at once with its message and no request to the
    browser is made; otherwise one request is pending, and whatever the
    browser rejects it with, the component shows one of three messages,
    the permission message exactly for NotAllowedError and the
    no-microphone message exactly for NotFoundError. In each case the
    session is Idle, holds no stream, timer, URL or recorder, and accepts
    start() again. *)
Lemma rejected_start_stays_idle rt evs s s1 :
  recordsNegotiatedType rt = true ->
  session rt initial evs = Some s -> sessionStep rt s ClickStart = Some s1 ->
  (isAudioRecordingSupported rt = false ->
     error (ui s1) = Some unsupportedMessage
     /\ pendingRequests (browser s1) = 0
     /\ phase s1 = Idle /\ released s1
     /\ streamRef (refs s1) = None /\ mediaRecorderRef (refs s1) = None
     /\ is_Some (sessionStep rt s1 ClickStart))
  /\ (isAudioRecordingSupported rt = true ->
      pendingRequests (browser s1) = 1
      /\ forall e, exists s2 msg,
          sessionStep rt s1 (UserMediaRejected e) = Some s2
          /\ error (ui s2) = Some msg
          /\ In msg [permissionDeniedMessage; noMicrophoneMessage; accessFailedMessage]
          /\ (msg = permissionDeniedMessage <-> isNamed "NotAllowedError" e)
          /\ (msg = noMicrophoneMessage <-> isNamed "NotFoundError" e)
          /\ pendingRequests (browser s2) = 0
          /\ phase s2 = Idle /\ released s2
          /\ streamRef (refs s2) = None /\ mediaRecorderRef (refs s2) = None
          /\ is_Some (sessionStep rt s2 ClickStart))
  /\ permissionDeniedMessage <> noMicrophoneMessage
  /\ JsString.substring_of "permission" permissionDeniedMessage.
Proof.
  intros Hsup Hrun Hstep. apply session_invariant in Hrun.
  destruct (start_accepted _ _ _ _ Hsup Hrun Hstep) as (err & n & ->).
  rewrite step_start_idle in Hstep. injection Hstep as <-.
  split; [|split; [|split]].
  - intros ->. repeat split. rewrite step_start_idle. eauto.
  - intros ->. split; [reflexivity|]. intros e.
    destruct (rejection_message e) as (msg & E & Hin & Hp & Hn).
    exists (idleState (Some msg) 0 n), msg.
    split; [rewrite step_rejected_idle, E; reflexivity|].
    repeat split; auto; try apply Hp; try apply Hn;
      try (rewrite step_start_idle; eauto).
  - discriminate.
  - exists "Microphone ", " denied. Please allow microphone access to record voice messages.".
    reflexivity.
Qed.

(** C7, at the failing input. The browser has the three objects the
    capability check asks for, but records none of the four types, so
    [getSupportedMimeType] answers its fallback and [new MediaRecorder]
    throws after the stream was granted and stored in [streamRef]. The
    [catch] block shows the message of the exception and the session is
    Idle, with no recorder and no ticker, but the tracks of the stream are
    not stopped: the microphone stays held. Start is accepted again, and
    after a second failed start even cancel() leaves the first stream
    live. *)
Theorem failed_recorder_start_keeps_the_device :
  exists s s1 s2,
    isAudioRecordingSupported wavOnly = true
    /\ getSupportedMimeType wavOnly = "audio/webm"
    /\ run wavOnly initial [ClickStart; UserMediaGranted] = Some s
    /\ phase s = Idle
    /\ error (ui s) = Some "NotSupportedError: the type is not supported"
    /\ recorders (browser s) = ∅
    /\ intervals (browser s) = ∅
    /\ streamRef (refs s) = Some 1%positive
    /\ liveStreams (browser s) = {[1%positive]}
    /\ run wavOnly s [ClickStart; UserMediaGranted] = Some s1
    /\ phase s1 = Idle
    /\ liveStreams (browser s1) = {[1%positive; 2%positive]}
    /\ run wavOnly s1 [ClickCancel] = Some s2
    /\ mounted s2 = false
    /\ liveStreams (browser s2) = {[1%positive]}.
Proof.
  eexists _, _, _.
  split; [reflexivity|]. split; [vm_compute; reflexivity|].
  split; [vm_compute; reflexivity|]. split; [reflexivity|]. split; [reflexivity|].
  split; [vm_compute; reflexivity|]. split; [vm_compute; reflexivity|].
  split; [reflexivity|]. split; [vm_compute; reflexivity|].
  split; [vm_compute; reflexivity|]. split; [reflexivity|].
  split; [vm_compute; reflexivity|].
  split; [vm_compute; reflexivity|]. split; [reflexivity|]. vm_compute; reflexivity.
Qed.

(** *** Send without an artifact *)

(** C10. While no artifact exists, [handleSend] returns the state it was
    given: the host is not called, no URL is revoked, nothing else changes;
    and the send operation built on it does not unmount the recorder. *)
Theorem send_without_artifact_does_nothing (s : State) :
  audioBlob (ui s) = None ->
  handleSend s = s
  /\ hostCalls (handleSend s) = hostCalls s
  /\ browser (handleSend s) = browser s
  /\ send s = Some s.
Proof.
  intros H. unfold send, handleSend. rewrite H. auto.
Qed.

Lemma send_without_artifact_does_nothing_witness :
  handleSend initial = initial
  /\ hostCalls (handleSend initial) = hostCalls initial
  /\ browser (handleSend initial) = browser initial
  /\ send initial = Some initial.
Proof.
  apply send_without_artifact_does_nothing. reflexivity.
Defined.

(** *** Tickers *)

Lemma stopTimer_twice s : stopTimer (stopTimer s) = stopTimer s.
Proof.
  unfold stopTimer. destruct (timerRef (refs s)) as [t|] eqn:E.
  - reflexivity.
  - now rewrite E.
Qed.

(** X30. In a session at most one ticker runs, and one runs exactly in
    Recording. *)
Lemma session_one_ticker rt evs s :
  session rt initial evs = Some s -> mounted s = true ->
  size (intervals (browser s)) <= 1
  /\ (phase s = Recording <-> size (intervals (browser s)) = 1).
Proof.
  intros Hrun Hm. apply session_invariant in Hrun.
  destruct Hrun; [| | | | |congruence|]; reduce;
    rewrite ?size_empty, ?size_singleton; split; try lia;
    split; intros; try discriminate; reflexivity.
Qed.

(** A pause and resume cycle in a session leaves one ticker running. *)
Lemma pause_resume_one_ticker rt evs s s' :
  session rt initial evs = Some s -> phase s = Recording ->
  session rt s [ClickPause; ClickPause] = Some s' ->
  phase s' = Recording /\ size (intervals (browser s')) = 1.
Proof.
  intros Hrun Hph Hcycle.
  assert (Hm : mounted s = true).
  { cbn [session sessionStep] in Hcycle.
    destruct (step rt s ClickPause) eqn:E; [|discriminate].
    eapply user_step_mounted; [exact E | reflexivity]. }
  apply session_invariant in Hrun.
  destruct Hrun; try discriminate; [|congruence].
  cbn [session] in Hcycle. rewrite step_pause_recording in Hcycle.
  cbn [mbind option_bind] in Hcycle. rewrite step_resume_paused in Hcycle.
  injection Hcycle as <-. split; [reflexivity|]. reduce. apply size_singleton.
Qed.

(** C8, at the failing input. Start pressed twice before the browser has
    answered the first request: both requests are granted, [startTimer]
    runs twice and [timerRef] remembers the second interval only. Two
    tickers run in Recording and a second adds 2; pausing clears one of
    them, and the other one still counts while the session is Paused. *)
Theorem overlapping_starts_run_two_tickers :
  exists s s1 s2 s3,
    run chromium initial [ClickStart; ClickStart; UserMediaGranted; UserMediaGranted]
    = Some s
    /\ phase s = Recording
    /\ size (intervals (browser s)) = 2
    /\ step chromium s Tick = Some s1
    /\ duration (ui s1) = duration (ui s) + 2
    /\ step chromium s1 ClickPause = Some s2
    /\ phase s2 = Paused
    /\ size (intervals (browser s2)) = 1
    /\ step chromium s2 Tick = Some s3
    /\ duration (ui s3) = duration (ui s2) + 1.
Proof.
  eexists _, _, _, _.
  split; [vm_compute; reflexivity|]. split; [reflexivity|].
  split; [vm_compute; reflexivity|].
  split; [vm_compute; reflexivity|]. split; [reflexivity|].
  split; [vm_compute; reflexivity|]. split; [reflexivity|].
  split; [vm_compute; reflexivity|].
  split; [vm_compute; reflexivity|]. reflexivity.
Qed.


End VoiceRecorderFacts.

Module AudioFormatFacts.
Import ChatFacts AudioFormat.
Local Open Scope nat_scope.

Lemma length_app (s t : string) :
  String.length (s ++ t) = String.length s + String.length t.
Proof.
  induction s as [|a s IH]; [reflexivity|].
  rewrite append_cons. cbn [String.length]. now rewrite IH.
Qed.

Lemma app_inv_length (x x' y y' : string) :
  (x ++ y = x' ++ y')%string -> String.length y = String.length y' ->
  x = x' /\ y = y'.
Proof.
  revert x'. induction x as [|a x IH]; intros [|a' x'] H Hl.
  - now split.
  - rewrite append_nil in H. subst y. rewrite length_app in Hl.
    cbn [String.length] in Hl. lia.
  - rewrite append_nil in H. subst y'. rewrite length_app in Hl.
    cbn [String.length] in Hl. lia.
  - rewrite !append_cons in H. injection H as -> H.
    destruct (IH _ H Hl) as [-> ->]. now split.
Qed.

Lemma toString_inj a b : toString a = toString b -> a = b.
Proof.
  unfold toString. intros H.
  apply (f_equal NilEmpty.uint_of_string) in H. rewrite !NilEmpty.usu in H.
  injection H as H. apply (f_equal Nat.of_uint) in H.
  now rewrite !DecimalNat.Unsigned.of_to in H.
Qed.

Lemma to_uint_normal n : unorm (Nat.to_uint n) = Nat.to_uint n.
Proof.
  pose proof (DecimalNat.Unsigned.to_of (Nat.to_uint n)) as H.
  rewrite DecimalNat.Unsigned.of_to in H. now symmetry.
Qed.

Lemma toString_nonempty n : toString n <> EmptyString.
Proof.
  unfold toString. intros H.
  pose proof (to_uint_normal n) as Hn.
  destruct (Nat.to_uint n) eqn:E; discriminate.
Qed.

(** The decimal digits of a number do not start with a zero, but for 0. *)
Lemma toString_no_leading_zero n rest :
  toString n = String "0" rest -> rest = EmptyString.
Proof.
  unfold toString. intros H. pose proof (to_uint_normal n) as Hn.
  destruct (Nat.to_uint n) as [|d| | | | | | | | | ] eqn:E; try discriminate.
  cbn [NilEmpty.string_of_uint] in H. injection H as <-.
  destruct d; try reflexivity;
    rewrite unorm_D0 in Hn;
    match type of Hn with unorm ?u = _ =>
      assert (Hu : u <> Nil) by discriminate;
      pose proof (nb_digits_unorm u Hu) as Hle;
      rewrite Hn in Hle; cbn [nb_digits] in Hle; lia
    end.
Qed.

Lemma padStart_short c (s : string) :
  String.length s = 1 -> padStart 2 c s = String c s.
Proof. unfold padStart. intros ->. reflexivity. Qed.

Lemma padStart_long c (s : string) :
  2 <= String.length s -> padStart 2 c s = s.
Proof.
  unfold padStart. intros H.
  replace (2 - String.length s) with 0 by lia. reflexivity.
Qed.

Lemma toString_length n : 1 <= String.length (toString n).
Proof.
  pose proof (toString_nonempty n).
  destruct (toString n); [congruence|cbn [String.length]; lia].
Qed.

Lemma padded_inj a b :
  padStart 2 "0" (toString a) = padStart 2 "0" (toString b) -> a = b.
Proof.
  intros H. pose proof (toString_length a) as Ha.
  pose proof (toString_length b) as Hb.
  destruct (decide (String.length (toString a) = 1)) as [Ea|Ea];
    destruct (decide (String.length (toString b) = 1)) as [Eb|Eb].
  - rewrite !padStart_short in H by assumption. injection H as H.
    now apply toString_inj.
  - rewrite padStart_short in H by assumption.
    rewrite padStart_long in H by lia. symmetry in H.
    apply toString_no_leading_zero in H. rewrite H in Ea. discriminate.
  - rewrite (padStart_short _ (toString b)) in H by assumption.
    rewrite padStart_long in H by lia.
    apply toString_no_leading_zero in H. rewrite H in Eb. discriminate.
  - rewrite !padStart_long in H by lia. now apply toString_inj.
Qed.

Lemma padded_two_digits n :
  n < 100 -> padStart 2 "0" (toString n) = twoDigits n.
Proof.
  intros H.
  assert (Hall : forallb (fun n => String.eqb (padStart 2 "0" (toString n)) (twoDigits n))
                   (seq 0 100) = true) by (vm_compute; reflexivity).
  rewrite forallb_forall in Hall.
  apply String.eqb_eq, Hall, in_seq. lia.
Qed.

(** X1. Below 100 minutes the display is two digits of minutes, a colon and
    two digits of seconds. *)
Theorem formatDuration_clock (seconds : nat) :
  seconds < 100 * 60 ->
  formatDuration seconds
  = (twoDigits (seconds / 60) ++ ":" ++ twoDigits (seconds mod 60))%string.
Proof.
  intros H. unfold formatDuration.
  rewrite !padded_two_digits; [reflexivity| |].
  - pose proof (Nat.mod_upper_bound seconds 60). lia.
  - apply Nat.Div0.div_lt_upper_bound. lia.
Qed.

Lemma formatDuration_clock_witness :
  125 < 100 * 60 /\ formatDuration 125 = "02:05"%string.
Proof.
  split; [lia|]. rewrite (formatDuration_clock 125); [reflexivity|lia].
Defined.

(** X2. Two different numbers of seconds are never displayed the same. *)
Theorem formatDuration_injective (a b : nat) :
  formatDuration a = formatDuration b -> a = b.
Proof.
  intros H.
  assert (Hd : a / 60 = b / 60 /\ a mod 60 = b mod 60).
  { revert H. unfold formatDuration. cbv zeta.
    generalize (Nat.mod_upper_bound a 60 ltac:(lia))
               (Nat.mod_upper_bound b 60 ltac:(lia)).
    generalize (a mod 60) (b mod 60) (a / 60) (b / 60).
    intros sa sb ma mb Ha Hb H.
    apply app_inv_length in H.
    - destruct H as [Hm Hsec]. injection Hsec as Hsec.
      split; now apply padded_inj.
    - rewrite !padded_two_digits by lia. reflexivity. }
  rewrite (Nat.div_mod_eq a 60), (Nat.div_mod_eq b 60). lia.
Qed.

Lemma formatDuration_injective_witness :
  formatDuration (1 * 60 + 5) = "01:05" /\ 1 * 60 + 5 = 65.
Proof.
  split; [reflexivity|].
  apply (formatDuration_injective (1 * 60 + 5) 65). reflexivity.
Defined.

End AudioFormatFacts.

Module EnvFacts.
Import JsString Chat ChatFacts Env.
Local Open Scope list_scope.

Lemma nonEmptyString_spec (s : string) : nonEmptyString s = true <-> s <> EmptyString.
Proof. destruct s; cbn; split; congruence. Qed.

Lemma startsWith_nonEmpty (s : string) :
  startsWith s "gsk_" = true -> nonEmptyString s = true.
Proof. destruct s; [discriminate|reflexivity]. Qed.

(** X3. What [getEnvVar] hands on is the configured value itself, it holds no
    placeholder word in any letter case, and nothing is logged for it. *)
Theorem getEnvVar_rejects_placeholders {R : StringRuntime}
    (metaEnv : gmap string string) (key value : string) (required : bool) :
  fst (getEnvVar metaEnv key required) = value -> value <> EmptyString ->
  metaEnv !! key = Some value
  /\ ~ matches placeholders (toLowerCase value)
  /\ snd (getEnvVar metaEnv key required) = [].
Proof.
  unfold getEnvVar. intros H Hne.
  destruct (metaEnv !! key) as [[|c rest]|] eqn:E; cbn [fst snd] in *;
    try congruence.
  destruct (some _ placeholders) eqn:Ep; cbn [fst snd] in *; [congruence|].
  subst value. repeat split. now apply some_includes_false.
Qed.

Lemma getEnvVar_rejects_placeholders_witness :
  ({["VITE_GROQ_API_KEY" := "gsk_Abc"]} : gmap string string) !! "VITE_GROQ_API_KEY"
  = Some "gsk_Abc"
  /\ ~ matches placeholders (toLowerCase (StringRuntime := asciiRuntime) "gsk_Abc")
  /\ snd (getEnvVar (R := asciiRuntime) {["VITE_GROQ_API_KEY" := "gsk_Abc"]} "VITE_GROQ_API_KEY" false) = [].
Proof.
  apply (getEnvVar_rejects_placeholders (R := asciiRuntime) _ _ _ false);
    [vm_compute; reflexivity | discriminate].
Defined.

(** X4. The [required] flag changes the log only; a line is logged exactly
    when the empty string is returned. *)
Theorem getEnvVar_required_only_logs {R : StringRuntime}
    (metaEnv : gmap string string) (key : string) (required : bool) :
  fst (getEnvVar metaEnv key required) = fst (getEnvVar metaEnv key (negb required))
  /\ (snd (getEnvVar metaEnv key required) = []
      <-> fst (getEnvVar metaEnv key required) <> EmptyString).
Proof.
  unfold getEnvVar.
  destruct (metaEnv !! key) as [[|c rest]|]; cbn [fst snd].
  - split; [reflexivity|]. destruct required; split; congruence.
  - destruct (some _ placeholders); cbn [fst snd]; split; try reflexivity;
      split; congruence.
  - split; [reflexivity|]. destruct required; split; congruence.
Qed.

(** X5. The service counts as configured exactly when the key variable is set,
    not empty and free of placeholder words. *)
Theorem isGroqConfigured_iff {R : StringRuntime} (metaEnv : gmap string string) :
  isGroqConfigured (env metaEnv) = true
  <-> exists key, metaEnv !! "VITE_GROQ_API_KEY" = Some key
                  /\ key <> EmptyString
                  /\ ~ matches placeholders (toLowerCase key).
Proof.
  unfold isGroqConfigured, env. cbn [groqApiKey]. unfold getEnvVar.
  destruct (metaEnv !! "VITE_GROQ_API_KEY") as [[|c rest]|] eqn:E; cbn [fst].
  - split; [discriminate|]. intros (k & Hk & Hne & _). congruence.
  - destruct (some _ placeholders) eqn:Ep; cbn [fst].
    + split; [discriminate|]. intros (k & Hk & _ & Hp).
      injection Hk as <-. apply some_includes_spec in Ep. contradiction.
    + split; [|reflexivity]. intros _. eexists. split; [reflexivity|].
      split; [discriminate|]. now apply some_includes_false.
  - split; [discriminate|]. intros (k & Hk & _). discriminate.
Qed.

(** X6. The answer of [validateGroqApiKey] is the prefix test alone, and the
    error is logged exactly for a non-empty key without the prefix. *)
Theorem validateGroqApiKey_prefix (cfg : EnvConfig) :
  fst (validateGroqApiKey cfg) = startsWith (groqApiKey cfg) "gsk_"
  /\ (snd (validateGroqApiKey cfg) = []
      <-> groqApiKey cfg = EmptyString \/ startsWith (groqApiKey cfg) "gsk_" = true).
Proof.
  unfold validateGroqApiKey. destruct (groqApiKey cfg) as [|c rest] eqn:E.
  - cbn. split; [reflexivity|]. split; auto.
  - cbn [nonEmptyString negb].
    destruct (startsWith (String c rest) "gsk_") eqn:Es; cbn [negb fst snd].
    + split; [reflexivity|]. split; auto.
    + split; [reflexivity|]. split; [discriminate|]. intros [?|?]; discriminate.
Qed.

(** X7. The build runs in development mode exactly when [MODE] is missing,
    empty or [development], and in production mode exactly when it is
    [production]; never in both. *)
Theorem environment_modes (metaEnv : gmap string string) :
  (isDevelopment metaEnv = true
   <-> metaEnv !! "MODE" = None \/ metaEnv !! "MODE" = Some EmptyString
       \/ metaEnv !! "MODE" = Some "development")
  /\ (isProduction metaEnv = true <-> metaEnv !! "MODE" = Some "production")
  /\ isDevelopment metaEnv && isProduction metaEnv = false.
Proof.
  unfold isDevelopment, isProduction, getEnvironment.
  destruct (metaEnv !! "MODE") as [[|c rest]|].
  - split; [|split]; try reflexivity.
    + split; auto.
    + split; discriminate.
  - split; [|split].
    + rewrite String.eqb_eq. split; [intros ->; auto|].
      intros [?|[?|?]]; congruence.
    + rewrite String.eqb_eq. split; congruence.
    + destruct (String.eqb_spec (String c rest) "development") as [->|]; reflexivity.
  - split; [|split]; try reflexivity.
    + split; auto.
    + split; discriminate.
Qed.

End EnvFacts.

Module GroqServiceFacts.
Import JsString Chat ChatFacts AudioUtils VoiceRecorder Env EnvFacts GroqService.

Lemma isGroqConfigured_nonEmpty cfg :
  isGroqConfigured cfg = nonEmptyString (groqApiKey cfg).
Proof. unfold isGroqConfigured. now destruct (groqApiKey cfg). Qed.

Lemma validate_fst cfg :
  fst (validateGroqApiKey cfg) = startsWith (groqApiKey cfg) "gsk_".
Proof.
  unfold validateGroqApiKey. destruct (groqApiKey cfg) as [|c rest]; [reflexivity|].
  cbn [nonEmptyString negb]. now destruct (startsWith (String c rest) "gsk_").
Qed.

(** The three ways [getGroqClient] ends when no client exists yet. *)
Lemma getGroqClient_fresh cfg :
  getGroqClient cfg None
  = if startsWith (groqApiKey cfg) "gsk_" then
      (Returned {| apiKey := groqApiKey cfg; dangerouslyAllowBrowser := true |},
       Some {| apiKey := groqApiKey cfg; dangerouslyAllowBrowser := true |})
    else if nonEmptyString (groqApiKey cfg) then
      (Threw (newError invalidKeyMessage), None)
    else (Threw (newError notConfiguredMessage), None).
Proof.
  unfold getGroqClient. rewrite isGroqConfigured_nonEmpty, validate_fst.
  cbn [truthy negb andb].
  destruct (groqApiKey cfg) as [|c rest]; [reflexivity|].
  cbn [nonEmptyString]. now destruct (startsWith (String c rest) "gsk_").
Qed.

Lemma getGroqClient_cached cfg client :
  getGroqClient cfg (Some client) = (Returned client, Some client).
Proof. reflexivity. Qed.

(** X8. With no client yet, [getGroqClient] returns one exactly for a key
    with the [gsk_] prefix. *)
Theorem getGroqClient_creates_iff (cfg : EnvConfig) :
  (exists client, fst (getGroqClient cfg None) = Returned client)
  <-> startsWith (groqApiKey cfg) "gsk_" = true.
Proof.
  rewrite getGroqClient_fresh.
  destruct (startsWith (groqApiKey cfg) "gsk_"); cbn [fst].
  - split; eauto.
  - split; [|discriminate]. intros [client H].
    destruct (nonEmptyString (groqApiKey cfg)); discriminate.
Qed.

Lemma getGroqClient_throws cfg groqClient e gc :
  getGroqClient cfg groqClient = (Threw e, gc) ->
  groqClient = None /\ gc = None
  /\ (e = newError invalidKeyMessage \/ e = newError notConfiguredMessage).
Proof.
  destruct groqClient as [client|]; [discriminate|].
  rewrite getGroqClient_fresh.
  destruct (startsWith (groqApiKey cfg) "gsk_"); [discriminate|].
  destruct (nonEmptyString (groqApiKey cfg)); intros H; injection H as <- <-; auto.
Qed.

Lemma getChatResponse_no_key cfg api messages userContext :
  groqApiKey cfg = EmptyString ->
  getChatResponse cfg api messages userContext None
  = (Threw (newError ("AI service error: " ++ notConfiguredMessage)), None).
Proof.
  intros Hk. unfold getChatResponse, getChatResponse_try.
  rewrite getGroqClient_fresh, Hk. reflexivity.
Qed.

Lemma transcribeAudio_no_key cfg api audioBlob :
  groqApiKey cfg = EmptyString ->
  transcribeAudio cfg api audioBlob None
  = (Threw (newError ("Transcription error: " ++ notConfiguredMessage)), None).
Proof.
  intros Hk. unfold transcribeAudio, transcribeAudio_try.
  rewrite getGroqClient_fresh, Hk. reflexivity.
Qed.

Lemma getChatResponse_malformed_key cfg api messages userContext :
  groqApiKey cfg <> EmptyString -> startsWith (groqApiKey cfg) "gsk_" = false ->
  getChatResponse cfg api messages userContext None
  = (Threw (newError chatNotConfiguredMessage), None).
Proof.
  intros Hk Hp. unfold getChatResponse, getChatResponse_try.
  rewrite getGroqClient_fresh, Hp.
  apply nonEmptyString_spec in Hk. rewrite Hk. reflexivity.
Qed.

Lemma transcribeAudio_malformed_key cfg api audioBlob :
  groqApiKey cfg <> EmptyString -> startsWith (groqApiKey cfg) "gsk_" = false ->
  transcribeAudio cfg api audioBlob None
  = (Threw (newError transcriptionNotConfiguredMessage), None).
Proof.
  intros Hk Hp. unfold transcribeAudio, transcribeAudio_try.
  rewrite getGroqClient_fresh, Hp.
  apply nonEmptyString_spec in Hk. rewrite Hk. reflexivity.
Qed.

(** X9. The module variable: a client that was returned is kept and returned by
    every later call, whatever the configuration says then; a call that
    throws leaves the variable empty, so the next call validates again. *)
Theorem getGroqClient_keeps_client
    (cfg : EnvConfig) (groqClient : option Groq) :
  match getGroqClient cfg groqClient with
  | (Returned client, groqClient') =>
      groqClient' = Some client
      /\ (groqClient = None -> apiKey client = groqApiKey cfg)
      /\ forall cfg', getGroqClient cfg' groqClient' = (Returned client, groqClient')
  | (Threw e, groqClient') =>
      groqClient = None /\ groqClient' = None
      /\ (e = newError invalidKeyMessage \/ e = newError notConfiguredMessage)
  end.
Proof.
  destruct groqClient as [client|].
  - rewrite getGroqClient_cached. repeat split. discriminate.
  - rewrite getGroqClient_fresh.
    destruct (startsWith (groqApiKey cfg) "gsk_").
    + repeat split.
    + destruct (nonEmptyString (groqApiKey cfg)); repeat split; auto.
Qed.

Lemma getChatResponse_try_nonEmpty cfg api messages userContext groqClient r gc :
  getChatResponse_try cfg api messages userContext groqClient = (Returned r, gc) ->
  r <> EmptyString.
Proof.
  unfold getChatResponse_try.
  destruct (getGroqClient cfg groqClient) as [[client|e] gc']; [|discriminate].
  destruct (createChatCompletion api client _) as [completion|e]; [|discriminate].
  destruct (firstContent completion) as [[|c rest]|]; try discriminate.
  intros H. injection H as <- _. discriminate.
Qed.

(** X10. How [getChatResponse] ends: with a reply that is not empty, or by
    throwing an [Error] with one of three kinds of message. *)
Theorem getChatResponse_outcome
    (cfg : EnvConfig) (api : Api) (messages : list Message)
    (userContext : option string) (groqClient : option Groq) :
  match fst (getChatResponse cfg api messages userContext groqClient) with
  | Returned response => response <> EmptyString
  | Threw e =>
      exists message,
        e = ErrorObject "Error" message
        /\ (message = chatNotConfiguredMessage
            \/ message = chatFailedMessage
            \/ exists cause, message = "AI service error: " ++ cause
                             /\ ~ substring_of "API key" cause)
  end.
Proof.
  unfold getChatResponse.
  destruct (getChatResponse_try cfg api messages userContext groqClient)
    as [[r|e] gc] eqn:E; cbn [fst].
  - eapply getChatResponse_try_nonEmpty, E.
  - destruct e as [name message|]; cbn [getChatResponse_catch].
    + destruct (includes message "API key") eqn:Ei.
      * eexists. split; [reflexivity|]. now left.
      * eexists. split; [reflexivity|]. right. right. eexists. split; [reflexivity|].
        rewrite <- includes_spec. congruence.
    + eexists. split; [reflexivity|]. right. now left.
Qed.

(** X11. Without a key no request is made, whatever the SDK would answer; the
    chat and the transcription throw the messages that wrap the
    configuration error, which does not hold the words [API key]. *)
Theorem service_without_key
    (cfg : EnvConfig) (api : Api) (messages : list Message)
    (userContext : option string) (audioBlob : Blob) :
  groqApiKey cfg = EmptyString ->
  getChatResponse cfg api messages userContext None
  = (Threw (newError ("AI service error: " ++ notConfiguredMessage)), None)
  /\ transcribeAudio cfg api audioBlob None
     = (Threw (newError ("Transcription error: " ++ notConfiguredMessage)), None).
Proof.
  intros Hk. split;
    [now apply getChatResponse_no_key | now apply transcribeAudio_no_key].
Qed.

Lemma service_without_key_witness :
  getChatResponse {| groqApiKey := EmptyString; debugMode := false |}
    {| createChatCompletion := fun _ _ => Rejected OtherValue;
       createTranscription := fun _ _ => Rejected OtherValue |}
    [{| role := user; content := "hello" |}] None None
  = (Threw (newError ("AI service error: " ++ notConfiguredMessage)), None)
  /\ transcribeAudio {| groqApiKey := EmptyString; debugMode := false |}
       {| createChatCompletion := fun _ _ => Rejected OtherValue;
          createTranscription := fun _ _ => Rejected OtherValue |}
       fragment1 None
     = (Threw (newError ("Transcription error: " ++ notConfiguredMessage)), None).
Proof.
  apply service_without_key. reflexivity.
Defined.

(** X12. With a key that lacks the [gsk_] prefix no request is made either, and
    both functions report the service as not configured. *)
Theorem service_with_malformed_key
    (cfg : EnvConfig) (api : Api) (messages : list Message)
    (userContext : option string) (audioBlob : Blob) :
  groqApiKey cfg <> EmptyString -> startsWith (groqApiKey cfg) "gsk_" = false ->
  getChatResponse cfg api messages userContext None
  = (Threw (newError chatNotConfiguredMessage), None)
  /\ transcribeAudio cfg api audioBlob None
     = (Threw (newError transcriptionNotConfiguredMessage), None).
Proof.
  intros Hk Hp. split;
    [now apply getChatResponse_malformed_key
    | now apply transcribeAudio_malformed_key].
Qed.

Lemma service_with_malformed_key_witness :
  getChatResponse {| groqApiKey := "sk-123"; debugMode := false |}
    {| createChatCompletion := fun _ _ => Rejected OtherValue;
       createTranscription := fun _ _ => Rejected OtherValue |}
    [{| role := user; content := "hello" |}] None None
  = (Threw (newError chatNotConfiguredMessage), None)
  /\ transcribeAudio {| groqApiKey := "sk-123"; debugMode := false |}
       {| createChatCompletion := fun _ _ => Rejected OtherValue;
          createTranscription := fun _ _ => Rejected OtherValue |}
       fragment1 None
     = (Threw (newError transcriptionNotConfiguredMessage), None).
Proof.
  apply service_with_malformed_key; [discriminate|reflexivity].
Defined.

(** X13. How [transcribeAudio] ends: with what the SDK answered for the blob
    sent as the file [audio.webm], or by throwing an [Error] with one of
    four kinds of message. *)
Theorem transcribeAudio_outcome
    (cfg : EnvConfig) (api : Api) (audioBlob : Blob) (groqClient : option Groq) :
  match fst (transcribeAudio cfg api audioBlob groqClient) with
  | Returned response =>
      exists client request transcription,
        createTranscription api client request = Fulfilled transcription
        /\ fileName (file request) = "audio.webm"
        /\ fileData (file request) = blobData audioBlob
        /\ fileType (file request) = blobType audioBlob
        /\ text response = transcriptionText transcription
        /\ responseDuration response = transcriptionDuration transcription
  | Threw e =>
      exists message,
        e = ErrorObject "Error" message
        /\ (In message [transcriptionNotConfiguredMessage; fileTooLargeMessage;
                        transcriptionFailedMessage]
            \/ exists cause, message = "Transcription error: " ++ cause
                             /\ ~ substring_of "API key" cause
                             /\ ~ substring_of "file size" cause)
  end.
Proof.
  unfold transcribeAudio, transcribeAudio_try.
  destruct (getGroqClient cfg groqClient) as [[client|e] gc'] eqn:Eg.
  - destruct (createTranscription api client _) as [transcription|e] eqn:Ec;
      cbn [fst].
    + eexists _, _, _. split; [exact Ec|]. repeat split.
    + destruct e as [name message|]; cbn [transcribeAudio_catch].
      * destruct (includes message "API key") eqn:Ei;
          [eexists; split; [reflexivity|]; left; cbn; auto|].
        destruct (includes message "file size") eqn:Ef;
          [eexists; split; [reflexivity|]; left; cbn; auto|].
        eexists. split; [reflexivity|]. right. eexists. split; [reflexivity|].
        rewrite <- !includes_spec. split; congruence.
      * eexists. split; [reflexivity|]. left. cbn. auto.
  - cbn [fst]. destruct (getGroqClient_throws _ _ _ _ Eg) as (_ & _ & [-> | ->]).
    + eexists. split; [reflexivity|]. left. cbn. auto.
    + eexists. split; [reflexivity|]. right. eexists. split; [reflexivity|].
      rewrite <- !includes_spec. split; vm_compute; congruence.
Qed.

(** X14. [analyzeAssessment] never throws; it returns the empty string exactly
    when getting the recommendations failed. *)
Theorem analyzeAssessment_never_throws
    (cfg : EnvConfig) (api : Api) (answers : gmap nat bool)
    (questions : list Question) (groqClient : option Groq) :
  exists recommendations,
    fst (analyzeAssessment cfg api answers questions groqClient)
    = Returned recommendations
    /\ (recommendations = EmptyString
        <-> exists e, fst (analyzeAssessment_try cfg api answers questions groqClient)
                      = Threw e).
Proof.
  unfold analyzeAssessment.
  destruct (analyzeAssessment_try cfg api answers questions groqClient)
    as [[r|e] gc] eqn:E; cbn [fst].
  - exists r. split; [reflexivity|]. split.
    + intros ->. exfalso. revert E. unfold analyzeAssessment_try.
      destruct (getGroqClient cfg groqClient) as [[client|e] gc']; [|discriminate].
      destruct (createChatCompletion api client _) as [completion|e]; [|discriminate].
      destruct (firstContent completion) as [[|c rest]|]; discriminate.
    + intros [e H]. discriminate.
  - exists EmptyString. split; [reflexivity|]. split; eauto.
Qed.

End GroqServiceFacts.

Module ChatPageFacts.
Import JsString Chat ChatFacts AudioUtils VoiceRecorder Env EnvFacts GroqService
  GroqServiceFacts ChatPage.

Lemma generateFallbackResponse_nonEmpty {R : StringRuntime} userMessage :
  generateFallbackResponse userMessage <> EmptyString.
Proof.
  unfold generateFallbackResponse. cbv zeta.
  repeat match goal with |- context [if ?b then _ else _] => destruct b end;
    discriminate.
Qed.

Lemma getChatResponse_nonEmpty cfg api messages userContext groqClient r gc :
  getChatResponse cfg api messages userContext groqClient = (Returned r, gc) ->
  r <> EmptyString.
Proof.
  unfold getChatResponse.
  destruct (getChatResponse_try cfg api messages userContext groqClient)
    as [[r'|e] gc'] eqn:E; [|discriminate].
  intros H. injection H as <- _. eapply getChatResponse_try_nonEmpty, E.
Qed.

(** X15. [getAIResponse] never throws and never answers with the empty string:
    the reply is what the service returned for the conversation followed
    by the user's message, or else the canned response. *)
Theorem getAIResponse_always_replies {R : StringRuntime}
    (cfg : EnvConfig) (api : Api) (messages : list ChatMessage)
    (userMessage : string) (groqClient : option Groq) :
  exists reply,
    fst (getAIResponse cfg api messages userMessage groqClient) = Returned reply
    /\ reply <> EmptyString
    /\ (reply = generateFallbackResponse userMessage
        \/ fst (getChatResponse cfg api
                  (map said messages ++ [{| role := user; content := userMessage |}])%list
                  None groqClient)
           = Returned reply).
Proof.
  unfold getAIResponse. destruct (isGroqAvailable cfg); cbn [negb].
  - change (map (fun msg => {| role := chatRole msg; content := chatContent msg |})
              messages) with (map said messages).
    destruct (getChatResponse cfg api _ None groqClient) as [[r|e] gc] eqn:E;
      cbn [fst].
    + exists r. split; [reflexivity|]. split; [|now right].
      eapply getChatResponse_nonEmpty, E.
    + eexists. split; [reflexivity|]. split; [|now left].
      apply generateFallbackResponse_nonEmpty.
  - eexists. split; [reflexivity|]. split; [|now left].
    apply generateFallbackResponse_nonEmpty.
Qed.

Lemma getAIResponse_no_valid_key {R : StringRuntime} cfg api messages userMessage :
  startsWith (groqApiKey cfg) "gsk_" = false ->
  getAIResponse cfg api messages userMessage None
  = (Returned (generateFallbackResponse userMessage), None).
Proof.
  intros Hp. unfold getAIResponse, isGroqAvailable.
  rewrite isGroqConfigured_nonEmpty.
  destruct (nonEmptyString (groqApiKey cfg)) eqn:Hk; cbn [negb]; [|reflexivity].
  apply nonEmptyString_spec in Hk.
  now rewrite getChatResponse_malformed_key.
Qed.

(** X16. Without a key that starts with [gsk_] the reply is the canned response,
    whatever the SDK would answer, and no client is created. *)
Theorem getAIResponse_falls_back {R : StringRuntime}
    (cfg : EnvConfig) (api : Api) (messages : list ChatMessage)
    (userMessage : string) :
  startsWith (groqApiKey cfg) "gsk_" = false ->
  getAIResponse cfg api messages userMessage None
  = (Returned (generateFallbackResponse userMessage), None).
Proof.
  intros Hp. unfold getAIResponse, isGroqAvailable.
  rewrite isGroqConfigured_nonEmpty.
  destruct (nonEmptyString (groqApiKey cfg)) eqn:Hk; cbn [negb]; [|reflexivity].
  apply nonEmptyString_spec in Hk.
  now rewrite getChatResponse_malformed_key.
Qed.

Lemma getAIResponse_falls_back_witness :
  getAIResponse (R := asciiRuntime) {| groqApiKey := "sk-123"; debugMode := false |}
    {| createChatCompletion :=
         fun _ _ => Fulfilled {| choices := [{| choiceMessage :=
                       Some {| messageContent := Some "from the model" |} |}] |};
       createTranscription := fun _ _ => Rejected OtherValue |}
    [] "I want to leave" None
  = (Returned leavingResponse, None).
Proof.
  apply (getAIResponse_falls_back (R := asciiRuntime) {| groqApiKey := "sk-123"; debugMode := false |}).
  reflexivity.
Defined.


(** *** The page machine *)

Lemma trimStart_blank s :
  forallb isWhiteSpace (list_ascii_of_string s) = true <-> trimStart s = EmptyString.
Proof.
  induction s as [|c s IH]; cbn [list_ascii_of_string forallb trimStart].
  - split; reflexivity.
  - destruct (isWhiteSpace c); cbn [andb]; [exact IH|]. split; discriminate.
Qed.

Lemma trimEnd_empty s :
  trimEnd s = EmptyString <-> forallb isWhiteSpace (list_ascii_of_string s) = true.
Proof.
  induction s as [|c s IH]; cbn [list_ascii_of_string forallb trimEnd].
  - split; reflexivity.
  - destruct (trimEnd s) eqn:E.
    + destruct (isWhiteSpace c); cbn [andb].
      * split; [intros _; now apply IH|reflexivity].
      * split; discriminate.
    + split; [discriminate|]. intros H. apply andb_prop in H as [_ H].
      apply IH in H. discriminate.
Qed.

Lemma trimStart_head s c rest :
  trimStart s = String c rest -> isWhiteSpace c = false.
Proof.
  induction s as [|a s IH]; cbn [trimStart]; [discriminate|].
  destruct (isWhiteSpace a) eqn:E; [exact IH|]. intros H. injection H as <- _.
  exact E.
Qed.

(** A text is trimmed to nothing exactly when it is all white space. *)
Lemma trim_blank s :
  trim s = EmptyString <-> forallb isWhiteSpace (list_ascii_of_string s) = true.
Proof.
  unfold trim. rewrite trimEnd_empty. split.
  - intros H. destruct (trimStart s) as [|c rest] eqn:E.
    + now apply trimStart_blank.
    + apply trimStart_head in E. cbn [list_ascii_of_string forallb] in H.
      rewrite E in H. discriminate.
  - intros H. apply trimStart_blank in H. now rewrite H.
Qed.

Lemma map_said_snoc msgs m :
  map said (msgs ++ [m])%list = (map said msgs ++ [said m])%list.
Proof. apply map_app. Qed.

Lemma pending_empty s :
  oneAtATime s -> isLoading (page s) = false -> pending s = [].
Proof.
  unfold oneAtATime. destruct (pending s) as [|call [|]]; [reflexivity| |tauto].
  intros (H & _) H'. congruence.
Qed.

Lemma inputEnabled_spec p :
  inputEnabled p = true <-> showVoiceRecorder p = false /\ isLoading p = false.
Proof.
  unfold inputEnabled. destruct (showVoiceRecorder p), (isLoading p); cbn;
    split; try tauto; try discriminate; intros [? ?]; discriminate.
Qed.

Lemma getAIResponse_returns {R : StringRuntime} cfg api messages userMessage groqClient :
  exists reply client,
    getAIResponse cfg api messages userMessage groqClient = (Returned reply, client)
    /\ reply <> EmptyString.
Proof.
  unfold getAIResponse. destruct (isGroqAvailable cfg); cbn [negb].
  - destruct (getChatResponse cfg api _ None groqClient) as [[r|e] gc] eqn:E.
    + exists r, gc. split; [reflexivity|]. eapply getChatResponse_nonEmpty, E.
    + eexists _, _. split; [reflexivity|]. apply generateFallbackResponse_nonEmpty.
  - eexists _, _. split; [reflexivity|]. apply generateFallbackResponse_nonEmpty.
Qed.

Lemma pageStep_oneAtATime {R : StringRuntime} cfg api s e s' :
  oneAtATime s -> pageStep cfg api s e = Some s' -> oneAtATime s'.
Proof.
  intros Hinv Hstep. destruct e; cbn [pageStep] in Hstep.
  - destruct (inputEnabled (page s)) eqn:En; [|discriminate].
    apply inputEnabled_spec in En as [Hshow Hload].
    pose proof (pending_empty _ Hinv Hload) as Hp.
    injection Hstep as <-. unfold oneAtATime. cbn. now rewrite Hp.
  - destruct (inputEnabled (page s)) eqn:En; [|discriminate].
    apply inputEnabled_spec in En as [Hshow Hload].
    pose proof (pending_empty _ Hinv Hload) as Hp.
    unfold handleSendText_start in Hstep.
    destruct (trim (input (page s))) as [|c rest] eqn:Et.
    + injection Hstep as <-. unfold oneAtATime. cbn. now rewrite Hp.
    + injection Hstep as <-. unfold oneAtATime. cbn. rewrite Hp. cbn.
      split; [reflexivity|]. split; [exact Hshow|]. apply map_said_snoc.
  - destruct (inputEnabled (page s)) eqn:En; [|discriminate].
    apply inputEnabled_spec in En as [Hshow Hload].
    pose proof (pending_empty _ Hinv Hload) as Hp.
    injection Hstep as <-. unfold oneAtATime. cbn. now rewrite Hp.
  - destruct (showVoiceRecorder (page s)) eqn:Hshow; [|discriminate].
    injection Hstep as <-. unfold oneAtATime in *. cbn.
    destruct (pending s) as [|call [|]]; [exact Hinv| |tauto].
    destruct Hinv as (_ & H & _). congruence.
  - destruct (showVoiceRecorder (page s)) eqn:Hshow; [|discriminate].
    destruct (isLoading (page s)) eqn:Hload; [discriminate|].
    pose proof (pending_empty _ Hinv Hload) as Hp.
    injection Hstep as <-. unfold oneAtATime. cbn. rewrite Hp. cbn. auto.
  - unfold oneAtATime in Hinv.
    destruct (pending s) as [|call [|]] eqn:Hp; [|clear Hp|tauto].
    + rewrite lookup_nil in Hstep. discriminate.
    + destruct Hinv as (Hload & Hshow & Hup).
      destruct k as [|k]; [|rewrite lookup_cons, lookup_nil in Hstep; discriminate].
      cbn [lookup list_lookup mbind option_bind] in Hstep.
      destruct call as [history userMessage|history audioBlob|history userMessage];
        cbn [settle] in Hstep.
      * destruct (getAIResponse cfg api history userMessage (groqClient s))
          as [response client].
        injection Hstep as <-. unfold oneAtATime. cbn. reflexivity.
      * destruct (transcribeAudio cfg api audioBlob (groqClient s))
          as [[t|error] client].
        -- injection Hstep as <-. unfold oneAtATime. cbn.
           split; [exact Hload|]. split; [exact Hshow|].
           cbn in Hup. rewrite map_said_snoc, Hup. reflexivity.
        -- injection Hstep as <-. unfold oneAtATime. cbn. reflexivity.
      * destruct (getAIResponse cfg api history userMessage (groqClient s))
          as [response client].
        injection Hstep as <-. unfold oneAtATime. cbn. reflexivity.
Qed.

Lemma pageRun_oneAtATime {R : StringRuntime} cfg api evs : forall s s',
  oneAtATime s -> pageRun cfg api s evs = Some s' -> oneAtATime s'.
Proof.
  induction evs as [|e evs IH]; intros s s' Hinv Hrun; cbn [pageRun] in Hrun.
  - now injection Hrun as <-.
  - destruct (pageStep cfg api s e) as [s1|] eqn:E; [|discriminate].
    eapply IH; [|exact Hrun]. eapply pageStep_oneAtATime; eauto.
Qed.

Lemma page_invariant {R : StringRuntime} cfg api now evs s :
  pageRun cfg api (initialSession now) evs = Some s ->
  oneAtATime s /\ (showVoiceRecorder (page s) = true -> isLoading (page s) = false).
Proof.
  intros Hrun.
  assert (Hinv : oneAtATime s)
    by (eapply pageRun_oneAtATime; [|exact Hrun]; reflexivity).
  split; [exact Hinv|]. unfold oneAtATime in Hinv.
  destruct (pending s) as [|call [|]]; [| |tauto].
  - now intros _.
  - destruct Hinv as (_ & Hshow & _). congruence.
Qed.

(** X17. Whatever the user does and however the service answers, the page
    awaits at most one call; it shows the loading dots exactly while it
    does, never with the recorder on screen, and the conversation the
    waiting handler will send is the one on screen. *)
Theorem page_one_request_at_a_time {R : StringRuntime}
    (cfg : EnvConfig) (api : Api) (now : nat) (evs : list PageEvent) (s : Session) :
  pageRun cfg api (initialSession now) evs = Some s ->
  oneAtATime s
  /\ (isLoading (page s) = true <-> pending s <> [])
  /\ (showVoiceRecorder (page s) = true -> isLoading (page s) = false).
Proof.
  intros Hrun.
  assert (Hinv : oneAtATime s)
    by (eapply pageRun_oneAtATime; [|exact Hrun]; reflexivity).
  split; [exact Hinv|]. unfold oneAtATime in Hinv.
  destruct (pending s) as [|call [|]]; [| |tauto].
  - rewrite Hinv. split; [split; [discriminate|congruence]|reflexivity].
  - destruct Hinv as (Hload & Hshow & _). rewrite Hload, Hshow.
    split; [split; [discriminate|reflexivity]|discriminate].
Qed.

Lemma page_one_request_at_a_time_witness :
  exists s,
    pageRun (R := asciiRuntime) {| groqApiKey := EmptyString; debugMode := false |}
      {| createChatCompletion := fun _ _ => Rejected OtherValue;
         createTranscription := fun _ _ => Rejected OtherValue |}
      (initialSession 0) [TypeInput "hello"; SubmitText 1] = Some s
    /\ pending s <> [] /\ isLoading (page s) = true.
Proof.
  eexists. split; [vm_compute; reflexivity|].
  destruct (page_one_request_at_a_time (R := asciiRuntime)
              {| groqApiKey := EmptyString; debugMode := false |}
              {| createChatCompletion := fun _ _ => Rejected OtherValue;
                 createTranscription := fun _ _ => Rejected OtherValue |}
              0 [TypeInput "hello"; SubmitText 1] _ eq_refl) as (_ & H & _).
  split; [discriminate|]. apply H. discriminate.
Defined.


(** *** One exchange *)

Ltac setters :=
  unfold handleSendText_settle, handleSendVoice_start, handleSendVoice_catch,
    setIsLoading, setMessages, setPageError, setInput, setShowVoiceRecorder;
  cbn [messages input isLoading showVoiceRecorder pageError app take drop].

Lemma blank_submit_iff {R : StringRuntime} cfg api s now :
  inputEnabled (page s) = true ->
  pageStep cfg api s (SubmitText now) = Some s <-> trim (input (page s)) = EmptyString.
Proof.
  intros En. cbn [pageStep]. rewrite En. unfold handleSendText_start.
  destruct (trim (input (page s))) as [|c rest] eqn:Et.
  - split; [reflexivity|]. intros _. now destruct s.
  - split; [|discriminate]. intros H. injection H as H.
    apply (f_equal (fun s => isLoading (page s))) in H. cbn in H.
    apply inputEnabled_spec in En as [_ Hload]. congruence.
Qed.

(** X18. A message of white space only is ignored: Enter changes nothing, and
    among ASCII texts only such a message is ignored. *)
Theorem blank_message_is_ignored {R : StringRuntime}
    (cfg : EnvConfig) (api : Api) (s : Session) (now : nat) :
  isAsciiText (input (page s)) = true ->
  inputEnabled (page s) = true ->
  pageStep cfg api s (SubmitText now) = Some s
  <-> forallb isWhiteSpace (list_ascii_of_string (input (page s))) = true.
Proof.
  intros _ En. rewrite <- trim_blank. now apply blank_submit_iff.
Qed.

Lemma blank_message_is_ignored_witness :
  pageStep (R := asciiRuntime) {| groqApiKey := EmptyString; debugMode := false |}
    {| createChatCompletion := fun _ _ => Rejected OtherValue;
       createTranscription := fun _ _ => Rejected OtherValue |}
    {| page := setInput "   " (initialPage 0); groqClient := None; pending := [] |}
    (SubmitText 1)
  = Some {| page := setInput "   " (initialPage 0); groqClient := None; pending := [] |}.
Proof.
  apply (blank_message_is_ignored (R := asciiRuntime)); reflexivity.
Defined.

(** X19. An ASCII text message in a session of the page: the trimmed text is shown as
    the user's message at once and the input is cleared; when the reply is
    there, it is shown below, it is not empty, and the page is as before
    in everything else. The error branch of [handleSendText] is never
    taken. *)
Theorem text_exchange {R : StringRuntime}
    (cfg : EnvConfig) (api : Api) (now : nat) (evs : list PageEvent) (s : Session)
    (now1 now2 : nat) (audioUrl : positive) :
  pageRun cfg api (initialSession now) evs = Some s ->
  isAsciiText (input (page s)) = true ->
  inputEnabled (page s) = true ->
  trim (input (page s)) <> EmptyString ->
  exists reply client,
    getAIResponse cfg api (messages (page s)) (trim (input (page s))) (groqClient s)
    = (Returned reply, client)
    /\ reply <> EmptyString
    /\ pageStep cfg api s (SubmitText now1)
       = Some {| page := {| messages :=
                              (messages (page s)
                               ++ [textMessage user (trim (input (page s))) now1])%list;
                            input := EmptyString; isLoading := true;
                            showVoiceRecorder := false; pageError := None |};
                 groqClient := groqClient s;
                 pending := [AwaitReply (messages (page s)) (trim (input (page s)))] |}
    /\ pageRun cfg api s [SubmitText now1; Settle 0 now2 audioUrl]
       = Some {| page := {| messages :=
                              (messages (page s)
                               ++ [textMessage user (trim (input (page s))) now1;
                                   textMessage assistant reply now2])%list;
                            input := EmptyString; isLoading := false;
                            showVoiceRecorder := false; pageError := None |};
                 groqClient := client; pending := [] |}.
Proof.
  intros Hrun _ En Ht.
  assert (Hinv : oneAtATime s)
    by (eapply pageRun_oneAtATime; [|exact Hrun]; reflexivity).
  pose proof En as En'. apply inputEnabled_spec in En' as [Hshow Hload].
  pose proof (pending_empty _ Hinv Hload) as Hp.
  destruct (getAIResponse_returns cfg api (messages (page s))
              (trim (input (page s))) (groqClient s)) as (reply & client & Hr & Hne).
  exists reply, client. split; [exact Hr|]. split; [exact Hne|].
  assert (Hstep : pageStep cfg api s (SubmitText now1)
       = Some {| page := {| messages :=
                              (messages (page s)
                               ++ [textMessage user (trim (input (page s))) now1])%list;
                            input := EmptyString; isLoading := true;
                            showVoiceRecorder := false; pageError := None |};
                 groqClient := groqClient s;
                 pending := [AwaitReply (messages (page s)) (trim (input (page s)))] |}).
  { cbn [pageStep]. rewrite En. unfold handleSendText_start.
    destruct (trim (input (page s))) as [|c rest]; [congruence|].
    rewrite Hp. setters. now rewrite Hshow. }
  split; [exact Hstep|].
  cbn [pageRun]. rewrite Hstep. cbn [mbind option_bind pageStep pending page
    ChatPage.groqClient lookup list_lookup settle].
  rewrite Hr. setters. rewrite <- app_assoc. reflexivity.
Qed.

Lemma text_exchange_witness :
  exists s,
    pageRun (R := asciiRuntime) {| groqApiKey := EmptyString; debugMode := false |}
      {| createChatCompletion := fun _ _ => Rejected OtherValue;
         createTranscription := fun _ _ => Rejected OtherValue |}
      (initialSession 0) [TypeInput "  I want to leave "; SubmitText 1; Settle 0 2 1%positive]
    = Some s
    /\ map said (messages (page s))
       = [{| role := assistant; content := greeting |};
          {| role := user; content := "I want to leave" |};
          {| role := assistant; content := leavingResponse |}].
Proof.
  destruct (text_exchange (R := asciiRuntime) {| groqApiKey := EmptyString; debugMode := false |}
      {| createChatCompletion := fun _ _ => Rejected OtherValue;
         createTranscription := fun _ _ => Rejected OtherValue |}
      0 [TypeInput "  I want to leave "] _ 1 2 1%positive eq_refl eq_refl eq_refl)
    as (reply & client & Hr & _ & _ & Hrun); [discriminate|].
  injection Hr as <- <-. eexists. split; [exact Hrun|reflexivity].
Defined.


Lemma transcribeAudio_throws cfg api audioBlob groqClient e client :
  transcribeAudio cfg api audioBlob groqClient = (Threw e, client) ->
  exists message, e = ErrorObject "Error" message.
Proof.
  unfold transcribeAudio.
  destruct (transcribeAudio_try cfg api audioBlob groqClient) as [[r|e'] gc];
    [discriminate|].
  intros H. injection H as <- _. unfold transcribeAudio_catch, newError.
  destruct e' as [name message|]; [|eauto].
  destruct (includes message "API key"); [eauto|].
  destruct (includes message "file size"); eauto.
Qed.

(** X20. A voice message in a session of the page. The recorder is hidden and
    the loading dots are shown at once. If the transcription fails, the
    conversation stays as it was and the page shows the message of the
    error the service threw; otherwise the transcript is shown as the
    user's message with the recording attached, and then the reply below
    it. *)
Theorem voice_exchange {R : StringRuntime}
    (cfg : EnvConfig) (api : Api) (now : nat) (evs : list PageEvent) (s : Session)
    (audioBlob : Blob) (now1 now2 : nat) (audioUrl audioUrl2 : positive) :
  pageRun cfg api (initialSession now) evs = Some s ->
  showVoiceRecorder (page s) = true ->
  exists s1,
    pageStep cfg api s (RecorderSend audioBlob) = Some s1
    /\ showVoiceRecorder (page s1) = false
    /\ isLoading (page s1) = true
    /\ match transcribeAudio cfg api audioBlob (groqClient s) with
       | (Threw e, client) =>
           exists message,
             e = ErrorObject "Error" message
             /\ pageStep cfg api s1 (Settle 0 now1 audioUrl)
                = Some {| page := {| messages := messages (page s);
                                     input := input (page s);
                                     isLoading := false;
                                     showVoiceRecorder := false;
                                     pageError := Some message |};
                          groqClient := client; pending := [] |}
       | (Returned t, client) =>
           exists reply client',
             getAIResponse cfg api (messages (page s)) (text t) client
             = (Returned reply, client')
             /\ reply <> EmptyString
             /\ pageRun cfg api s1 [Settle 0 now1 audioUrl; Settle 0 now2 audioUrl2]
                = Some {| page := {| messages :=
                                       (messages (page s)
                                        ++ [voiceChatMessage audioBlob audioUrl t now1;
                                            textMessage assistant reply now2])%list;
                                     input := input (page s);
                                     isLoading := false;
                                     showVoiceRecorder := false;
                                     pageError := None |};
                          groqClient := client'; pending := [] |}
       end.
Proof.
  intros Hrun Hshow.
  destruct (page_invariant _ _ _ _ _ Hrun) as (Hinv & Hload).
  specialize (Hload Hshow).
  pose proof (pending_empty _ Hinv Hload) as Hp.
  eexists. split.
  { cbn [pageStep]. rewrite Hshow, Hload, Hp. cbn [andb negb app]. reflexivity. }
  split; [reflexivity|]. split; [reflexivity|].
  cbn [pageStep pageRun pending page ChatPage.groqClient lookup list_lookup
       mbind option_bind settle].
  destruct (transcribeAudio cfg api audioBlob (groqClient s)) as [[t|e] client] eqn:Et.
  - destruct (getAIResponse_returns cfg api (messages (page s)) (text t) client)
      as (reply & client' & Hr & Hne).
    exists reply, client'. split; [exact Hr|]. split; [exact Hne|].
    cbn [pageStep pageRun pending page ChatPage.groqClient lookup list_lookup
         mbind option_bind settle take drop app].
    rewrite Hr. setters. rewrite <- app_assoc. reflexivity.
  - destruct (transcribeAudio_throws _ _ _ _ _ _ Et) as [message ->].
    exists message. split; [reflexivity|]. setters. reflexivity.
Qed.


Lemma voice_exchange_witness :
  exists s1,
    pageStep (R := asciiRuntime) {| groqApiKey := EmptyString; debugMode := false |}
      {| createChatCompletion := fun _ _ => Rejected OtherValue;
         createTranscription := fun _ _ => Rejected OtherValue |}
      {| page := setShowVoiceRecorder true (initialPage 0); groqClient := None;
         pending := [] |}
      (RecorderSend fragment1) = Some s1
    /\ showVoiceRecorder (page s1) = false
    /\ isLoading (page s1) = true.
Proof.
  destruct (voice_exchange (R := asciiRuntime) {| groqApiKey := EmptyString; debugMode := false |}
      {| createChatCompletion := fun _ _ => Rejected OtherValue;
         createTranscription := fun _ _ => Rejected OtherValue |}
      0 [OpenRecorder] _ fragment1 1 2 1%positive 2%positive eq_refl eq_refl)
    as (s1 & H1 & H2 & H3 & _).
  exists s1. repeat split; assumption.
Defined.

Lemma no_key_no_client_step {R : StringRuntime} cfg api s e s' :
  groqApiKey cfg = EmptyString -> groqClient s = None ->
  pageStep cfg api s e = Some s' -> groqClient s' = None.
Proof.
  intros Hk Hc Hstep. destruct e; cbn [pageStep] in Hstep.
  - destruct (inputEnabled (page s)); [|discriminate]. now injection Hstep as <-.
  - destruct (inputEnabled (page s)); [|discriminate].
    destruct (handleSendText_start now (page s)) as [p [u|]];
      now injection Hstep as <-.
  - destruct (inputEnabled (page s)); [|discriminate]. now injection Hstep as <-.
  - destruct (showVoiceRecorder (page s)); [|discriminate].
    now injection Hstep as <-.
  - destruct (showVoiceRecorder (page s) && negb (isLoading (page s)));
      [|discriminate].
    now injection Hstep as <-.
  - destruct (pending s !! k) as [call|]; [|discriminate].
    cbn [mbind option_bind] in Hstep. rewrite Hc in Hstep.
    destruct call as [history userMessage|history audioBlob|history userMessage];
      cbn [settle] in Hstep.
    + rewrite getAIResponse_no_valid_key in Hstep by now rewrite Hk.
      now injection Hstep as <-.
    + rewrite transcribeAudio_no_key in Hstep by exact Hk.
      now injection Hstep as <-.
    + rewrite getAIResponse_no_valid_key in Hstep by now rewrite Hk.
      now injection Hstep as <-.
Qed.

Lemma no_key_no_client {R : StringRuntime} cfg api evs : forall s s',
  groqApiKey cfg = EmptyString -> groqClient s = None ->
  pageRun cfg api s evs = Some s' -> groqClient s' = None.
Proof.
  induction evs as [|e evs IH]; intros s s' Hk Hc Hrun; cbn [pageRun] in Hrun.
  - now injection Hrun as <-.
  - destruct (pageStep cfg api s e) as [s1|] eqn:E; [|discriminate].
    eapply IH; [exact Hk| |exact Hrun]. eapply no_key_no_client_step; eauto.
Qed.

(** X21. Without a key a text message still gets its canned reply, but a voice
    message is lost: nothing is added to the conversation and the page
    shows the configuration error of the service. *)
Theorem voice_message_without_key {R : StringRuntime}
    (cfg : EnvConfig) (api : Api) (now : nat) (evs : list PageEvent) (s : Session)
    (audioBlob : Blob) (now1 : nat) (audioUrl : positive) :
  groqApiKey cfg = EmptyString ->
  pageRun cfg api (initialSession now) evs = Some s ->
  showVoiceRecorder (page s) = true ->
  pageRun cfg api s [RecorderSend audioBlob; Settle 0 now1 audioUrl]
  = Some {| page := {| messages := messages (page s);
                       input := input (page s);
                       isLoading := false;
                       showVoiceRecorder := false;
                       pageError :=
                         Some ("Transcription error: " ++ notConfiguredMessage) |};
            groqClient := None; pending := [] |}.
Proof.
  intros Hk Hrun Hshow.
  destruct (page_invariant _ _ _ _ _ Hrun) as (Hinv & Hload).
  specialize (Hload Hshow).
  pose proof (pending_empty _ Hinv Hload) as Hp.
  pose proof (no_key_no_client cfg api evs (initialSession now) s Hk eq_refl Hrun) as Hc.
  cbn [pageRun pageStep]. rewrite Hshow, Hload, Hp.
  cbn [andb negb app mbind option_bind pageStep pending page ChatPage.groqClient
       lookup list_lookup settle].
  rewrite Hc, transcribeAudio_no_key by exact Hk. setters. reflexivity.
Qed.

Lemma voice_message_without_key_witness :
  pageRun (R := asciiRuntime) {| groqApiKey := EmptyString; debugMode := false |}
    {| createChatCompletion := fun _ _ => Rejected OtherValue;
       createTranscription := fun _ _ => Rejected OtherValue |}
    {| page := setShowVoiceRecorder true (initialPage 0); groqClient := None;
       pending := [] |}
    [RecorderSend fragment1; Settle 0 1 1%positive]
  = Some {| page := {| messages := messages (initialPage 0);
                       input := EmptyString;
                       isLoading := false;
                       showVoiceRecorder := false;
                       pageError :=
                         Some ("Transcription error: " ++ notConfiguredMessage) |};
            groqClient := None; pending := [] |}.
Proof.
  apply (voice_message_without_key (R := asciiRuntime)
           {| groqApiKey := EmptyString; debugMode := false |} _ 0 [OpenRecorder]);
    reflexivity.
Defined.

End ChatPageFacts.

Module ClassifierFacts.
Import JsString Chat ChatFacts.

Lemma lowerAscii_app (s t : string) :
  lowerAscii (s ++ t) = lowerAscii s ++ lowerAscii t.
Proof.
  induction s as [|c s IH]; [reflexivity|].
  rewrite append_cons. cbn [lowerAscii]. now rewrite IH, append_cons.
Qed.

Lemma append_assoc (a b c : string) : (a ++ b) ++ c = a ++ (b ++ c).
Proof.
  induction a as [|x a IH]; [reflexivity|]. rewrite !append_cons. now rewrite IH.
Qed.

Lemma matches_context {R : StringRuntime} ws (before text after : string) :
  toLowerCase (before ++ text ++ after)
  = toLowerCase before ++ toLowerCase text ++ toLowerCase after ->
  matches ws (toLowerCase text) ->
  matches ws (toLowerCase (before ++ text ++ after)).
Proof.
  intros Happ (w & Hin & pre & post & E). exists w. split; [exact Hin|].
  exists (toLowerCase before ++ pre), (post ++ toLowerCase after).
  rewrite Happ, E, !append_assoc. reflexivity.
Qed.

Lemma risk_in_context {R : StringRuntime} (before text after : string) :
  toLowerCase (before ++ text ++ after)
  = toLowerCase before ++ toLowerCase text ++ toLowerCase after ->
  severity (analyzeRisk text) <= severity (analyzeRisk (before ++ text ++ after)).
Proof.
  intros Happ. unfold analyzeRisk.
  destruct (some _ highRiskWords) eqn:Eh.
  - apply some_includes_spec in Eh.
    apply (matches_context _ before _ after Happ), some_includes_spec in Eh.
    rewrite Eh. apply le_n.
  - destruct (some _ mediumRiskWords) eqn:Em.
    + apply some_includes_spec in Em.
      apply (matches_context _ before _ after Happ), some_includes_spec in Em.
      rewrite Em.
      destruct (some (fun word => includes (toLowerCase (before ++ text ++ after)) word)
                  highRiskWords); vm_compute; lia.
    + apply Nat.le_0_l.
Qed.

(** X22. Text put before or after a message never lowers its risk level:
    with the lower-casing of ASCII letters for every three texts, and with
    the [toLowerCase] of any runtime wherever it lower-cases the three
    texts one by one (as it does when the cuts split no character and no
    word that ends in a capital sigma). *)
Theorem more_text_never_lowers_risk (before text after : string) :
  severity (analyzeRisk (R := asciiRuntime) text)
  <= severity (analyzeRisk (R := asciiRuntime) (before ++ text ++ after))
  /\ forall R : StringRuntime,
      toLowerCase (before ++ text ++ after)
      = toLowerCase before ++ toLowerCase text ++ toLowerCase after ->
      severity (analyzeRisk text)
      <= severity (analyzeRisk (before ++ text ++ after)).
Proof.
  split.
  - apply (risk_in_context (R := asciiRuntime)). cbn [toLowerCase asciiRuntime].
    now rewrite !lowerAscii_app.
  - intros R. apply risk_in_context.
Qed.

(** X23. The classifier and the canned response depend on the message only up
    to the case of its letters. *)
Theorem classifier_ignores_case {R : StringRuntime} (a b : string) :
  toLowerCase a = toLowerCase b ->
  analyzeRisk a = analyzeRisk b
  /\ generateFallbackResponse a = generateFallbackResponse b.
Proof.
  intros H. split.
  - unfold analyzeRisk. now rewrite H.
  - rewrite !generateFallbackResponse_firstMatch. now rewrite H.
Qed.

Lemma classifier_ignores_case_witness :
  analyzeRisk (R := asciiRuntime) "He HIT me" = analyzeRisk (R := asciiRuntime) "he hit me"
  /\ generateFallbackResponse (R := asciiRuntime) "He HIT me"
     = generateFallbackResponse (R := asciiRuntime) "he hit me".
Proof.
  apply (classifier_ignores_case (R := asciiRuntime)). reflexivity.
Defined.

End ClassifierFacts.

Module VoiceRecorderHostFacts.
Import JsString AudioUtils AudioUtilsFacts VoiceRecorder VoiceRecorderFacts.
Local Open Scope list_scope.
Local Arguments isAudioRecordingSupported : simpl never.
Local Arguments getSupportedMimeType : simpl never.

Lemma hostCalls_with_ui f s : hostCalls (with_ui f s) = hostCalls s.
Proof. unfold with_ui. now destruct (mounted s). Qed.

Lemma hostCalls_with_refs f s : hostCalls (with_refs f s) = hostCalls s.
Proof. reflexivity. Qed.

Lemma hostCalls_with_browser f s : hostCalls (with_browser f s) = hostCalls s.
Proof. reflexivity. Qed.

(** Unfold a handler down to the three kinds of update and drop them. *)
Ltac quiet_host :=
  cbv [startTimer stopTimer timerCallback setInterval clearInterval allocate
       createObjectURL revokeObjectURL openStream stopTracks newMediaRecorder
       setRecState ondataavailable onstop startRecording startRecording_catch
       playAudio setIsRecording setIsPaused setDuration setAudioUrl setAudioBlob
       setError setIsPlaying set_mediaRecorderRef set_audioChunksRef set_streamRef
       set_timerRef set_pendingRequests set_liveStreams set_recorders
       set_intervals set_objectUrls set_nextId];
  repeat match goal with
         | |- context [match ?x with _ => _ end] => destruct x
         end;
  repeat first [rewrite hostCalls_with_ui | rewrite hostCalls_with_refs
               | rewrite hostCalls_with_browser];
  try reflexivity.

Lemma hostCalls_stopTimer s : hostCalls (stopTimer s) = hostCalls s.
Proof. quiet_host. Qed.

Lemma hostCalls_startTimer s : hostCalls (startTimer s) = hostCalls s.
Proof. quiet_host. Qed.

Lemma hostCalls_setRecState r v q s : hostCalls (setRecState r v q s) = hostCalls s.
Proof. reflexivity. Qed.

Lemma hostCalls_MediaRecorder m s s' :
  (m = MediaRecorder_start \/ m = MediaRecorder_stop \/ m = MediaRecorder_pause
   \/ m = MediaRecorder_resume) ->
  forall r, m r s = Some s' -> hostCalls s' = hostCalls s.
Proof.
  intros Hm r. destruct Hm as [->|[->|[->| ->]]];
    unfold MediaRecorder_start, MediaRecorder_stop, MediaRecorder_pause,
      MediaRecorder_resume;
    (destruct (recorders (browser s) !! r) as [x|]; [|discriminate]);
    cbn [mbind option_bind]; destruct (recState x); intros [= <-]; reflexivity.
Qed.

Lemma hostCalls_stopRecording_closure b s s' :
  stopRecording_closure b s = Some s' -> hostCalls s' = hostCalls s.
Proof.
  unfold stopRecording_closure.
  destruct (mediaRecorderRef (refs s)) as [r|]; [|now intros [= <-]].
  destruct b; [|now intros [= <-]].
  destruct (MediaRecorder_stop r s) as [s1|] eqn:E; [|discriminate].
  cbn [mbind option_bind]. intros [= <-].
  rewrite hostCalls_stopTimer. unfold setIsPaused, setIsRecording.
  rewrite !hostCalls_with_ui. eapply hostCalls_MediaRecorder, E. auto.
Qed.

Lemma hostCalls_pauseRecording s s' :
  pauseRecording s = Some s' -> hostCalls s' = hostCalls s.
Proof.
  unfold pauseRecording.
  destruct (mediaRecorderRef (refs s)) as [r|]; [|now intros [= <-]].
  destruct (isRecording (ui s)); [|now intros [= <-]].
  destruct (isPaused (ui s)).
  - destruct (MediaRecorder_resume r s) as [s1|] eqn:E; [|discriminate].
    cbn [mbind option_bind]. intros [= <-]. unfold setIsPaused.
    rewrite hostCalls_with_ui, hostCalls_startTimer.
    eapply hostCalls_MediaRecorder, E. auto.
  - destruct (MediaRecorder_pause r s) as [s1|] eqn:E; [|discriminate].
    cbn [mbind option_bind]. intros [= <-]. unfold setIsPaused.
    rewrite hostCalls_with_ui, hostCalls_stopTimer.
    eapply hostCalls_MediaRecorder, E. auto.
Qed.

Lemma hostCalls_startRecording_granted rt s :
  hostCalls (startRecording_granted rt s) = hostCalls s.
Proof.
  unfold startRecording_granted.
  cbv [openStream allocate newMediaRecorder].
  destruct (isTypeSupported rt (getSupportedMimeType rt)).
  - match goal with
    | |- context [MediaRecorder_start ?r ?x] =>
        destruct (MediaRecorder_start r x) as [s1|] eqn:E
    end.
    + rewrite hostCalls_startTimer. unfold setIsRecording. rewrite hostCalls_with_ui.
      rewrite (hostCalls_MediaRecorder MediaRecorder_start _ _ (or_introl eq_refl) _ E).
      reflexivity.
    + unfold startRecording_catch, setError. now rewrite hostCalls_with_ui.
  - unfold startRecording_catch, setError. now rewrite hostCalls_with_ui.
Qed.

Lemma hostCalls_cleanup s s' : cleanup s = Some s' -> hostCalls s' = hostCalls s.
Proof.
  rewrite cleanup_eq. intros [= <-].
  destruct (streamRef (refs s)), (timerRef (refs s)); reflexivity.
Qed.

Lemma hostCalls_unmount s s' : unmount s = Some s' -> hostCalls s' = hostCalls s.
Proof.
  unfold unmount. destruct (cleanup s) as [s1|] eqn:E; [|discriminate].
  cbn [mbind option_bind]. intros [= <-]. cbn. eapply hostCalls_cleanup, E.
Qed.

Lemma hostCalls_ticks n s : hostCalls (Nat.iter n timerCallback s) = hostCalls s.
Proof.
  induction n as [|n IH]; [reflexivity|].
  change (Nat.iter (S n) timerCallback s)
    with (timerCallback (Nat.iter n timerCallback s)).
  unfold timerCallback at 1, setDuration. now rewrite hostCalls_with_ui.
Qed.

Lemma hostCalls_handleSend s :
  hostCalls (handleSend s)
  = hostCalls s ++ match audioBlob (ui s) with
                   | Some blob => [onSendVoice blob]
                   | None => []
                   end.
Proof.
  unfold handleSend. destruct (audioBlob (ui s)) as [blob|].
  - cbn [ui call]. now destruct (audioUrl (ui s)).
  - now rewrite app_nil_r.
Qed.

(** X24. The host hears from the recorder through the Send and the Cancel
    button only: whatever state the component is in, an event that it
    handles adds the call of [onSendVoice] with the artifact (Send), the
    call of [onCancel] (Cancel) or nothing, and never removes a call. *)
Theorem host_is_called_by_send_and_cancel_only (rt : Runtime) (s s' : State) (e : Event) :
  step rt s e = Some s' -> hostCalls s' = hostCalls s ++ callsOf s e.
Proof.
  unfold step, panel, callsOf. destruct e; rewrite ?app_nil_r.
  - destruct (mounted s); [|discriminate].
    destruct (view s); intros [= <-]. quiet_host.
  - destruct (pendingRequests (browser s)) as [|p]; [discriminate|]. intros [= <-].
    now rewrite hostCalls_startRecording_granted.
  - destruct (pendingRequests (browser s)); intros [= <-]. quiet_host.
  - intros [= <-]. apply hostCalls_ticks.
  - destruct (mounted s); [|discriminate].
    destruct (view s); try discriminate. apply hostCalls_pauseRecording.
  - destruct (mounted s); [|discriminate].
    destruct (view s); try discriminate. apply hostCalls_stopRecording_closure.
  - destruct (recorders (browser s) !! r) as [m|]; [|discriminate].
    cbn [mbind option_bind]. destruct (busy m); intros [= <-]. quiet_host.
  - destruct (recorders (browser s) !! r) as [m|]; [|discriminate].
    cbn [mbind option_bind]. destruct (stopQueued m); intros [= <-]. quiet_host.
  - destruct (mounted s); [|discriminate].
    destruct (view s); try discriminate. intros [= <-]. quiet_host.
  - destruct (mounted s); [|discriminate].
    destruct (view s); try discriminate. intros [= <-]. quiet_host.
  - destruct (mounted s); [|discriminate].
    destruct (view s); try discriminate. unfold send.
    pose proof (hostCalls_handleSend s) as Hs.
    destruct (audioBlob (ui s)) as [blob|].
    + intros H. apply hostCalls_unmount in H. congruence.
    + intros [= <-]. exact Hs.
  - destruct (mounted s); [|discriminate]. unfold cancel, handleCancel, stopRecording.
    destruct (stopRecording_closure _ s) as [s1|] eqn:E; [|discriminate].
    cbn [mbind option_bind]. intros H. apply hostCalls_unmount in H.
    apply hostCalls_stopRecording_closure in E. rewrite H. cbn [call hostCalls].
    destruct (audioUrl (ui s1)); cbn; now rewrite E.
  - destruct (mounted s); [|discriminate]. apply hostCalls_unmount.
Qed.

Lemma host_is_called_by_send_and_cancel_only_witness :
  exists s', step chromium initial ClickCancel = Some s'
             /\ hostCalls s' = [onCancel].
Proof.
  eexists. split; [vm_compute; reflexivity|].
  apply (host_is_called_by_send_and_cancel_only chromium initial _ ClickCancel).
  vm_compute. reflexivity.
Defined.


(** X25. The cleanup at unmount runs with the closures of the first render.
    Whatever state the component is in, it does not throw; it stops the
    stream and the timer the refs hold, but it neither stops the recorder
    nor revokes an object URL, and the state cells and refs stay as they
    are. *)
Theorem unmount_cleanup_is_stale (s : State) :
  exists s',
    unmount s = Some s'
    /\ mounted s' = false
    /\ (forall st, streamRef (refs s) = Some st -> st ∉ liveStreams (browser s'))
    /\ (forall t, timerRef (refs s) = Some t -> t ∉ intervals (browser s'))
    /\ recorders (browser s') = recorders (browser s)
    /\ objectUrls (browser s') = objectUrls (browser s)
    /\ ui s' = ui s
    /\ refs s' = refs s.
Proof.
  unfold unmount. rewrite cleanup_eq. cbn [mbind option_bind].
  eexists. split; [reflexivity|].
  destruct s as [c [mr ch [st|] [t|]] [p ls rs iv us nx] hc m]; reduce.
  all: split; [reflexivity|].
  all: split; [intros ? [= <-]; try apply not_elem_of_difference; try (right; apply elem_of_singleton; reflexivity)|].
  all: split; [intros ? [= <-]; try apply not_elem_of_difference; try (right; apply elem_of_singleton; reflexivity)|].
  all: repeat split.
Qed.

Lemma send_ready rt fs d err play r st u n :
  step rt (readyState rt fs d err play r st u n) ClickSend
  = Some {| ui := uiOf false false d (Some u)
                    (Some (newBlob (filter nonEmpty fs) (getSupportedMimeType rt)))
                    err play;
            refs := {| mediaRecorderRef := Some r;
                       audioChunksRef := filter nonEmpty fs;
                       streamRef := Some st; timerRef := None |};
            browser := {| pendingRequests := 0; liveStreams := ∅;
                          recorders := {[r := recorderOf rt inactive false st]};
                          intervals := ∅; objectUrls := ∅; nextId := n |};
            hostCalls := [onSendVoice (newBlob (filter nonEmpty fs)
                                         (getSupportedMimeType rt))];
            mounted := false |}.
Proof.
  unfold step, send. reduce. unfold unmount. rewrite cleanup_eq. reduce.
  records; try reflexivity; set_solver.
Qed.

(** X26. Send in Ready, in a session: the host receives the artifact, the
    recorded fragments that were not empty in the order of their delivery,
    and nothing else; the preview URL is revoked and neither a stream nor
    a timer is left when the recorder is taken off the page. *)
Theorem send_hands_over_the_artifact (rt : Runtime) (evs : list Event) (s : State) :
  session rt initial evs = Some s -> mounted s = true -> phase s = Ready ->
  exists s',
    step rt s ClickSend = Some s'
    /\ hostCalls s'
       = [onSendVoice (newBlob (filter nonEmpty (delivered evs))
                         (getSupportedMimeType rt))]
    /\ released s'
    /\ mounted s' = false.
Proof.
  intros Hrun Hm Hph. apply session_invariant in Hrun.
  destruct Hrun; try discriminate; [|congruence].
  eexists. split; [apply send_ready|]. repeat split.
Qed.

Lemma send_hands_over_the_artifact_witness :
  exists s s',
    session chromium initial scenario = Some s
    /\ step chromium s ClickSend = Some s'
    /\ hostCalls s'
       = [onSendVoice {| blobData := [Byte.x52; Byte.x49; Byte.x46];
                         blobType := "audio/webm" |}].
Proof.
  assert (Hs : exists s, session chromium initial scenario = Some s
                         /\ mounted s = true /\ phase s = Ready).
  { eexists. split; [vm_compute; reflexivity|]. split; reflexivity. }
  destruct Hs as (s & Hs & Hm & Hp).
  destruct (send_hands_over_the_artifact chromium scenario s Hs Hm Hp)
    as (s' & Hstep & Hh & _).
  exists s, s'. split; [exact Hs|]. split; [exact Hstep|exact Hh].
Defined.



(** X28. The preview button is a toggle: a press flips [isPlaying] and
    leaves everything else as it is, a second press brings the state back,
    and the end of the playback shows the Play button again. *)
Theorem preview_is_a_toggle (rt : Runtime) (s s' : State) :
  step rt s ClickPlay = Some s' ->
  s' = setIsPlaying (negb (isPlaying (ui s))) s
  /\ step rt s' ClickPlay = Some s
  /\ step rt s' AudioEnded = Some (setIsPlaying false s).
Proof.
  destruct s as [[rec pau d [u|] b err play] r br hc [|]]; destruct rec;
    unfold step; reduce; try discriminate.
  intros [= <-]. destruct play; repeat split.
Qed.

Lemma preview_is_a_toggle_witness :
  exists s s',
    session chromium initial scenario = Some s
    /\ step chromium s ClickPlay = Some s'
    /\ isPlaying (ui s') = true
    /\ step chromium s' ClickPlay = Some s.
Proof.
  assert (Hs : exists s s',
             session chromium initial scenario = Some s
             /\ step chromium s ClickPlay = Some s'
             /\ isPlaying (ui s') = true).
  { eexists _, _. split; [vm_compute; reflexivity|].
    split; [vm_compute; reflexivity|]. reflexivity. }
  destruct Hs as (s & s' & Hs & Hp & Hi). exists s, s'.
  split; [exact Hs|]. split; [exact Hp|]. split; [exact Hi|].
  now apply (preview_is_a_toggle chromium s s' Hp).
Defined.

Lemma session_one_ticker_witness :
  exists s,
    session chromium initial [ClickStart; UserMediaGranted; Tick] = Some s
    /\ phase s = Recording
    /\ size (intervals (browser s)) = 1.
Proof.
  assert (Hs : exists s,
             session chromium initial [ClickStart; UserMediaGranted; Tick] = Some s
             /\ mounted s = true /\ phase s = Recording).
  { eexists. split; [vm_compute; reflexivity|]. split; reflexivity. }
  destruct Hs as (s & Hs & Hm & Hp). exists s. split; [exact Hs|].
  split; [exact Hp|]. now apply (session_one_ticker chromium _ s Hs Hm).
Defined.

End VoiceRecorderHostFacts.
